(** * p5.millefeuille: the layer compositing core

    A shallow embedding of the Blend Mode Table, [Layer], [Compositor] and
    [LayerSystem] of p5.millefeuille v0.2.1-alpha, together with the
    fragment program the compositor runs for every blend pass, and of
    the bounds helpers and the ordering logic of the layer panel.

    Conventions of the embedding.
    - JavaScript numbers that the code only stores, compares or adds
      (ids, zIndex, widths and heights) are integers [Z]; the numbers
      that are scaled or clamped (opacity, pixel density, colour
      channels) are exact rationals [Q].  GLSL [float] is therefore
      idealised: rounding is not modelled and arithmetic identities are
      stated up to [Qeq].
    - The render host (the p5 instance, the GPU and the console) is the
      record [Host].  Its two fallible primitives, [createFramebuffer]
      and [createShader], read their outcome from a script carried by
      the host; the GLSL builtin [sqrt] is a field of the host too.
    - A JavaScript [Map] is a list in insertion order when its
      iteration order is observable ([layers]) and a [gmap] when it is
      only looked up ([layerNames]).
    - Code that can throw returns a [Res]; the state reached when the
      exception leaves the method is returned with it. *)

From Stdlib Require Import ZArith QArith Qminmax Qabs List String Bool Lia Lqa.
From Stdlib Require Import DecimalString Sorted Qround.
From stdpp Require Import base gmap strings list.
Import ListNotations.

Open Scope string_scope.
Open Scope Z_scope.

(* ------------------------------------------------------------------ *)
(** * JavaScript values, console, exceptions                           *)
(* ------------------------------------------------------------------ *)

(** The dynamically typed arguments of the public API: a blend mode, or
    the [layerIdOrName] reference. *)
Inductive value : Type :=
  | VUndefined
  | VNull
  | VBool (b : bool)
  | VNumber (n : Z)
  | VString (s : string).

(** A line written to the console.  The interpolated part of the
    message is dropped; the text names the call site. *)
Inductive Diagnostic : Type :=
  | Warn (msg : string)
  | Error (msg : string).

Inductive Exn : Type :=
  | JsError (msg : string)
  | TypeError (msg : string)
  | HostFailure (msg : string).

Inductive Res (A : Type) : Type :=
  | Ok (a : A)
  | Throw (e : Exn).
Arguments Ok {A} a.
Arguments Throw {A} e.

Definition returned {A} (r : Res A) : bool :=
  match r with Ok _ => true | Throw _ => false end.

(* ------------------------------------------------------------------ *)
(** * GLSL vectors                                                     *)
(* ------------------------------------------------------------------ *)

Record vec3 : Type := mkVec3 { v_r : Q; v_g : Q; v_b : Q }.
Record vec4 : Type := mkVec4 { c_r : Q; c_g : Q; c_b : Q; c_a : Q }.

Definition rgb (c : vec4) : vec3 := mkVec3 (c_r c) (c_g c) (c_b c).
Definition vec4_of (v : vec3) (a : Q) : vec4 := mkVec4 (v_r v) (v_g v) (v_b v) a.
Definition vec3_all (x : Q) : vec3 := mkVec3 x x x.

Definition vec3_map2 (f : Q -> Q -> Q) (u v : vec3) : vec3 :=
  mkVec3 (f (v_r u) (v_r v)) (f (v_g u) (v_g v)) (f (v_b u) (v_b v)).
Definition vec3_map (f : Q -> Q) (u : vec3) : vec3 :=
  mkVec3 (f (v_r u)) (f (v_g u)) (f (v_b u)).

Definition Qlt_bool (x y : Q) : bool := negb (Qle_bool y x).

(** GLSL builtins: [min(x,y)] is [y] when [y < x], [max(x,y)] is [y]
    when [x < y]. *)
Definition glsl_min (x y : Q) : Q := if Qlt_bool y x then y else x.
Definition glsl_max (x y : Q) : Q := if Qlt_bool x y then y else x.
Definition glsl_abs (x : Q) : Q := if Qlt_bool x 0 then (- x)%Q else x.

Definition vadd := vec3_map2 Qplus.
Definition vsub := vec3_map2 Qminus.
Definition vmul := vec3_map2 Qmult.
Definition vscale (v : vec3) (k : Q) : vec3 := vec3_map (fun x => (x * k)%Q) v.
Definition kscale (k : Q) (v : vec3) : vec3 := vec3_map (fun x => (k * x)%Q) v.
Definition vmin := vec3_map2 glsl_min.
Definition vmax := vec3_map2 glsl_max.
Definition vabs := vec3_map glsl_abs.

Definition vec3_eq (u v : vec3) : Prop :=
  (v_r u == v_r v /\ v_g u == v_g v /\ v_b u == v_b v)%Q.
Definition vec4_eq (c d : vec4) : Prop :=
  (c_r c == c_r d /\ c_g c == c_g d /\ c_b c == c_b d /\ c_a c == c_a d)%Q.

(** A texture is what [texture2D] returns at each coordinate. *)
Definition UV : Type := (Q * Q)%type.
Definition Texture : Type := UV -> vec4.

(** What [p.clear()] leaves in a buffer: transparent black. *)
Definition transparent : vec4 := mkVec4 0 0 0 0.
Definition clearTexture : Texture := fun _ => transparent.

(* ------------------------------------------------------------------ *)
(** * compositorFragSource                                             *)
(* ------------------------------------------------------------------ *)

Module Frag.
Section Program.

  (** The GLSL builtin [sqrt] of the GPU that runs the program. *)
Variable sqrt : Q -> Q.

Local Open Scope Q_scope.

  (** Every three-argument overload has the same body. *)
Definition withOpacity (f : vec3 -> vec3 -> vec3) (base blend : vec3) (opacity : Q) : vec3 :=
    vadd (vscale (f base blend) opacity) (vscale base (1 - opacity)).

Definition blendNormal (base blend : vec3) : vec3 := blend.
Definition blendNormalO := withOpacity blendNormal.

Definition blendMultiply (base blend : vec3) : vec3 := vmul base blend.
Definition blendMultiplyO := withOpacity blendMultiply.

Definition blendScreenF (base blend : Q) : Q := 1 - ((1 - base) * (1 - blend)).
Definition blendScreen := vec3_map2 blendScreenF.
Definition blendScreenO := withOpacity blendScreen.

Definition blendAddF (base blend : Q) : Q := glsl_min (base + blend) 1.
Definition blendAdd (base blend : vec3) : vec3 := vmin (vadd base blend) (vec3_all 1).
Definition blendAddO := withOpacity blendAdd.

Definition blendSubtractF (base blend : Q) : Q := glsl_max (base + blend - 1) 0.
Definition blendSubtract (base blend : vec3) : vec3 :=
    vmax (vsub (vadd base blend) (vec3_all 1)) (vec3_all 0).
Definition blendSubtractO := withOpacity blendSubtract.

Definition blendOverlay_0F (base blend : Q) : Q :=
    if Qlt_bool base (1#2) then 2 * base * blend
    else 1 - 2 * (1 - base) * (1 - blend).
Definition blendOverlay_0 := vec3_map2 blendOverlay_0F.
Definition blendOverlay_0O := withOpacity blendOverlay_0.

Definition blendSoftLightF (base blend : Q) : Q :=
    if Qlt_bool blend (1#2)
    then 2 * base * blend + base * base * (1 - 2 * blend)
    else sqrt base * (2 * blend - 1) + 2 * base * (1 - blend).
Definition blendSoftLight := vec3_map2 blendSoftLightF.
Definition blendSoftLightO := withOpacity blendSoftLight.

Definition blendOverlay_1F (base blend : Q) : Q :=
    if Qlt_bool base (1#2) then 2 * base * blend
    else 1 - 2 * (1 - base) * (1 - blend).
Definition blendOverlay_1 := vec3_map2 blendOverlay_1F.

Definition blendHardLight (base blend : vec3) : vec3 := blendOverlay_1 blend base.
Definition blendHardLightO := withOpacity blendHardLight.

Definition blendColorDodgeF (base blend : Q) : Q :=
    if Qeq_bool blend 1 then blend else glsl_min (base / (1 - blend)) 1.
Definition blendColorDodge := vec3_map2 blendColorDodgeF.
Definition blendColorDodgeO := withOpacity blendColorDodge.

Definition blendColorBurnF (base blend : Q) : Q :=
    if Qeq_bool blend 0 then blend else glsl_max (1 - ((1 - base) / blend)) 0.
Definition blendColorBurn := vec3_map2 blendColorBurnF.
Definition blendColorBurnO := withOpacity blendColorBurn.

Definition blendDarkenF (base blend : Q) : Q := glsl_min blend base.
Definition blendDarken := vec3_map2 blendDarkenF.
Definition blendDarkenO := withOpacity blendDarken.

Definition blendLightenF (base blend : Q) : Q := glsl_max blend base.
Definition blendLighten := vec3_map2 blendLightenF.
Definition blendLightenO := withOpacity blendLighten.

Definition blendDifference (base blend : vec3) : vec3 := vabs (vsub base blend).
Definition blendDifferenceO := withOpacity blendDifference.

Definition blendExclusion (base blend : vec3) : vec3 :=
    vsub (vadd base blend) (vmul (kscale 2 base) blend).
Definition blendExclusionO := withOpacity blendExclusion.

Definition applyBlendMode (mode : Z) (base blend : vec3) (opacity : Q) : vec3 :=
    if (mode =? 0)%Z then blendNormalO base blend opacity else
    if (mode =? 1)%Z then blendMultiplyO base blend opacity else
    if (mode =? 2)%Z then blendScreenO base blend opacity else
    if (mode =? 3)%Z then blendAddO base blend opacity else
    if (mode =? 4)%Z then blendSubtractO base blend opacity else
    if (mode =? 5)%Z then blendOverlay_0O base blend opacity else
    if (mode =? 6)%Z then blendSoftLightO base blend opacity else
    if (mode =? 7)%Z then blendHardLightO base blend opacity else
    if (mode =? 8)%Z then blendColorDodgeO base blend opacity else
    if (mode =? 9)%Z then blendColorBurnO base blend opacity else
    if (mode =? 10)%Z then blendDarkenO base blend opacity else
    if (mode =? 11)%Z then blendLightenO base blend opacity else
    if (mode =? 12)%Z then blendDifferenceO base blend opacity else
    if (mode =? 13)%Z then blendExclusionO base blend opacity else
    blendNormalO base blend opacity.

  (** The uniforms of the program. *)
Record Uniforms : Type := mkUniforms {
    layerTexture : Texture;
    backgroundTexture : Texture;
    maskTexture : Texture;
    hasMask : bool;
    layerOpacity : Q;
    blendMode : Z
  }.

  (** [main]: the value of [gl_FragColor] at the fragment [uv]. *)
Definition main (u : Uniforms) (uv : UV) : vec4 :=
    let layerColor := layerTexture u uv in
    let bgColor := backgroundTexture u uv in
    let finalOpacity := c_a layerColor * layerOpacity u in
    let finalOpacity :=
      if hasMask u then finalOpacity * c_r (maskTexture u uv) else finalOpacity in
    if Qle_bool finalOpacity 0 then bgColor
    else
      let blendedColor :=
        applyBlendMode (blendMode u) (rgb bgColor) (rgb layerColor) finalOpacity in
      vec4_of blendedColor 1.

End Program.
End Frag.

(* ------------------------------------------------------------------ *)
(** * Blend Mode Table                                                 *)
(* ------------------------------------------------------------------ *)

Module BlendModes.
Definition NORMAL := "NORMAL".
Definition MULTIPLY := "MULTIPLY".
Definition SCREEN := "SCREEN".
Definition ADD := "ADD".
Definition SUBTRACT := "SUBTRACT".
Definition OVERLAY := "OVERLAY".
Definition SOFT_LIGHT := "SOFT_LIGHT".
Definition HARD_LIGHT := "HARD_LIGHT".
Definition COLOR_DODGE := "COLOR_DODGE".
Definition COLOR_BURN := "COLOR_BURN".
Definition DARKEN := "DARKEN".
Definition LIGHTEN := "LIGHTEN".
Definition DIFFERENCE := "DIFFERENCE".
Definition EXCLUSION := "EXCLUSION".

  (** The object literal, as its entries in declaration order. *)
Definition entries : list (string * string) :=
    [ ("NORMAL", NORMAL); ("MULTIPLY", MULTIPLY); ("SCREEN", SCREEN);
      ("ADD", ADD); ("SUBTRACT", SUBTRACT); ("OVERLAY", OVERLAY);
      ("SOFT_LIGHT", SOFT_LIGHT); ("HARD_LIGHT", HARD_LIGHT);
      ("COLOR_DODGE", COLOR_DODGE); ("COLOR_BURN", COLOR_BURN);
      ("DARKEN", DARKEN); ("LIGHTEN", LIGHTEN);
      ("DIFFERENCE", DIFFERENCE); ("EXCLUSION", EXCLUSION) ].

  (** [Object.values(BlendModes)] *)
Definition values : list string := map snd entries.
End BlendModes.

(** [v === s] for a string [s]. *)
Definition strictEqString (v : value) (s : string) : bool :=
  match v with
  | VString t => String.eqb t s
  | _ => false
  end.

(** [Object.values(BlendModes).includes(mode)] *)
Definition isBlendMode (mode : value) : bool :=
  existsb (strictEqString mode) BlendModes.values.

(** [getBlendModeIndex]: the opcode, and what was written to the console. *)
Definition getBlendModeIndex (mode : value) : Z * list Diagnostic :=
  if strictEqString mode BlendModes.NORMAL then (0, []) else
  if strictEqString mode BlendModes.MULTIPLY then (1, []) else
  if strictEqString mode BlendModes.SCREEN then (2, []) else
  if strictEqString mode BlendModes.ADD then (3, []) else
  if strictEqString mode BlendModes.SUBTRACT then (4, []) else
  if strictEqString mode BlendModes.OVERLAY then (5, []) else
  if strictEqString mode BlendModes.SOFT_LIGHT then (6, []) else
  if strictEqString mode BlendModes.HARD_LIGHT then (7, []) else
  if strictEqString mode BlendModes.COLOR_DODGE then (8, []) else
  if strictEqString mode BlendModes.COLOR_BURN then (9, []) else
  if strictEqString mode BlendModes.DARKEN then (10, []) else
  if strictEqString mode BlendModes.LIGHTEN then (11, []) else
  if strictEqString mode BlendModes.DIFFERENCE then (12, []) else
  if strictEqString mode BlendModes.EXCLUSION then (13, []) else
  (0, [Warn "Unknown blend mode, falling back to NORMAL"]).

(* ------------------------------------------------------------------ *)
(** * The render host                                                  *)
(* ------------------------------------------------------------------ *)

(** A [p5.Framebuffer]: its size, its colour texture, and whether it is
    between its own [begin()] and [end()]. *)
Record Framebuffer : Type := mkFramebuffer {
  fb_width : Z;
  fb_height : Z;
  fb_density : Q;
  fb_depth : bool;
  fb_antialias : bool;
  fb_pixels : Texture;
  fb_bound : bool
}.

Definition fb_setPixels (t : Texture) (f : Framebuffer) : Framebuffer :=
  mkFramebuffer (fb_width f) (fb_height f) (fb_density f) (fb_depth f)
    (fb_antialias f) t (fb_bound f).
Definition fb_setBound (b : bool) (f : Framebuffer) : Framebuffer :=
  mkFramebuffer (fb_width f) (fb_height f) (fb_density f) (fb_depth f)
    (fb_antialias f) (fb_pixels f) b.

(** [framebuffer.begin()] and [framebuffer.end()] *)
Definition fb_begin : Framebuffer -> Framebuffer := fb_setBound true.
Definition fb_end : Framebuffer -> Framebuffer := fb_setBound false.

(** What has been drawn on the main surface, newest first. *)
Inductive CanvasOp : Type :=
  | CanvasClear
  | CanvasImage (t : Texture).
Definition Canvas : Type := list CanvasOp.

Record Host : Type := mkHost {
  h_width : Z;
  h_height : Z;
  h_pixelDensity : Q;
  (** the drawing context is a WebGL context *)
  h_webgl : bool;
  (** GLSL [sqrt] *)
  h_sqrt : Q -> Q;
  (** outcome of the coming [createFramebuffer] calls: [true] throws;
      an exhausted script succeeds *)
  h_framebufferFaults : list bool;
  (** outcome of the coming [createShader] calls, likewise *)
  h_shaderFaults : list bool;
  (** framebuffers created and not yet removed *)
  h_live : Z;
  (** console, newest first *)
  h_console : list Diagnostic;
  h_canvas : Canvas
}.

Definition h_setSize (w h : Z) (d : Q) (p : Host) : Host :=
  mkHost w h d (h_webgl p) (h_sqrt p) (h_framebufferFaults p)
    (h_shaderFaults p) (h_live p) (h_console p) (h_canvas p).
Definition h_setFramebufferFaults (fs : list bool) (p : Host) : Host :=
  mkHost (h_width p) (h_height p) (h_pixelDensity p) (h_webgl p) (h_sqrt p)
    fs (h_shaderFaults p) (h_live p) (h_console p) (h_canvas p).
Definition h_setShaderFaults (fs : list bool) (p : Host) : Host :=
  mkHost (h_width p) (h_height p) (h_pixelDensity p) (h_webgl p) (h_sqrt p)
    (h_framebufferFaults p) fs (h_live p) (h_console p) (h_canvas p).
Definition h_setLive (n : Z) (p : Host) : Host :=
  mkHost (h_width p) (h_height p) (h_pixelDensity p) (h_webgl p) (h_sqrt p)
    (h_framebufferFaults p) (h_shaderFaults p) n (h_console p) (h_canvas p).
Definition h_setConsole (c : list Diagnostic) (p : Host) : Host :=
  mkHost (h_width p) (h_height p) (h_pixelDensity p) (h_webgl p) (h_sqrt p)
    (h_framebufferFaults p) (h_shaderFaults p) (h_live p) c (h_canvas p).
Definition h_setCanvas (c : Canvas) (p : Host) : Host :=
  mkHost (h_width p) (h_height p) (h_pixelDensity p) (h_webgl p) (h_sqrt p)
    (h_framebufferFaults p) (h_shaderFaults p) (h_live p) (h_console p) c.

(** [console.warn] / [console.error] *)
Definition log (d : Diagnostic) (p : Host) : Host :=
  h_setConsole (d :: h_console p) p.
Definition logAll (ds : list Diagnostic) (p : Host) : Host :=
  h_setConsole (rev ds ++ h_console p) p.

Record FramebufferOptions : Type := mkFramebufferOptions {
  fo_width : Z;
  fo_height : Z;
  fo_density : Q;
  fo_depth : bool;
  fo_antialias : bool
}.

(** [p.createFramebuffer(options)]: a cleared, unbound buffer, or an
    exception. *)
Definition createFramebuffer (o : FramebufferOptions) (p : Host) : Res Framebuffer * Host :=
  let fresh := mkFramebuffer (fo_width o) (fo_height o) (fo_density o)
                 (fo_depth o) (fo_antialias o) clearTexture false in
  match h_framebufferFaults p with
  | true :: rest =>
      (Throw (HostFailure "createFramebuffer"), h_setFramebufferFaults rest p)
  | false :: rest =>
      (Ok fresh, h_setLive (h_live p + 1) (h_setFramebufferFaults rest p))
  | [] => (Ok fresh, h_setLive (h_live p + 1) p)
  end.

(** [framebuffer.remove()] *)
Definition removeFramebuffer (p : Host) : Host := h_setLive (h_live p - 1) p.

(** The compiled blend program, with the uniforms last set on it. *)
Record Shader : Type := mkShader { sh_uniforms : option Frag.Uniforms }.

(** [p.createShader(compositorVertSource, compositorFragSource)] *)
Definition createShader (p : Host) : Res Shader * Host :=
  match h_shaderFaults p with
  | true :: rest => (Throw (HostFailure "createShader"), h_setShaderFaults rest p)
  | false :: rest => (Ok (mkShader None), h_setShaderFaults rest p)
  | [] => (Ok (mkShader None), p)
  end.

(** Drawing the full-surface quad with the program bound: every
    fragment of the target receives [gl_FragColor]. *)
Definition runShader (p : Host) (u : Frag.Uniforms) : Texture :=
  Frag.main (h_sqrt p) u.

(* ------------------------------------------------------------------ *)
(** * Layer                                                            *)
(* ------------------------------------------------------------------ *)

Module Layer.

  (** The creation options; [None] is an absent (or null) key. *)
Record Options : Type := mkOptions {
    o_visible : option bool;
    o_opacity : option Q;
    o_blendMode : option value;
    o_width : option Z;
    o_height : option Z;
    o_density : option Q;
    o_depth : option bool;
    o_antialias : option bool;
    o_zIndex : option Z
  }.

Definition noOptions : Options :=
    mkOptions None None None None None None None None None.

Definition o_setZIndex (z : option Z) (o : Options) : Options :=
    mkOptions (o_visible o) (o_opacity o) (o_blendMode o) (o_width o)
      (o_height o) (o_density o) (o_depth o) (o_antialias o) z.

Record t : Type := mk {
    id : Z;
    name : string;
    visible : bool;
    opacity : Q;
    blendMode : value;
    zIndex : Z;
    width : Z;
    height : Z;
    density : Q;
    depth : bool;
    antialias : bool;
    customSize : bool;
    mask : option Texture;
    hasBeenDrawnTo : bool;
    framebuffer : option Framebuffer
  }.

Definition with_visible (v : bool) (l : t) : t :=
    mk (id l) (name l) v (opacity l) (blendMode l) (zIndex l) (width l)
      (height l) (density l) (depth l) (antialias l) (customSize l) (mask l)
      (hasBeenDrawnTo l) (framebuffer l).
Definition with_opacity (v : Q) (l : t) : t :=
    mk (id l) (name l) (visible l) v (blendMode l) (zIndex l) (width l)
      (height l) (density l) (depth l) (antialias l) (customSize l) (mask l)
      (hasBeenDrawnTo l) (framebuffer l).
Definition with_blendMode (v : value) (l : t) : t :=
    mk (id l) (name l) (visible l) (opacity l) v (zIndex l) (width l)
      (height l) (density l) (depth l) (antialias l) (customSize l) (mask l)
      (hasBeenDrawnTo l) (framebuffer l).
Definition with_zIndex (v : Z) (l : t) : t :=
    mk (id l) (name l) (visible l) (opacity l) (blendMode l) v (width l)
      (height l) (density l) (depth l) (antialias l) (customSize l) (mask l)
      (hasBeenDrawnTo l) (framebuffer l).
Definition with_size (w h : Z) (d : Q) (custom : bool) (l : t) : t :=
    mk (id l) (name l) (visible l) (opacity l) (blendMode l) (zIndex l) w
      h d (depth l) (antialias l) custom (mask l)
      (hasBeenDrawnTo l) (framebuffer l).
Definition with_mask (v : option Texture) (l : t) : t :=
    mk (id l) (name l) (visible l) (opacity l) (blendMode l) (zIndex l) (width l)
      (height l) (density l) (depth l) (antialias l) (customSize l) v
      (hasBeenDrawnTo l) (framebuffer l).
Definition with_hasBeenDrawnTo (v : bool) (l : t) : t :=
    mk (id l) (name l) (visible l) (opacity l) (blendMode l) (zIndex l) (width l)
      (height l) (density l) (depth l) (antialias l) (customSize l) (mask l)
      v (framebuffer l).
Definition with_framebuffer (v : option Framebuffer) (l : t) : t :=
    mk (id l) (name l) (visible l) (opacity l) (blendMode l) (zIndex l) (width l)
      (height l) (density l) (depth l) (antialias l) (customSize l) (mask l)
      (hasBeenDrawnTo l) v.

  (** The template literal [`Layer ${id}`]. *)
Definition defaultName (id : Z) : string :=
    ("Layer " ++ NilZero.string_of_int (Z.to_int id))%string.

  (** [name || `Layer ${id}`] *)
Definition nameOr (name : string) (id : Z) : string :=
    match name with
    | EmptyString => defaultName id
    | _ => name
    end.

Definition _createFramebuffer (l : t) (p : Host) : option Framebuffer * Host :=
    let options :=
      mkFramebufferOptions (width l) (height l) (density l) (depth l) (antialias l) in
    match createFramebuffer options p with
    | (Ok f, p') => (Some f, p')
    | (Throw _, p') => (None, log (Error "Error creating framebuffer for layer") p')
    end.

  (** [Math.max(0, Math.min(1, value))] *)
Definition _clampOpacity (v : Q) : Q := Qmax 0 (Qmin 1 v).

Definition constructor (p : Host) (id : Z) (name : string) (options : Options)
    : Res t * Host :=
    let l :=
      mk id (nameOr name id)
        (default true (o_visible options))
        (_clampOpacity (default 1%Q (o_opacity options)))
        (default (VString BlendModes.NORMAL) (o_blendMode options))
        (default id (o_zIndex options))
        (default (h_width p) (o_width options))
        (default (h_height p) (o_height options))
        (default (h_pixelDensity p) (o_density options))
        (default false (o_depth options))
        (default false (o_antialias options))
        (bool_decide (o_width options <> None)
         || bool_decide (o_height options <> None)
         || bool_decide (o_density options <> None))
        None false None in
    match _createFramebuffer l p with
    | (Some f, p') => (Ok (with_framebuffer (Some f) l), p')
    | (None, p') => (Throw (JsError "Failed to create framebuffer for layer"), p')
    end.

Definition show (l : t) : t := with_visible true l.
Definition hide (l : t) : t := with_visible false l.
Definition setOpacity (v : Q) (l : t) : t := with_opacity (_clampOpacity v) l.

Definition setBlendMode (mode : value) (l : t) : t * list Diagnostic :=
    if negb (isBlendMode mode)
    then (with_blendMode (VString BlendModes.NORMAL) l,
          [Warn "Invalid blend mode, using NORMAL"])
    else (with_blendMode mode l, []).

Definition setZIndex (z : Z) (l : t) : t := with_zIndex z l.

  (** A falsy [maskSource] is [None]. *)
Definition setMask (maskSource : option Texture) (l : t) : t * list Diagnostic :=
    match maskSource with
    | None => (l, [Warn "Invalid mask source provided"])
    | Some m => (with_mask (Some m) l, [])
    end.

Definition clearMask (l : t) : t := with_mask None l.

  (** [resize(width, height, density = this.density)] *)
Definition resize (w h : Z) (d : option Q) (l : t) (p : Host) : t * Host :=
    let d := default (density l) d in
    let matchesCanvas :=
      (w =? h_width p) && (h =? h_height p) && Qeq_bool d (h_pixelDensity p) in
    let l1 := with_size w h d (negb matchesCanvas) l in
    let p1 := match framebuffer l1 with
              | Some _ => removeFramebuffer p
              | None => p
              end in
    let '(fb, p2) := _createFramebuffer l1 p1 in
    (with_framebuffer fb l1, p2).

Definition begin (l : t) (p : Host) : t * Host :=
    match framebuffer l with
    | None => (l, log (Error "Cannot begin drawing: framebuffer not initialized") p)
    | Some f => (with_framebuffer (Some (fb_begin f)) l, p)
    end.

Definition end_ (l : t) (p : Host) : t * Host :=
    match framebuffer l with
    | None => (l, log (Error "Cannot end drawing: framebuffer not initialized") p)
    | Some f =>
        (with_hasBeenDrawnTo true (with_framebuffer (Some (fb_end f)) l), p)
    end.

Definition dispose (l : t) (p : Host) : t * Host :=
    match framebuffer l with
    | Some _ => (with_framebuffer None l, removeFramebuffer p)
    | None => (l, p)
    end.

  (** The buffer is between [begin()] and [end()]. *)
Definition bound (l : t) : bool :=
    match framebuffer l with
    | Some f => fb_bound f
    | None => false
    end.

End Layer.

(* ------------------------------------------------------------------ *)
(** * Stable sort by zIndex                                            *)
(* ------------------------------------------------------------------ *)

(** [Array.prototype.sort] with the comparator
    [(a, b) => a.zIndex - b.zIndex] is a stable ascending sort. *)
Fixpoint insertByZIndex (l : Layer.t) (ls : list Layer.t) : list Layer.t :=
  match ls with
  | [] => [l]
  | h :: t =>
      if Layer.zIndex l <=? Layer.zIndex h then l :: h :: t
      else h :: insertByZIndex l t
  end.

Definition sortByZIndex (ls : list Layer.t) : list Layer.t :=
  foldr insertByZIndex [] ls.

(* ------------------------------------------------------------------ *)
(** * Compositor                                                       *)
(* ------------------------------------------------------------------ *)

Module Compositor.

Record t : Type := mk {
    shader : option Shader;
    shaderLoaded : bool;
    bufferA : option Framebuffer;
    bufferB : option Framebuffer;
    _bufferDensity : option Q
  }.

Definition constructor : t := mk None false None None None.

Definition with_shader (s : option Shader) (loaded : bool) (c : t) : t :=
    mk s loaded (bufferA c) (bufferB c) (_bufferDensity c).
Definition with_bufferA (f : option Framebuffer) (c : t) : t :=
    mk (shader c) (shaderLoaded c) f (bufferB c) (_bufferDensity c).
Definition with_bufferB (f : option Framebuffer) (c : t) : t :=
    mk (shader c) (shaderLoaded c) (bufferA c) f (_bufferDensity c).
Definition with_bufferDensity (d : option Q) (c : t) : t :=
    mk (shader c) (shaderLoaded c) (bufferA c) (bufferB c) d.

  (** The two buffer objects.  [currentBuffer] and [nextBuffer] of
      [render] are references to them, so they are modelled as slots:
      swapping the variables swaps roles, the pixels stay where they
      were drawn. *)
Inductive Slot : Type := SlotA | SlotB.

Definition getBuffer (s : Slot) (c : t) : option Framebuffer :=
    match s with SlotA => bufferA c | SlotB => bufferB c end.
Definition setBuffer (s : Slot) (f : option Framebuffer) (c : t) : t :=
    match s with SlotA => with_bufferA f c | SlotB => with_bufferB f c end.

Definition _ensureShader (c : t) (p : Host) : option Shader * t * Host :=
    if negb (shaderLoaded c) then
      match createShader p with
      | (Ok s, p') => (Some s, with_shader (Some s) true c, p')
      | (Throw _, p') =>
          (shader c, with_shader (shader c) false c,
           log (Error "Failed to create compositor shader") p')
      end
    else (shader c, c, p).

  (** The returned object [{ a, b }] holds the references [bufferA] and
      [bufferB]; the caller reads them through [SlotA] and [SlotB]. *)
Definition _ensureBuffers (c : t) (p : Host) : Res unit * t * Host :=
    let currentDensity := h_pixelDensity p in
    let needsResize :=
      match bufferA c with
      | None => true
      | Some a =>
          negb (fb_width a =? h_width p)
          || negb (fb_height a =? h_height p)
          || negb (match _bufferDensity c with
                   | Some d => Qeq_bool d currentDensity
                   | None => false
                   end)
      end in
    if needsResize then
      let removed : Res Host :=
        match bufferA c, bufferB c with
        | None, _ => Ok p
        | Some _, Some _ => Ok (removeFramebuffer (removeFramebuffer p))
        | Some _, None => Throw (TypeError "this.bufferB is null")
        end in
      match removed with
      | Throw e => (Throw e, c, removeFramebuffer p)
      | Ok p1 =>
          let bufferOptions :=
            mkFramebufferOptions (h_width p) (h_height p) currentDensity false false in
          match createFramebuffer bufferOptions p1 with
          | (Throw e, p2) => (Throw e, c, p2)
          | (Ok a, p2) =>
              let c1 := with_bufferA (Some a) c in
              match createFramebuffer bufferOptions p2 with
              | (Throw e, p3) => (Throw e, c1, p3)
              | (Ok b, p3) =>
                  (Ok tt,
                   with_bufferDensity (Some currentDensity)
                     (with_bufferB (Some b) c1),
                   p3)
              end
          end
      end
    else (Ok tt, c, p).

  (** The uniforms [_renderLayer] sets for [layer] over [backgroundBuffer]. *)
Definition uniformsFor (layer : Layer.t) (lf backgroundBuffer : Framebuffer) (index : Z)
    : Frag.Uniforms :=
    Frag.mkUniforms
      (fb_pixels lf)
      (fb_pixels backgroundBuffer)
      (match Layer.mask layer with Some m => m | None => fb_pixels lf end)
      (match Layer.mask layer with Some _ => true | None => false end)
      (Layer.opacity layer)
      index.

  (** [_renderLayer] draws into whichever framebuffer is bound when it
      is called; the result is what it drew there, [None] when it
      returned before drawing. *)
Definition _renderLayer (layer : Layer.t) (backgroundBuffer : Framebuffer)
      (c : t) (p : Host) : option Texture * t * Host :=
    if negb (Layer.visible layer) || Qle_bool (Layer.opacity layer) 0 then (None, c, p)
    else
      match Layer.framebuffer layer with
      | None => (None, c, log (Warn "Layer has no framebuffer, skipping") p)
      | Some lf =>
          match _ensureShader c p with
          | (None, c1, p1) =>
              (None, c1, log (Warn "Compositor shader not available, skipping layer") p1)
          | (Some _, c1, p1) =>
              let '(index, ds) := getBlendModeIndex (Layer.blendMode layer) in
              let u := uniformsFor layer lf backgroundBuffer index in
              let p2 := logAll ds p1 in
              (Some (runShader p2 u),
               with_shader (Some (mkShader (Some u))) (shaderLoaded c1) c1,
               p2)
          end
      end.

  (** The body of the [for] loop of [render], from index [i] on, where
      [sorted] is [sortedLayers.slice(i)].  The result is the slot
      [currentBuffer] refers to after the loop. *)
Fixpoint renderLoop (sorted : list Layer.t) (currentBuffer nextBuffer : Slot)
      (c : t) (p : Host) : Res Slot * t * Host :=
    match sorted with
    | [] => (Ok currentBuffer, c, p)
    | layer :: rest =>
        if negb (Layer.visible layer) || Qle_bool (Layer.opacity layer) 0
        then renderLoop rest currentBuffer nextBuffer c p
        else
          match getBuffer nextBuffer c, getBuffer currentBuffer c with
          | None, _ => (Throw (TypeError "nextBuffer is null"), c, p)
          | Some _, None => (Throw (TypeError "currentBuffer is null"), c, p)
          | Some nb, Some cb =>
              (* nextBuffer.begin(); p.clear(); *)
              let nb1 := fb_setPixels clearTexture (fb_begin nb) in
              (* this._renderLayer(layer, currentBuffer); *)
              let '(drawn, c1, p1) := _renderLayer layer cb c p in
              let nb2 := match drawn with
                         | Some t => fb_setPixels t nb1
                         | None => nb1
                         end in
              (* nextBuffer.end(); *)
              let c2 := setBuffer nextBuffer (Some (fb_end nb2)) c1 in
              renderLoop rest nextBuffer currentBuffer c2 p1
          end
    end.

Definition render (layers : list Layer.t) (clearCallback : option (Canvas -> Canvas))
      (c : t) (p : Host) : Res unit * t * Host :=
    match _ensureBuffers c p with
    | (Throw e, c0, p0) => (Throw e, c0, p0)
    | (Ok _, c0, p0) =>
        let sortedLayers := sortByZIndex layers in
        match getBuffer SlotA c0 with
        | None => (Throw (TypeError "currentBuffer is null"), c0, p0)
        | Some a =>
            (* currentBuffer.begin(); p.clear(); currentBuffer.end(); *)
            let c1 :=
              setBuffer SlotA (Some (fb_end (fb_setPixels clearTexture (fb_begin a)))) c0 in
            match renderLoop sortedLayers SlotA SlotB c1 p0 with
            | (Throw e, c2, p2) => (Throw e, c2, p2)
            | (Ok currentBuffer, c2, p2) =>
                let cleared :=
                  match clearCallback with
                  | Some f => f (h_canvas p2)
                  | None => CanvasClear :: h_canvas p2
                  end in
                match getBuffer currentBuffer c2 with
                | None => (Throw (TypeError "currentBuffer is null"), c2, p2)
                | Some cur =>
                    (Ok tt, c2, h_setCanvas (CanvasImage (fb_pixels cur) :: cleared) p2)
                end
            end
        end
    end.

Definition dispose (c : t) (p : Host) : t * Host :=
    let p1 := match bufferA c with Some _ => removeFramebuffer p | None => p end in
    let p2 := match bufferB c with Some _ => removeFramebuffer p1 | None => p1 end in
    (mk None false None None None, p2).

End Compositor.

(* ------------------------------------------------------------------ *)
(** * The UI observer                                                  *)
(* ------------------------------------------------------------------ *)

(** [LayerUI] is a collaborator of the core; only the calls the core
    makes on it are recorded. *)
Module LayerUI.
Record t : Type := mk {
    thumbnailQueue : list Z;
    syncCount : nat;
    updateCount : nat
  }.
Definition constructor : t := mk [] 0%nat 0%nat.
Definition scheduleThumbnailUpdate (layerId : Z) (u : t) : t :=
    mk (layerId :: thumbnailQueue u) (syncCount u) (updateCount u).
Definition syncState (u : t) : t :=
    mk (thumbnailQueue u) (S (syncCount u)) (updateCount u).
Definition update (u : t) : t :=
    mk (thumbnailQueue u) (syncCount u) (S (updateCount u)).
End LayerUI.

(* ------------------------------------------------------------------ *)
(** * The [layers] map                                                 *)
(* ------------------------------------------------------------------ *)

(** [layers] is a [Map] from id to [Layer].  The only [set] is
    [this.layers.set(id, layer)] in [createLayer], with [layer.id = id],
    and [id] is never assigned again: an entry is represented by the
    layer alone, its key being [Layer.id].  The list is in insertion
    order, which is the order of [layers.values()]. *)
Fixpoint layers_get (k : Z) (ls : list Layer.t) : option Layer.t :=
  match ls with
  | [] => None
  | l :: t => if Layer.id l =? k then Some l else layers_get k t
  end.

Fixpoint layers_set (l : Layer.t) (ls : list Layer.t) : list Layer.t :=
  match ls with
  | [] => [l]
  | h :: t => if Layer.id h =? Layer.id l then l :: t else h :: layers_set l t
  end.

Definition layers_delete (k : Z) (ls : list Layer.t) : list Layer.t :=
  List.filter (fun l => negb (Layer.id l =? k)) ls.

(* ------------------------------------------------------------------ *)
(** * LayerSystem                                                      *)
(* ------------------------------------------------------------------ *)

Module LayerSystem.

Record t : Type := mk {
    layers : list Layer.t;
    layerNames : gmap string Z;
    layerIdCounter : Z;
    activeLayerId : option Z;
    compositor : Compositor.t;
    ui : option LayerUI.t;
    autoResize : bool;
    _lastCanvasWidth : Z;
    _lastCanvasHeight : Z;
    _lastPixelDensity : Q
  }.

Definition with_layers (v : list Layer.t) (s : t) : t :=
    mk v (layerNames s) (layerIdCounter s) (activeLayerId s) (compositor s)
      (ui s) (autoResize s) (_lastCanvasWidth s) (_lastCanvasHeight s)
      (_lastPixelDensity s).
Definition with_layerNames (v : gmap string Z) (s : t) : t :=
    mk (layers s) v (layerIdCounter s) (activeLayerId s) (compositor s)
      (ui s) (autoResize s) (_lastCanvasWidth s) (_lastCanvasHeight s)
      (_lastPixelDensity s).
Definition with_layerIdCounter (v : Z) (s : t) : t :=
    mk (layers s) (layerNames s) v (activeLayerId s) (compositor s)
      (ui s) (autoResize s) (_lastCanvasWidth s) (_lastCanvasHeight s)
      (_lastPixelDensity s).
Definition with_activeLayerId (v : option Z) (s : t) : t :=
    mk (layers s) (layerNames s) (layerIdCounter s) v (compositor s)
      (ui s) (autoResize s) (_lastCanvasWidth s) (_lastCanvasHeight s)
      (_lastPixelDensity s).
Definition with_compositor (v : Compositor.t) (s : t) : t :=
    mk (layers s) (layerNames s) (layerIdCounter s) (activeLayerId s) v
      (ui s) (autoResize s) (_lastCanvasWidth s) (_lastCanvasHeight s)
      (_lastPixelDensity s).
Definition with_ui (v : option LayerUI.t) (s : t) : t :=
    mk (layers s) (layerNames s) (layerIdCounter s) (activeLayerId s)
      (compositor s) v (autoResize s) (_lastCanvasWidth s)
      (_lastCanvasHeight s) (_lastPixelDensity s).
Definition with_autoResize (v : bool) (s : t) : t :=
    mk (layers s) (layerNames s) (layerIdCounter s) (activeLayerId s)
      (compositor s) (ui s) v (_lastCanvasWidth s) (_lastCanvasHeight s)
      (_lastPixelDensity s).
Definition with_lastCanvas (w h : Z) (d : Q) (s : t) : t :=
    mk (layers s) (layerNames s) (layerIdCounter s) (activeLayerId s)
      (compositor s) (ui s) (autoResize s) w h d.

  (** The system together with its render host [this.p]. *)
Record World : Type := mkWorld { host : Host; sys : t }.

Definition onHost (f : Host -> Host) (w : World) : World :=
    mkWorld (f (host w)) (sys w).
Definition onSys (f : t -> t) (w : World) : World :=
    mkWorld (host w) (f (sys w)).

Definition constructor (p : Host) : Res t :=
    if negb (h_webgl p)
    then Throw (JsError "LayerSystem requires WebGL mode")
    else Ok (mk [] ∅ 0 None Compositor.constructor None true
               (h_width p) (h_height p) (h_pixelDensity p)).

Definition _getLayerById (layerIdOrName : value) (s : t) : option Layer.t :=
    match layerIdOrName with
    | VNumber n => layers_get n (layers s)
    | VString nm =>
        match layerNames s !! nm with
        | Some id => layers_get id (layers s)
        | None => None
        end
    | _ => None
    end.

Definition getLayer := _getLayerById.

Definition getLayers (s : t) : list Layer.t := sortByZIndex (layers s).

Definition createLayer (name : string) (options : Layer.Options) (w : World)
    : Res Layer.t * World :=
    (* const id = this._generateId(); *)
    let id := layerIdCounter (sys w) in
    let s1 := with_layerIdCounter (id + 1) (sys w) in
    let layerName := Layer.nameOr name id in
    let zIndex := match Layer.o_zIndex options with
                  | Some z => z
                  | None => id
                  end in
    match Layer.constructor (host w) id layerName
            (Layer.o_setZIndex (Some zIndex) options) with
    | (Throw e, p1) => (Throw e, mkWorld p1 s1)
    | (Ok layer, p1) =>
        let s2 := with_layers (layers_set layer (layers s1)) s1 in
        let s3 := match layerName with
                  | EmptyString => s2
                  | _ => with_layerNames (<[layerName := id]> (layerNames s2)) s2
                  end in
        (Ok layer, mkWorld p1 s3)
    end.

Definition end_ (w : World) : World :=
    match activeLayerId (sys w) with
    | None => onHost (log (Warn "No active layer to end")) w
    | Some active =>
        let w1 :=
          match layers_get active (layers (sys w)) with
          | Some layer =>
              let '(layer', p1) := Layer.end_ layer (host w) in
              let s1 := with_layers (layers_set layer' (layers (sys w))) (sys w) in
              let s2 := match ui s1 with
                        | Some u =>
                            with_ui (Some (LayerUI.scheduleThumbnailUpdate
                                             (Layer.id layer') u)) s1
                        | None => s1
                        end in
              mkWorld p1 s2
          | None => w
          end in
        onSys (with_activeLayerId None) w1
    end.

Definition begin (layerIdOrName : value) (w : World) : World :=
    let w1 :=
      match activeLayerId (sys w) with
      | Some _ => end_ (onHost (log (Warn "Layer is already active. Ending it first.")) w)
      | None => w
      end in
    match _getLayerById layerIdOrName (sys w1) with
    | None => onHost (log (Error "Layer not found")) w1
    | Some layer =>
        let '(layer', p1) := Layer.begin layer (host w1) in
        mkWorld p1
          (with_activeLayerId (Some (Layer.id layer'))
             (with_layers (layers_set layer' (layers (sys w1))) (sys w1)))
    end.

Definition removeLayer (layerIdOrName : value) (w : World) : World :=
    match _getLayerById layerIdOrName (sys w) with
    | None => onHost (log (Warn "Layer not found")) w
    | Some layer =>
        let w1 := if bool_decide (activeLayerId (sys w) = Some (Layer.id layer))
                  then end_ w else w in
        let s2 := match Layer.name layer with
                  | EmptyString => sys w1
                  | nm => with_layerNames (delete nm (layerNames (sys w1))) (sys w1)
                  end in
        (* [layer] is the object in the map; [end()] may have changed it *)
        let p2 := match layers_get (Layer.id layer) (layers s2) with
                  | Some layer' => snd (Layer.dispose layer' (host w1))
                  | None => snd (Layer.dispose layer (host w1))
                  end in
        mkWorld p2 (with_layers (layers_delete (Layer.id layer) (layers s2)) s2)
    end.

  (** The passthroughs: resolve, then delegate to the layer. *)
Definition delegate (f : Layer.t -> Layer.t * list Diagnostic)
      (layerIdOrName : value) (w : World) : option Layer.t * World :=
    match _getLayerById layerIdOrName (sys w) with
    | None => (None, onHost (log (Warn "Layer not found")) w)
    | Some layer =>
        let '(layer', ds) := f layer in
        (Some layer',
         mkWorld (logAll ds (host w))
           (with_layers (layers_set layer' (layers (sys w))) (sys w)))
    end.

Definition quiet (f : Layer.t -> Layer.t) (l : Layer.t) : Layer.t * list Diagnostic :=
    (f l, []).

Definition show := delegate (quiet Layer.show).
Definition hide := delegate (quiet Layer.hide).
Definition setOpacity (r : value) (opacity : Q) :=
    delegate (quiet (Layer.setOpacity opacity)) r.
Definition setBlendMode (r : value) (blendMode : value) :=
    delegate (Layer.setBlendMode blendMode) r.
Definition setLayerIndex (r : value) (zIndex : Z) :=
    delegate (quiet (Layer.setZIndex zIndex)) r.
Definition moveLayer (r : value) (delta : Z) :=
    delegate (quiet (fun l => Layer.setZIndex (Layer.zIndex l + delta) l)) r.
Definition setMask (r : value) (maskSource : option Texture) :=
    delegate (Layer.setMask maskSource) r.
Definition clearMask := delegate (quiet Layer.clearMask).

  (** [orderedLayers] is given by the ids of its [Layer] objects; an
      object that is not in [layers] is outside the system state. *)
Fixpoint reorderFrom (index : Z) (orderedLayers : list Z) (ls : list Layer.t)
    : list Layer.t :=
    match orderedLayers with
    | [] => ls
    | k :: rest =>
        let ls1 := match layers_get k ls with
                   | Some l => layers_set (Layer.setZIndex index l) ls
                   | None => ls
                   end in
        reorderFrom (index + 1) rest ls1
    end.

Definition reorderLayers (orderedLayers : list Z) (w : World) : World :=
    onSys (fun s => with_layers (reorderFrom 0 orderedLayers (layers s)) s) w.

  (** The [for] loop of [_checkResize] over [layers.values()]. *)
Fixpoint resizeSynced (width height : Z) (density : Q) (ls : list Layer.t) (p : Host)
    : list Layer.t * Host :=
    match ls with
    | [] => ([], p)
    | layer :: rest =>
        let '(layer', p1) :=
          if negb (Layer.customSize layer)
          then Layer.resize width height (Some density) layer p
          else (layer, p) in
        let '(rest', p2) := resizeSynced width height density rest p1 in
        (layer' :: rest', p2)
    end.

Definition _checkResize (w : World) : World :=
    let currentWidth := h_width (host w) in
    let currentHeight := h_height (host w) in
    let currentDensity := h_pixelDensity (host w) in
    let sizeChanged :=
      negb (currentWidth =? _lastCanvasWidth (sys w))
      || negb (currentHeight =? _lastCanvasHeight (sys w)) in
    let densityChanged :=
      negb (Qeq_bool currentDensity (_lastPixelDensity (sys w))) in
    if negb sizeChanged && negb densityChanged then w
    else
      let s1 := with_lastCanvas currentWidth currentHeight currentDensity (sys w) in
      let '(ls, p1) :=
        resizeSynced currentWidth currentHeight currentDensity (layers s1) (host w) in
      mkWorld p1 (with_layers ls s1).

Definition render (clearCallback : option (Canvas -> Canvas)) (w : World)
    : Res unit * World :=
    let w1 := if autoResize (sys w) then _checkResize w else w in
    let layers := getLayers (sys w1) in
    match Compositor.render layers clearCallback (compositor (sys w1)) (host w1) with
    | (Throw e, c, p) => (Throw e, mkWorld p (with_compositor c (sys w1)))
    | (Ok _, c, p) =>
        let s2 := with_compositor c (sys w1) in
        (Ok tt,
         mkWorld p
           (match ui s2 with
            | Some u => with_ui (Some (LayerUI.syncState u)) s2
            | None => s2
            end))
    end.

Definition setAutoResize (enabled : bool) (w : World) : World :=
    onSys (with_autoResize enabled) w.

Definition createUI (w : World) : World :=
    onSys (with_ui (Some (LayerUI.update LayerUI.constructor))) w.

Definition updateUI (w : World) : World :=
    onSys (fun s => match ui s with
                    | Some u => with_ui (Some (LayerUI.update u)) s
                    | None => s
                    end) w.

  (** The loop [for (const layer of this.layers.values()) layer.dispose()]. *)
Fixpoint disposeAll (ls : list Layer.t) (p : Host) : list Layer.t * Host :=
    match ls with
    | [] => ([], p)
    | layer :: rest =>
        let '(layer', p1) := Layer.dispose layer p in
        let '(rest', p2) := disposeAll rest p1 in
        (layer' :: rest', p2)
    end.

Definition dispose (w : World) : World :=
    let w1 := match activeLayerId (sys w) with
              | Some _ => end_ w
              | None => w
              end in
    let w2 := onSys (with_ui None) w1 in
    let '(_, p3) := disposeAll (layers (sys w2)) (host w2) in
    let s3 := with_layers [] (sys w2) in
    let '(c, p4) := Compositor.dispose (compositor s3) p3 in
    mkWorld p4 (with_compositor c s3).

End LayerSystem.

(* ------------------------------------------------------------------ *)
(** * Reachable states                                                 *)
(* ------------------------------------------------------------------ *)

(** What can happen to a system between two observations: a call of
    the public API of [LayerSystem], or an event of the host (the
    surface is resized, allocations start or stop failing, the sketch
    draws while a layer is bound). *)
Inductive Op : Type :=
  | OpCreateLayer (name : string) (options : Layer.Options)
  | OpRemoveLayer (r : value)
  | OpBegin (r : value)
  | OpEnd
  | OpShow (r : value)
  | OpHide (r : value)
  | OpSetOpacity (r : value) (opacity : Q)
  | OpSetBlendMode (r : value) (blendMode : value)
  | OpSetLayerIndex (r : value) (zIndex : Z)
  | OpMoveLayer (r : value) (delta : Z)
  | OpReorderLayers (orderedLayers : list Z)
  | OpSetMask (r : value) (maskSource : option Texture)
  | OpClearMask (r : value)
  | OpRender (clearCallback : option (Canvas -> Canvas))
  | OpSetAutoResize (enabled : bool)
  | OpCreateUI
  | OpUpdateUI
  | OpDispose
  | HostResize (width height : Z) (density : Q)
  | HostFaults (framebufferFaults shaderFaults : list bool)
  | UserDraw (t : Texture).

(** Drawing commands of the sketch land in the framebuffer that is
    bound, else on the main surface. *)
Definition userDraw (t : Texture) (w : LayerSystem.World) : LayerSystem.World :=
  if existsb Layer.bound (LayerSystem.layers (LayerSystem.sys w)) then
    LayerSystem.onSys
      (fun s =>
         LayerSystem.with_layers
           (map (fun l =>
                   match Layer.framebuffer l with
                   | Some f =>
                       if fb_bound f
                       then Layer.with_framebuffer (Some (fb_setPixels t f)) l
                       else l
                   | None => l
                   end)
              (LayerSystem.layers s)) s) w
  else
    LayerSystem.onHost (fun p => h_setCanvas (CanvasImage t :: h_canvas p) p) w.

Definition step (op : Op) (w : LayerSystem.World) : LayerSystem.World :=
  match op with
  | OpCreateLayer name options => snd (LayerSystem.createLayer name options w)
  | OpRemoveLayer r => LayerSystem.removeLayer r w
  | OpBegin r => LayerSystem.begin r w
  | OpEnd => LayerSystem.end_ w
  | OpShow r => snd (LayerSystem.show r w)
  | OpHide r => snd (LayerSystem.hide r w)
  | OpSetOpacity r o => snd (LayerSystem.setOpacity r o w)
  | OpSetBlendMode r m => snd (LayerSystem.setBlendMode r m w)
  | OpSetLayerIndex r z => snd (LayerSystem.setLayerIndex r z w)
  | OpMoveLayer r d => snd (LayerSystem.moveLayer r d w)
  | OpReorderLayers ids => LayerSystem.reorderLayers ids w
  | OpSetMask r m => snd (LayerSystem.setMask r m w)
  | OpClearMask r => snd (LayerSystem.clearMask r w)
  | OpRender cb => snd (LayerSystem.render cb w)
  | OpSetAutoResize b => LayerSystem.setAutoResize b w
  | OpCreateUI => LayerSystem.createUI w
  | OpUpdateUI => LayerSystem.updateUI w
  | OpDispose => LayerSystem.dispose w
  | HostResize width height density =>
      LayerSystem.onHost (h_setSize width height density) w
  | HostFaults fs ss =>
      LayerSystem.onHost (fun p => h_setShaderFaults ss (h_setFramebufferFaults fs p)) w
  | UserDraw t => userDraw t w
  end.

Definition run (ops : list Op) (w : LayerSystem.World) : LayerSystem.World :=
  fold_left (fun w op => step op w) ops w.

Inductive reachable : LayerSystem.World -> Prop :=
  | reachable_new (p : Host) (s : LayerSystem.t) :
      LayerSystem.constructor p = Ok s ->
      reachable (LayerSystem.mkWorld p s)
  | reachable_step (op : Op) (w : LayerSystem.World) :
      reachable w -> reachable (step op w).



(* ------------------------------------------------------------------ *)
(** * The blend contract of section 4.2, as the specification words it *)
(* ------------------------------------------------------------------ *)

Module BlendSpec.
Section Contract.
Variable sqrt : Q -> Q.
Local Open Scope Q_scope.

  (** GLSL [mix(x, y, a)] *)
Definition mix (x y a : Q) : Q := x * (1 - a) + y * a.

Definition overlay (B L : Q) : Q :=
    if Qlt_le_dec B (1#2) then 2 * B * L else 1 - 2 * (1 - B) * (1 - L).

  (** The table of blend functions, per channel. *)
Definition applyBlendFunction (opcode : Z) (B L : Q) : Q :=
    match opcode with
    | 0%Z => L
    | 1%Z => B * L
    | 2%Z => 1 - (1 - B) * (1 - L)
    | 3%Z => Qmin (B + L) 1
    | 4%Z => Qmax (B + L - 1) 0
    | 5%Z => overlay B L
    | 6%Z => if Qlt_le_dec L (1#2)
             then 2 * B * L + B * B * (1 - 2 * L)
             else sqrt B * (2 * L - 1) + 2 * B * (1 - L)
    | 7%Z => overlay L B
    | 8%Z => if Qeq_dec L 1 then L else Qmin (B / (1 - L)) 1
    | 9%Z => if Qeq_dec L 0 then L else Qmax (1 - (1 - B) / L) 0
    | 10%Z => Qmin B L
    | 11%Z => Qmax B L
    | 12%Z => Qabs (B - L)
    | 13%Z => B + L - 2 * B * L
    | _ => L
    end.

  (** [alpha_eff = L.alpha * layerOpacity * (mask ? maskRedChannel : 1)] *)
Definition alphaEff (L : vec4) (layerOpacity : Q) (mask : option vec4) : Q :=
    c_a L * layerOpacity * match mask with Some m => c_r m | None => 1 end.

Definition blended (opcode : Z) (B L : vec4) (a : Q) : vec3 :=
    mkVec3
      (mix (applyBlendFunction opcode (c_r B) (c_r L)) (c_r B) (1 - a))
      (mix (applyBlendFunction opcode (c_g B) (c_g L)) (c_g B) (1 - a))
      (mix (applyBlendFunction opcode (c_b B) (c_b L)) (c_b B) (1 - a)).

  (** The contract as the specification states it: alpha is forced to
      opaque in both branches. *)
Definition blendPixel_claimed (opcode : Z) (B L : vec4) (layerOpacity : Q)
      (mask : option vec4) : vec4 :=
    let a := alphaEff L layerOpacity mask in
    if Qlt_le_dec 0 a then vec4_of (blended opcode B L a) 1
    else vec4_of (rgb B) 1.

  (** The contract with the first branch amended: the base colour is
      passed through with its own alpha. *)
Definition blendPixel (opcode : Z) (B L : vec4) (layerOpacity : Q)
      (mask : option vec4) : vec4 :=
    let a := alphaEff L layerOpacity mask in
    if Qlt_le_dec 0 a then vec4_of (blended opcode B L a) 1
    else B.

End Contract.
End BlendSpec.

(** The mask sample the program multiplies by, if any. *)
Definition maskSample (u : Frag.Uniforms) (uv : UV) : option vec4 :=
  if Frag.hasMask u then Some (Frag.maskTexture u uv) else None.


(* ------------------------------------------------------------------ *)
(** * Concrete hosts and systems used in the examples                  *)
(* ------------------------------------------------------------------ *)

(** A square root for the example hosts: the root of a non-negative
    rational, rounded down to sixteen fractional bits. *)
Definition demoSqrt (x : Q) : Q :=
  Z.sqrt (Qnum x * Z.pos (Qden x) * 2 ^ 32) # (Qden x * 2 ^ 16).

(** A WebGL host with a surface of 800 by 600 in which nothing fails. *)
Definition demoHost : Host :=
  mkHost 800 600 1%Q true demoSqrt [] [] 0 [] [].

(** The system [createLayerSystem()] returns on [demoHost]. *)
Definition demoSystem : LayerSystem.t :=
  LayerSystem.mk [] ∅ 0 None Compositor.constructor None true 800 600 1%Q.

Definition demoWorld : LayerSystem.World := LayerSystem.mkWorld demoHost demoSystem.

(** A texture of one colour. *)
Definition solid (r g b a : Q) : Texture := fun _ => mkVec4 r g b a.

(** The layer [createLayer(name)] builds on [demoHost] when the id
    counter is at [id]. *)
Definition demoLayer (name : string) (id : Z) : Layer.t :=
  Layer.mk id name true 1%Q (VString BlendModes.NORMAL) id 800 600 1%Q
    false false false None false
    (Some (mkFramebuffer 800 600 1%Q false false clearTexture false)).

Definition skyLayer : Z -> Layer.t := demoLayer "sky".

(** The example system with two layers, "a" and "b". *)
Definition twoLayers : LayerSystem.World :=
  run [OpCreateLayer "a" Layer.noOptions; OpCreateLayer "b" Layer.noOptions] demoWorld.

(** Options that give only a width. *)
Definition widthOnly (width : Z) : Layer.Options :=
  Layer.mkOptions None None None (Some width) None None None None None.

(** The example system after [createLayer("a")],
    [createLayer("b", { width: 100 })] and a change of the host surface
    to 1024 by 768 at pixel density 2. *)
Definition resizedWorld : LayerSystem.World :=
  run [OpCreateLayer "a" Layer.noOptions;
       OpCreateLayer "b" (widthOnly 100);
       HostResize 1024 768 2%Q] demoWorld.

(** A layer of the surface size that has been drawn to. *)
Definition paintedLayer (name : string) (id : Z) (opacity : Q) (mode : string)
    (content : Texture) : Layer.t :=
  Layer.mk id name true opacity (VString mode) id 800 600 1%Q
    false false false None true
    (Some (mkFramebuffer 800 600 1%Q false false content false)).

(** The end-to-end scenario of the specification, listed out of order:
    red at zIndex 0 (NORMAL), white at zIndex 1 with opacity 0.5
    (MULTIPLY), blue at zIndex 2 (SCREEN). *)
Definition scenario : list Layer.t :=
  [ paintedLayer "blue" 2 1%Q BlendModes.SCREEN (solid 0 0 1 1);
    paintedLayer "red" 0 1%Q BlendModes.NORMAL (solid 1 0 0 1);
    paintedLayer "white" 1 (1#2)%Q BlendModes.MULTIPLY (solid 1 1 1 1) ].

(** One layer, then the host starts refusing framebuffers. *)
Definition starvedWorld : LayerSystem.World :=
  run [OpCreateLayer "a" Layer.noOptions; HostFaults [true] []] demoWorld.

(** Layers "a" and "b"; the surface is resized and the new buffer of
    "b" cannot be allocated during the next frame; then "a" is painted
    red. *)
Definition lostBufferWorld : LayerSystem.World :=
  run [OpCreateLayer "a" Layer.noOptions;
       OpCreateLayer "b" Layer.noOptions;
       HostResize 1024 768 1%Q;
       HostFaults [false; true] [];
       OpRender None;
       OpBegin (VString "a");
       UserDraw (solid 1 0 0 1);
       OpEnd] demoWorld.

(** The texture last blitted to the main surface. *)
Definition lastImage (p : Host) : Texture :=
  match h_canvas p with
  | CanvasImage t :: _ => t
  | _ => clearTexture
  end.

(** Uniforms of a first pass: a cleared accumulator under a layer
    texel that is fully transparent. *)
Definition transparentPass : Frag.Uniforms :=
  Frag.mkUniforms (solid 1 0 0 0) clearTexture clearTexture false 1%Q 0.

(** The world after [createLayer("a")] and [begin("a")] on the example
    host. *)
Definition drawingWorld : LayerSystem.World :=
  run [OpCreateLayer "a" Layer.noOptions; OpBegin (VString "a")] demoWorld.




(** A session without failures: two layers, a resize, a frame, a
    drawing pass, a removal. *)
Definition session : list Op :=
  [OpCreateLayer "a" Layer.noOptions;
   OpCreateLayer "b" Layer.noOptions;
   HostResize 1024 768 1%Q;
   OpRender None;
   OpBegin (VString "a");
   UserDraw (solid 1 0 0 1);
   OpEnd;
   OpRender None;
   OpRemoveLayer (VString "a")].

(** The two-argument overload that [applyBlendMode] hands to the
    opacity mix for a given opcode. *)
Section BlendOf.
Variable sqrt : Q -> Q.
Definition blendOf (mode : Z) : vec3 -> vec3 -> vec3 :=
    if (mode =? 0)%Z then Frag.blendNormal else
    if (mode =? 1)%Z then Frag.blendMultiply else
    if (mode =? 2)%Z then Frag.blendScreen else
    if (mode =? 3)%Z then Frag.blendAdd else
    if (mode =? 4)%Z then Frag.blendSubtract else
    if (mode =? 5)%Z then Frag.blendOverlay_0 else
    if (mode =? 6)%Z then Frag.blendSoftLight sqrt else
    if (mode =? 7)%Z then Frag.blendHardLight else
    if (mode =? 8)%Z then Frag.blendColorDodge else
    if (mode =? 9)%Z then Frag.blendColorBurn else
    if (mode =? 10)%Z then Frag.blendDarken else
    if (mode =? 11)%Z then Frag.blendLighten else
    if (mode =? 12)%Z then Frag.blendDifference else
    if (mode =? 13)%Z then Frag.blendExclusion else
    Frag.blendNormal.

End BlendOf.

(* ------------------------------------------------------------------ *)
(** * Resize propagation, as the specification words it                *)
(* ------------------------------------------------------------------ *)


(** [l'] is [l] resized to the given dimensions and density: these
    three fields are the new values, the layer is canvas-synced, its
    buffer is a new one of that size (or none, when the allocation
    failed), and every other field is as before. *)
Definition resizedTo (width height : Z) (density : Q) (l l' : Layer.t) : Prop :=
  l' = Layer.with_framebuffer (Layer.framebuffer l')
         (Layer.with_size width height density false l)
  /\ (Layer.framebuffer l' = None
      \/ Layer.framebuffer l'
           = Some (mkFramebuffer width height density (Layer.depth l)
                     (Layer.antialias l) clearTexture false)).

Definition lastObserved (s : LayerSystem.t) : Z * Z * Q :=
  (LayerSystem._lastCanvasWidth s, LayerSystem._lastCanvasHeight s,
   LayerSystem._lastPixelDensity s).

(* ------------------------------------------------------------------ *)
(** * The invariant of the layer store                                 *)
(* ------------------------------------------------------------------ *)

(** Ids are keys of a [Map], hence distinct, and a layer whose buffer
    is between [begin()] and [end()] is the recorded active layer. *)
Definition Inv (ls : list Layer.t) (active : option Z) : Prop :=
  List.NoDup (map Layer.id ls)
  /\ forall l, In l ls -> Layer.bound l = true -> active = Some (Layer.id l).

Definition wellFormed (w : LayerSystem.World) : Prop :=
  Inv (LayerSystem.layers (LayerSystem.sys w))
      (LayerSystem.activeLayerId (LayerSystem.sys w)).

(** [l'] is a later state of the layer object [l]: the same id, still
    drawn to if it was, with a buffer exactly if it had one. *)
Definition evolves (l l' : Layer.t) : Prop :=
  Layer.id l' = Layer.id l
  /\ (Layer.hasBeenDrawnTo l = true -> Layer.hasBeenDrawnTo l' = true)
  /\ (Layer.framebuffer l = None <-> Layer.framebuffer l' = None).



(* ------------------------------------------------------------------ *)
(** * The composite, as the specification words it                     *)
(* ------------------------------------------------------------------ *)

(** [visible = true] and [opacity > 0] *)
Definition contributes (l : Layer.t) : bool :=
  Layer.visible l && Qlt_bool 0 (Layer.opacity l).

(** One blend pass: the fragment program run on every fragment, with
    the layer's content as layer texture and the accumulator as
    background. *)
Definition blendPass (sqrt : Q -> Q) (layer : Layer.t) (content acc : Texture)
  : Texture :=
  Frag.main sqrt
    (Frag.mkUniforms content acc
       (match Layer.mask layer with Some m => m | None => content end)
       (match Layer.mask layer with Some _ => true | None => false end)
       (Layer.opacity layer)
       (fst (getBlendModeIndex (Layer.blendMode layer)))).

(** A contributing layer is composited onto the accumulator, any other
    leaves it as it is. *)
Definition compositeStep (sqrt : Q -> Q) (acc : Texture) (l : Layer.t) : Texture :=
  if contributes l then
    match Layer.framebuffer l with
    | Some lf => blendPass sqrt l (fb_pixels lf) acc
    | None => acc
    end
  else acc.

(** The left fold over the layers in ascending zIndex, from a cleared
    accumulator. *)
Definition composite (sqrt : Q -> Q) (layers : list Layer.t) : Texture :=
  fold_left (compositeStep sqrt) (sortByZIndex layers) clearTexture.

(** The ping-pong buffers are there for this frame: [_ensureBuffers]
    returns and both buffers exist. *)
Definition buffersReady (c : Compositor.t) (p : Host) : bool :=
  match Compositor._ensureBuffers c p with
  | (Ok _, c0, _) =>
      match Compositor.bufferA c0, Compositor.bufferB c0 with
      | Some _, Some _ => true
      | _, _ => false
      end
  | (Throw _, _, _) => false
  end.




(** The buffer [currentBuffer] refers to after as many swaps as there
    are contributing layers. *)
Definition finalSlot (sorted : list Layer.t) : Compositor.Slot :=
  if Nat.even (length (List.filter contributes sorted))
  then Compositor.SlotA else Compositor.SlotB.

(** The order of the sort. *)
Definition zLe (l l' : Layer.t) : Prop := Layer.zIndex l <= Layer.zIndex l'.



(** A passthrough changes neither the id nor the buffer of the layer. *)
Definition keepsBuffer (f : Layer.t -> Layer.t * list Diagnostic) : Prop :=
  forall l, Layer.id (fst (f l)) = Layer.id l
            /\ Layer.bound (fst (f l)) = Layer.bound l.


Definition isCreateLayer (op : Op) : bool :=
  match op with
  | OpCreateLayer _ _ => true
  | _ => false
  end.

Definition isRemoveLayer (op : Op) : bool :=
  match op with
  | OpRemoveLayer _ => true
  | _ => false
  end.

(** The registry of a system: the name map and the id counter. *)
Definition registry (s : LayerSystem.t) : gmap string Z * Z :=
  (LayerSystem.layerNames s, LayerSystem.layerIdCounter s).

(** Ids handed out are below the counter, and a name entry points
    below the counter and only at layers carrying that name. *)
Definition registryOk (s : LayerSystem.t) : Prop :=
  (forall l, In l (LayerSystem.layers s) -> Layer.id l < LayerSystem.layerIdCounter s)
  /\ (forall n k, LayerSystem.layerNames s !! n = Some k ->
        k < LayerSystem.layerIdCounter s
        /\ forall l, In l (LayerSystem.layers s) -> Layer.id l = k -> Layer.name l = n).

(** [l'] is the layer object [l] at a later time: id and name are never
    reassigned. *)
Definition sameIdentity (l l' : Layer.t) : Prop :=
  Layer.id l' = Layer.id l /\ Layer.name l' = Layer.name l.

(** Strictly ascending zIndex. *)
Definition zLt (l l' : Layer.t) : Prop := Layer.zIndex l < Layer.zIndex l'.

(** The stored layers with the given ids, in the order of the ids. *)
Definition layersOf (ls : list Layer.t) (ids : list Z) : list Layer.t :=
  flat_map (fun k => match layers_get k ls with
                     | Some l => [l]
                     | None => []
                     end) ids.

(** The resolve-then-delegate methods of [LayerSystem]. *)
Inductive Passthrough : Type :=
  | PShow
  | PHide
  | PSetOpacity (opacity : Q)
  | PSetBlendMode (blendMode : value)
  | PSetLayerIndex (zIndex : Z)
  | PMoveLayer (delta : Z)
  | PSetMask (maskSource : option Texture)
  | PClearMask.

Definition passthrough (pt : Passthrough) (r : value) (w : LayerSystem.World)
  : option Layer.t * LayerSystem.World :=
  match pt with
  | PShow => LayerSystem.show r w
  | PHide => LayerSystem.hide r w
  | PSetOpacity o => LayerSystem.setOpacity r o w
  | PSetBlendMode m => LayerSystem.setBlendMode r m w
  | PSetLayerIndex z => LayerSystem.setLayerIndex r z w
  | PMoveLayer d => LayerSystem.moveLayer r d w
  | PSetMask m => LayerSystem.setMask r m w
  | PClearMask => LayerSystem.clearMask r w
  end.

(** The [Layer] method each of them delegates to, with what it writes
    to the console. *)
Definition layerMethod (pt : Passthrough) (l : Layer.t) : Layer.t * list Diagnostic :=
  match pt with
  | PShow => (Layer.show l, [])
  | PHide => (Layer.hide l, [])
  | PSetOpacity o => (Layer.setOpacity o l, [])
  | PSetBlendMode m => Layer.setBlendMode m l
  | PSetLayerIndex z => (Layer.setZIndex z l, [])
  | PMoveLayer d => (Layer.setZIndex (Layer.zIndex l + d) l, [])
  | PSetMask m => Layer.setMask m l
  | PClearMask => (Layer.clearMask l, [])
  end.

(** The layer has its framebuffer. *)
Definition hasBuffer (l : Layer.t) : bool :=
  match Layer.framebuffer l with
  | Some _ => true
  | None => false
  end.

(** The number of framebuffers a system holds: one per layer that has
    its buffer, and the ping-pong buffers of the compositor. *)
Definition heldByLayers (ls : list Layer.t) : Z :=
  Z.of_nat (length (List.filter hasBuffer ls)).

Definition heldByCompositor (c : Compositor.t) : Z :=
  (match Compositor.bufferA c with Some _ => 1 | None => 0 end)
  + (match Compositor.bufferB c with Some _ => 1 | None => 0 end).

Definition owned (w : LayerSystem.World) : Z :=
  heldByLayers (LayerSystem.layers (LayerSystem.sys w))
  + heldByCompositor (LayerSystem.compositor (LayerSystem.sys w)).

(** No allocation is scripted to fail. *)
Definition calm (p : Host) : bool := forallb negb (h_framebufferFaults p).


Definition present {A : Type} (o : option A) : bool :=
  match o with
  | Some _ => true
  | None => false
  end.

(** Which of the ping-pong buffers exist. *)
Definition slots (c : Compositor.t) : bool * bool :=
  (present (Compositor.bufferA c), present (Compositor.bufferB c)).

(** Live framebuffers of the host that the system does not hold. *)
Definition balance (w : LayerSystem.World) : Z :=
  h_live (LayerSystem.host w) - owned w.

(** The ping-pong buffers are allocated and released together. *)
Definition paired (c : Compositor.t) : Prop :=
  Compositor.bufferA c = None <-> Compositor.bufferB c = None.

(** A channel value the surface can display. *)
Definition unit01 (x : Q) : Prop := (0 <= x <= 1)%Q.

Definition vec3_unit (v : vec3) : Prop :=
  unit01 (v_r v) /\ unit01 (v_g v) /\ unit01 (v_b v).

Definition inGamut (c : vec4) : Prop :=
  unit01 (c_r c) /\ unit01 (c_g c) /\ unit01 (c_b c) /\ unit01 (c_a c).

(** The GPU's [sqrt] maps the unit interval into itself. *)
Definition unitSqrt (sqrt : Q -> Q) : Prop :=
  forall x, unit01 x -> unit01 (sqrt x).


(** The operations that draw on the main surface. *)
Definition drawsOnSurface (op : Op) : bool :=
  match op with
  | OpRender _ => true
  | UserDraw _ => true
  | _ => false
  end.

(** Size and density of the surface. *)
Definition geometry (p : Host) : Z * Z * Q :=
  (h_width p, h_height p, h_pixelDensity p).

(** No ping-pong buffer is between [begin()] and [end()]. *)
Definition unboundBuffers (c : Compositor.t) : Prop :=
  forall s f, Compositor.getBuffer s c = Some f -> fb_bound f = false.

(* ------------------------------------------------------------------ *)
(** * Thumbnail bounds                                                 *)
(* ------------------------------------------------------------------ *)

(** The helpers the layer panel uses to crop a thumbnail to the drawn
    part of a layer.  A bounds object is [{x, y, width, height}]; the
    functions pass [null] through, here [None]. *)
Module Bounds.
Record t : Type := mk { x : Q; y : Q; width : Q; height : Q }.

Definition right (b : t) : Q := (x b + width b)%Q.
Definition bottom (b : t) : Q := (y b + height b)%Q.

  (** The same rectangle, as rationals. *)
Definition equiv (b b' : t) : Prop :=
    (x b == x b' /\ y b == y b' /\ width b == width b' /\ height b == height b')%Q.

  (** [b] lies inside the surface [0, maxWidth] x [0, maxHeight]. *)
Definition within (maxWidth maxHeight : Q) (b : t) : Prop :=
    (0 <= x b /\ 0 <= y b /\ 0 <= width b /\ 0 <= height b
     /\ right b <= maxWidth /\ bottom b <= maxHeight)%Q.

  (** [outer] covers [inner]. *)
Definition covers (outer inner : t) : Prop :=
    (x outer <= x inner /\ y outer <= y inner
     /\ right inner <= right outer /\ bottom inner <= bottom outer)%Q.
End Bounds.

Definition clampBounds (bounds : option Bounds.t) (maxWidth maxHeight : Q)
  : option Bounds.t :=
  match bounds with
  | None => None
  | Some b =>
      let x := Qmax 0 (Qmin (Bounds.x b) maxWidth) in
      let y := Qmax 0 (Qmin (Bounds.y b) maxHeight) in
      let width := Qmax 0 (Qmin (Bounds.width b) (maxWidth - x)) in
      let height := Qmax 0 (Qmin (Bounds.height b) (maxHeight - y)) in
      Some (Bounds.mk x y width height)
  end.

Definition padBounds (bounds : option Bounds.t) (padding maxWidth maxHeight : Q)
  : option Bounds.t :=
  match bounds with
  | None => None
  | Some b =>
      let padded :=
        Bounds.mk (Bounds.x b - padding) (Bounds.y b - padding)
          (Bounds.width b + padding * 2) (Bounds.height b + padding * 2) in
      clampBounds (Some padded) maxWidth maxHeight
  end.

(** The four running extremes of [mergeBounds].  They start at plus
    and minus infinity, which every number of a first entry replaces:
    the state before the first non-null entry is [None]. *)
Record Extremes : Type := mkExtremes { e_minX : Q; e_minY : Q; e_maxX : Q; e_maxY : Q }.

Definition mergeStep (acc : option Extremes) (bounds : option Bounds.t)
  : option Extremes :=
  match bounds with
  | None => acc
  | Some b =>
      match acc with
      | None =>
          Some (mkExtremes (Bounds.x b) (Bounds.y b) (Bounds.right b) (Bounds.bottom b))
      | Some e =>
          Some (mkExtremes
                  (if Qlt_bool (Bounds.x b) (e_minX e) then Bounds.x b else e_minX e)
                  (if Qlt_bool (Bounds.y b) (e_minY e) then Bounds.y b else e_minY e)
                  (if Qlt_bool (e_maxX e) (Bounds.right b) then Bounds.right b
                   else e_maxX e)
                  (if Qlt_bool (e_maxY e) (Bounds.bottom b) then Bounds.bottom b
                   else e_maxY e))
      end
  end.

Definition mergeBounds (boundsList : list (option Bounds.t)) : option Bounds.t :=
  match boundsList with
  | [] => None
  | _ =>
      match fold_left mergeStep boundsList None with
      | None => None
      | Some e =>
          Some (Bounds.mk (e_minX e) (e_minY e)
                  (Qmax 0 (e_maxX e - e_minX e)) (Qmax 0 (e_maxY e - e_minY e)))
      end
  end.

(** [e] holds the extremes of the entries of [seen]: it bounds every
    entry, and each of the four is the edge of some entry. *)
Definition hullOf (seen : list (option Bounds.t)) (e : Extremes) : Prop :=
  (forall b, In (Some b) seen ->
     (e_minX e <= Bounds.x b /\ e_minY e <= Bounds.y b
      /\ Bounds.right b <= e_maxX e /\ Bounds.bottom b <= e_maxY e)%Q)
  /\ (exists b, In (Some b) seen /\ e_minX e = Bounds.x b)
  /\ (exists b, In (Some b) seen /\ e_minY e = Bounds.y b)
  /\ (exists b, In (Some b) seen /\ e_maxX e = Bounds.right b)
  /\ (exists b, In (Some b) seen /\ e_maxY e = Bounds.bottom b).

(** ** computeAlphaBounds *)

(** The options object; [None] is an absent key or a value that is not
    a finite number. *)
Record AlphaOptions : Type := mkAlphaOptions {
  alphaThreshold : option Q;
  stride : option Q
}.

Definition thresholdOf (options : AlphaOptions) : Q :=
  match alphaThreshold options with
  | Some t => t
  | None => 8%Q
  end.

(** [Number.isFinite(stride) && stride > 0 ? Math.floor(stride) : 1] *)
Definition strideOf (options : AlphaOptions) : Z :=
  match stride options with
  | Some s => if Qlt_bool 0 s then Qfloor s else 1
  | None => 1
  end.

(** [pixels[i]] of a typed array: [undefined] out of range. *)
Definition pixelAt (pixels : list Z) (i : Z) : option Z :=
  if i <? 0 then None else nth_error pixels (Z.to_nat i).

(** [pixels[idx + 3] > threshold]; a comparison with [undefined] is false. *)
Definition opaqueAt (pixels : list Z) (width : Z) (threshold : Q) (x y : Z) : bool :=
  match pixelAt pixels (y * width * 4 + x * 4 + 3) with
  | Some a => Qlt_bool threshold (inject_Z a)
  | None => false
  end.

(** The variables [minX], [minY], [maxX], [maxY] of the scan. *)
Record Scan : Type := mkScan { minX : Z; minY : Z; maxX : Z; maxY : Z }.

Definition mark (x y : Z) (s : Scan) : Scan :=
  mkScan (if x <? minX s then x else minX s)
         (if y <? minY s then y else minY s)
         (if maxX s <? x then x else maxX s)
         (if maxY s <? y then y else maxY s).

Definition visit (pixels : list Z) (width : Z) (threshold : Q) (y : Z)
    (s : Scan) (x : Z) : Scan :=
  if opaqueAt pixels width threshold x y then mark x y s else s.

(** The two [for] loops.  [fuel] bounds the number of iterations of a
    loop; [None] means the loop is still running when it is used up. *)
Fixpoint scanRow (fuel : nat) (pixels : list Z) (width : Z) (threshold : Q)
    (step y x : Z) (s : Scan) : option Scan :=
  if x <? width then
    match fuel with
    | O => None
    | S fuel' =>
        scanRow fuel' pixels width threshold step y (x + step)
          (visit pixels width threshold y s x)
    end
  else Some s.

Fixpoint scanRows (fuel inner : nat) (pixels : list Z) (width height : Z)
    (threshold : Q) (step y : Z) (s : Scan) : option Scan :=
  if y <? height then
    match fuel with
    | O => None
    | S fuel' =>
        match scanRow inner pixels width threshold step y 0 s with
        | None => None
        | Some s' =>
            scanRows fuel' inner pixels width height threshold step (y + step) s'
        end
    end
  else Some s.

(** [computeAlphaBounds]: [None] when a loop does not end within
    [fuel] iterations, else what the function returns. *)
Definition computeAlphaBounds (fuel : nat) (pixels : list Z) (width height : Z)
    (options : AlphaOptions) : option (option Bounds.t) :=
  let threshold := thresholdOf options in
  let stride := strideOf options in
  match scanRows fuel fuel pixels width height threshold stride 0
          (mkScan width height (-1) (-1)) with
  | None => None
  | Some s =>
      Some (if (maxX s =? -1) || (maxY s =? -1) then None
            else Some (Bounds.mk (inject_Z (minX s)) (inject_Z (minY s))
                         (inject_Z (maxX s - minX s + 1))
                         (inject_Z (maxY s - minY s + 1))))
  end.

(** The pixel columns (or rows) a scan with the given stride visits. *)
Definition sampled (stride n x : Z) : Prop :=
  0 <= x < n /\ x mod stride = 0.

(** The coordinates a loop [for (x = from; x < n; x += stride)] runs
    through. *)
Fixpoint coords (fuel : nat) (stride n from : Z) : list Z :=
  if from <? n then
    match fuel with
    | O => []
    | S fuel' => from :: coords fuel' stride n (from + stride)
    end
  else [].

(** The scan over the points [(x, y)] of [seen], in the state it has
    when it starts from [mkScan width height (-1) (-1)]: untouched
    while no point was opaque, else the extremes of the opaque
    points. *)
Definition scanned (pixels : list Z) (width height : Z) (threshold : Q)
    (seen : list (Z * Z)) (s : Scan) : Prop :=
  ((forall p, In p seen -> opaqueAt pixels width threshold (fst p) (snd p) = false)
   /\ s = mkScan width height (-1) (-1))
  \/ ((forall p, In p seen -> opaqueAt pixels width threshold (fst p) (snd p) = true ->
         minX s <= fst p <= maxX s /\ minY s <= snd p <= maxY s)
      /\ (exists p, In p seen /\ opaqueAt pixels width threshold (fst p) (snd p) = true
                    /\ fst p = minX s)
      /\ (exists p, In p seen /\ opaqueAt pixels width threshold (fst p) (snd p) = true
                    /\ snd p = minY s)
      /\ (exists p, In p seen /\ opaqueAt pixels width threshold (fst p) (snd p) = true
                    /\ fst p = maxX s)
      /\ (exists p, In p seen /\ opaqueAt pixels width threshold (fst p) (snd p) = true
                    /\ snd p = maxY s)).

(** The points of a scan, row by row. *)
Definition grid (xs ys : list Z) : list (Z * Z) :=
  flat_map (fun y => map (fun x => (x, y)) xs) ys.

(** ** The crop indicator of the layer panel *)

(** A canvas as the panel reads it: its [width] and [height]. *)
Record CanvasSize : Type := mkCanvasSize { cs_width : Q; cs_height : Q }.




(** [_createFullBounds]: [sourceSize.width || 0] is the width itself
    for a number. *)
Definition _createFullBounds (sourceSize : CanvasSize) : Bounds.t :=
  Bounds.mk 0 0 (cs_width sourceSize) (cs_height sourceSize).

(** ** The draw bounds of a thumbnail *)

(** The options [_applyBoundsToCache] reads. *)
Record ThumbnailOptions : Type := mkThumbnailOptions {
  thumbnailAutoUpdate : bool;
  thumbnailPadding : Q;
  thumbnailAnimationWindow : Q;
  thumbnailEmptyFrameReset : Q
}.

(** A cache entry; [window] and [emptyFrames] are [undefined] until
    the first update in smoothing mode. *)
Record CacheEntry : Type := mkCacheEntry {
  drawBounds : option Bounds.t;
  window : option (list Bounds.t);
  emptyFrames : option Q
}.

(** [while (window.length > maxWindow) window.shift()], for the
    [maxWindow] of the only call, which is at least 1 (the loop ends
    before the array is empty). *)
Fixpoint trimWindow (maxWindow : Q) (w : list Bounds.t) : list Bounds.t :=
  match w with
  | [] => []
  | _ :: rest =>
      if Qlt_bool maxWindow (inject_Z (Z.of_nat (length w)))
      then trimWindow maxWindow rest
      else w
  end.

Definition nonEmpty (b : Bounds.t) : bool :=
  Qlt_bool 0 (Bounds.width b) && Qlt_bool 0 (Bounds.height b).

(** [drawBounds = candidate] when the candidate is a non-empty
    rectangle, else the full bounds unless draw bounds exist. *)
Definition chooseDrawBounds (candidate current : option Bounds.t)
    (sourceSize : CanvasSize) : option Bounds.t :=
  match candidate with
  | Some b =>
      if nonEmpty b then Some b
      else match current with
           | Some d => Some d
           | None => Some (_createFullBounds sourceSize)
           end
  | None =>
      match current with
      | Some d => Some d
      | None => Some (_createFullBounds sourceSize)
      end
  end.

(** [_applyBoundsToCache] on an existing cache entry. *)
Definition _applyBoundsToCache (options : ThumbnailOptions) (cacheEntry : CacheEntry)
    (bounds : option Bounds.t) (sourceSize : CanvasSize) : CacheEntry :=
  let pad b :=
    padBounds b (thumbnailPadding options) (cs_width sourceSize) (cs_height sourceSize) in
  if negb (thumbnailAutoUpdate options) then
    match bounds with
    | Some b =>
        if nonEmpty b
        then mkCacheEntry (pad (Some b)) (window cacheEntry) (emptyFrames cacheEntry)
        else mkCacheEntry (chooseDrawBounds None (drawBounds cacheEntry) sourceSize)
               (window cacheEntry) (emptyFrames cacheEntry)
    | None =>
        mkCacheEntry (chooseDrawBounds None (drawBounds cacheEntry) sourceSize)
          (window cacheEntry) (emptyFrames cacheEntry)
    end
  else
    let window0 := match window cacheEntry with Some w => w | None => [] end in
    let '(window1, emptyFrames1) :=
      match bounds with
      | Some b =>
          let maxWindow := Qmax 1 (thumbnailAnimationWindow options) in
          (trimWindow maxWindow (window0 ++ [b]), 0%Q)
      | None =>
          let resetLimit := Qmax 1 (thumbnailEmptyFrameReset options) in
          let n := ((match emptyFrames cacheEntry with Some e => e | None => 0 end) + 1)%Q in
          if Qle_bool resetLimit n then ([], resetLimit) else (window0, n)
      end in
    let merged := mergeBounds (map Some window1) in
    let padded := match merged with Some m => pad (Some m) | None => None end in
    let drawBounds1 := chooseDrawBounds padded (drawBounds cacheEntry) sourceSize in
    let drawBounds2 := match window1 with
                       | [] => Some (_createFullBounds sourceSize)
                       | _ => drawBounds1
                       end in
    mkCacheEntry drawBounds2 (Some window1) (Some emptyFrames1).

(* ------------------------------------------------------------------ *)
(** * The layer panel moves the selected layer                         *)
(* ------------------------------------------------------------------ *)

(** [layers.findIndex(l => l.id === layerId)]; [None] is [-1]. *)
Fixpoint findIndex (layerId : Z) (ls : list Layer.t) : option nat :=
  match ls with
  | [] => None
  | l :: rest =>
      if Layer.id l =? layerId then Some 0%nat
      else option_map S (findIndex layerId rest)
  end.

(** [a[i] = x] for an index inside the array. *)
Fixpoint setNth {A : Type} (i : nat) (x : A) (l : list A) : list A :=
  match l, i with
  | [], _ => []
  | _ :: rest, O => x :: rest
  | h :: rest, S i' => h :: setNth i' x rest
  end.

(** [[a[i], a[j]] = [a[j], a[i]]] for two indices inside the array. *)
Definition swapAt {A : Type} (i j : nat) (l : list A) : list A :=
  match nth_error l i, nth_error l j with
  | Some x, Some y => setNth j x (setNth i y l)
  | _, _ => l
  end.

(** The exchange of the positions [i] and [j]. *)
Definition transpose (i j p : nat) : nat :=
  if Nat.eqb p j then i else if Nat.eqb p i then j else p.

(** The part of [LayerUI._moveSelectedLayer] that acts on the layer
    system: the layers in stack order, the selected one exchanged with
    its neighbour, handed to [reorderLayers].  The DOM and thumbnail
    updates are left out; [direction] is an integer. *)
Definition _moveSelectedLayer (selectedLayerId : option Z) (direction : Z)
    (w : LayerSystem.World) : LayerSystem.World :=
  match selectedLayerId with
  | None => w
  | Some selected =>
      let layers := LayerSystem.getLayers (LayerSystem.sys w) in
      match findIndex selected layers with
      | None => w
      | Some currentIndex =>
          let newIndex := Z.of_nat currentIndex - direction in
          if (newIndex <? 0) || (Z.of_nat (length layers) <=? newIndex) then w
          else
            let swapped := swapAt currentIndex (Z.to_nat newIndex) layers in
            LayerSystem.reorderLayers (map Layer.id swapped) w
      end
  end.
(* ------------------------------------------------------------------ *)
(** * The Blend Mode Table                                             *)
(* ------------------------------------------------------------------ *)

Lemma strictEqString_true (v : value) (s : string) :
  strictEqString v s = true <-> v = VString s.
Proof.
  destruct v; simpl; try (split; [discriminate | intros H; discriminate H]).
  rewrite String.eqb_eq. split; [intros -> | intros [= ->]]; reflexivity.
Qed.

Lemma isBlendMode_true (v : value) :
  isBlendMode v = true <-> exists s, v = VString s /\ In s BlendModes.values.
Proof.
  unfold isBlendMode. rewrite existsb_exists. split.
  - intros (s & Hin & Heq). apply strictEqString_true in Heq. eauto.
  - intros (s & -> & Hin). exists s. split; [assumption|].
    apply strictEqString_true. reflexivity.
Qed.

(** C8.  On the fourteen declared entries, taken in declaration order,
    [getBlendModeIndex] returns 0, 1, ..., 13 and writes nothing to the
    console; the entries are pairwise distinct, so the table is
    injective on them and onto 0..13; on every value that is not a
    declared entry it returns 0 and writes one warning. *)
Theorem getBlendModeIndex_table :
  map (fun s => getBlendModeIndex (VString s)) BlendModes.values
    = map (fun i => (i, [])) [0; 1; 2; 3; 4; 5; 6; 7; 8; 9; 10; 11; 12; 13]
  /\ List.NoDup (map (fun s => fst (getBlendModeIndex (VString s))) BlendModes.values)
  /\ List.NoDup BlendModes.values
  /\ forall v : value,
       isBlendMode v = true
       \/ getBlendModeIndex v = (0, [Warn "Unknown blend mode, falling back to NORMAL"]).
Proof.
  split; [reflexivity|]. split; [|split].
  - vm_compute. repeat (constructor; [simpl; intuition discriminate|]). constructor.
  - vm_compute. repeat (constructor; [simpl; intuition discriminate|]). constructor.
  - intros v. destruct (isBlendMode v) eqn:Hv; [left; reflexivity|right].
    unfold isBlendMode in Hv. cbn [existsb BlendModes.values map BlendModes.entries snd] in Hv.
    repeat (apply orb_false_elim in Hv; destruct Hv as [? Hv]).
    unfold getBlendModeIndex.
    repeat match goal with H : strictEqString v _ = false |- _ => rewrite H; clear H end.
    reflexivity.
Qed.

(** A recognised mode is stored as given by [setBlendMode], anything
    else becomes NORMAL with one warning. *)
Lemma setBlendMode_stored (mode : value) (l : Layer.t) :
  Layer.setBlendMode mode l =
    if isBlendMode mode
    then (Layer.with_blendMode mode l, [])
    else (Layer.with_blendMode (VString BlendModes.NORMAL) l,
          [Warn "Invalid blend mode, using NORMAL"]).
Proof. unfold Layer.setBlendMode. destruct (isBlendMode mode); reflexivity. Qed.

(** C7, on the code.  The constructor stores the [blendMode] option as
    given: with the unrecognised mode ["GLOW"], [createLayer] returns
    a layer whose [blendMode] is ["GLOW"], the layer in the store
    carries it too, and nothing is written to the console.  The same
    value passed to [setBlendMode] is replaced by NORMAL with a
    warning, and [getBlendModeIndex] maps the stored ["GLOW"] to opcode
    0 with a warning at every frame. *)
Theorem constructor_keeps_unrecognised_blendMode :
  let options := Layer.mkOptions None None (Some (VString "GLOW"))
                   None None None None None None in
  isBlendMode (VString "GLOW") = false
  /\ (exists l p,
        Layer.constructor demoHost 0 "fx" options = (Ok l, p)
        /\ Layer.blendMode l = VString "GLOW"
        /\ h_console p = []
        /\ Layer.blendMode (fst (Layer.setBlendMode (VString "GLOW") l))
             = VString BlendModes.NORMAL
        /\ snd (Layer.setBlendMode (VString "GLOW") l)
             = [Warn "Invalid blend mode, using NORMAL"])
  /\ (exists l w,
        LayerSystem.createLayer "fx" options demoWorld = (Ok l, w)
        /\ Layer.blendMode l = VString "GLOW"
        /\ option_map Layer.blendMode
             (LayerSystem.getLayer (VString "fx") (LayerSystem.sys w))
             = Some (VString "GLOW")
        /\ h_console (LayerSystem.host w) = [])
  /\ getBlendModeIndex (VString "GLOW")
       = (0, [Warn "Unknown blend mode, falling back to NORMAL"]).
Proof.
  cbv zeta. split; [reflexivity|]. split; [|split; [|reflexivity]].
  - eexists. eexists. split; [reflexivity|]. repeat split.
  - eexists. eexists. split; [reflexivity|]. repeat split.
Qed.
(* ------------------------------------------------------------------ *)
(** * The fragment program meets the blend contract                    *)
(* ------------------------------------------------------------------ *)

Section FragmentContract.
Variable sqrt : Q -> Q.
Local Open Scope Q_scope.

Lemma Qlt_bool_true (x y : Q) : Qlt_bool x y = true <-> x < y.
Proof.
    unfold Qlt_bool. rewrite negb_true_iff. split; intros H.
    - apply Qnot_le_lt. intros Hle. apply Qle_bool_iff in Hle. congruence.
    - destruct (Qle_bool y x) eqn:E; [|reflexivity].
      apply Qle_bool_iff in E. exfalso; eapply Qlt_not_le; eauto.
Qed.

Lemma Qlt_bool_false (x y : Q) : Qlt_bool x y = false <-> y <= x.
Proof.
    unfold Qlt_bool. rewrite negb_false_iff. apply Qle_bool_iff.
Qed.

Lemma glsl_min_Qmin (x y : Q) : glsl_min x y == Qmin x y.
Proof.
    unfold glsl_min. destruct (Qlt_bool y x) eqn:E.
    - apply Qlt_bool_true in E. symmetry. apply Q.min_r. apply Qlt_le_weak, E.
    - apply Qlt_bool_false in E. symmetry. apply Q.min_l, E.
Qed.

Lemma glsl_max_Qmax (x y : Q) : glsl_max x y == Qmax x y.
Proof.
    unfold glsl_max. destruct (Qlt_bool x y) eqn:E.
    - apply Qlt_bool_true in E. symmetry. apply Q.max_r. apply Qlt_le_weak, E.
    - apply Qlt_bool_false in E. symmetry. apply Q.max_l, E.
Qed.

Lemma glsl_abs_Qabs (x : Q) : glsl_abs x == Qabs x.
Proof.
    unfold glsl_abs. destruct (Qlt_bool x 0) eqn:E.
    - apply Qlt_bool_true in E. symmetry. apply Qabs_neg. apply Qlt_le_weak, E.
    - apply Qlt_bool_false in E. symmetry. apply Qabs_pos, E.
Qed.
Lemma applyBlendMode_withOpacity mode base blend o :
    Frag.applyBlendMode sqrt mode base blend o
      = Frag.withOpacity (blendOf sqrt mode) base blend o.
Proof.
    unfold Frag.applyBlendMode, blendOf.
    repeat match goal with |- context [(mode =? ?k)%Z] => destruct (mode =? k)%Z; [reflexivity|] end.
    reflexivity.
Qed.

Ltac channel :=
    repeat match goal with
      | |- context [Qlt_bool ?x ?y] =>
          let E := fresh "E" in
          destruct (Qlt_bool x y) eqn:E;
          [apply Qlt_bool_true in E | apply Qlt_bool_false in E]
      | |- context [Qeq_bool ?x ?y] =>
          let E := fresh "E" in
          destruct (Qeq_bool x y) eqn:E;
          [apply Qeq_bool_iff in E | apply Qeq_bool_neq in E]
      | |- context [Qlt_le_dec ?x ?y] => destruct (Qlt_le_dec x y)
      | |- context [Qeq_dec ?x ?y] => destruct (Qeq_dec x y)
      end;
    try reflexivity; try ring; try (exfalso; lra); try contradiction.

Lemma overlay_channel (b l : Q) :
    Frag.blendOverlay_0F b l == BlendSpec.overlay b l.
Proof. unfold Frag.blendOverlay_0F, BlendSpec.overlay. channel. Qed.

Lemma overlay1_channel (b l : Q) :
    Frag.blendOverlay_1F b l == BlendSpec.overlay b l.
Proof. unfold Frag.blendOverlay_1F, BlendSpec.overlay. channel. Qed.

Lemma softLight_channel (b l : Q) :
    Frag.blendSoftLightF sqrt b l
      == (if Qlt_le_dec l (1#2)
          then 2 * b * l + b * b * (1 - 2 * l)
          else sqrt b * (2 * l - 1) + 2 * b * (1 - l)).
Proof. unfold Frag.blendSoftLightF. channel. Qed.

Lemma colorDodge_channel (b l : Q) :
    Frag.blendColorDodgeF b l
      == (if Qeq_dec l 1 then l else Qmin (b / (1 - l)) 1).
Proof. unfold Frag.blendColorDodgeF. channel. apply glsl_min_Qmin. Qed.

Lemma colorBurn_channel (b l : Q) :
    Frag.blendColorBurnF b l
      == (if Qeq_dec l 0 then l else Qmax (1 - (1 - b) / l) 0).
Proof. unfold Frag.blendColorBurnF. channel. apply glsl_max_Qmax. Qed.

Lemma darken_channel (b l : Q) : Frag.blendDarkenF b l == Qmin b l.
Proof. unfold Frag.blendDarkenF. rewrite glsl_min_Qmin. apply Q.min_comm. Qed.

Lemma lighten_channel (b l : Q) : Frag.blendLightenF b l == Qmax b l.
Proof. unfold Frag.blendLightenF. rewrite glsl_max_Qmax. apply Q.max_comm. Qed.

Lemma unknown_opcode (mode : Z) :
    (mode < 0 \/ 13 < mode)%Z ->
    blendOf sqrt mode = Frag.blendNormal
    /\ forall B L, BlendSpec.applyBlendFunction sqrt mode B L = L.
Proof.
    intros Hm. split.
    - unfold blendOf.
      repeat match goal with
        | |- context [(mode =? ?k)%Z] => destruct (Z.eqb_spec mode k); [lia|]
        end.
      reflexivity.
    - intros B L. destruct mode as [|p|p]; [lia| |reflexivity].
      unfold BlendSpec.applyBlendFunction.
      do 4 (destruct p as [p|p|]; try lia; try reflexivity).
Qed.

Lemma blendOf_channels (mode : Z) (base blend : vec3) :
    vec3_eq (blendOf sqrt mode base blend)
      (mkVec3
         (BlendSpec.applyBlendFunction sqrt mode (v_r base) (v_r blend))
         (BlendSpec.applyBlendFunction sqrt mode (v_g base) (v_g blend))
         (BlendSpec.applyBlendFunction sqrt mode (v_b base) (v_b blend))).
Proof.
    assert (Hm : (mode = 0 \/ mode = 1 \/ mode = 2 \/ mode = 3 \/ mode = 4
                  \/ mode = 5 \/ mode = 6 \/ mode = 7 \/ mode = 8 \/ mode = 9
                  \/ mode = 10 \/ mode = 11 \/ mode = 12 \/ mode = 13
                  \/ (mode < 0 \/ 13 < mode))%Z) by lia.
    destruct base as [r g b], blend as [r' g' b'].
    repeat (destruct Hm as [-> | Hm]).
    15: { destruct (unknown_opcode mode Hm) as [-> HL]. rewrite !HL.
          unfold vec3_eq; cbn; repeat split; reflexivity. }
    all: unfold vec3_eq; cbn; repeat split.
    all: first
      [ reflexivity | ring
      | apply glsl_min_Qmin | apply glsl_max_Qmax | apply glsl_abs_Qabs
      | apply overlay_channel | apply overlay1_channel | apply softLight_channel
      | apply colorDodge_channel | apply colorBurn_channel
      | apply darken_channel | apply lighten_channel ].
Qed.

  (** C2, amended.  For every opcode, base colour, layer colour, layer
      opacity and optional mask, the fragment program computes
      [alpha_eff = L.alpha * layerOpacity * (mask ? mask.r : 1)]; when
      [alpha_eff <= 0] its output is the base colour unchanged, alpha
      included; otherwise the output is
      [mix(applyBlendFunction(opcode, B.rgb, L.rgb), B.rgb, 1 - alpha_eff)]
      with alpha 1, [applyBlendFunction] being the table of section 4.2
      with the fallback to NORMAL.  Channels are compared as rationals. *)
Theorem fragment_meets_contract (u : Frag.Uniforms) (uv : UV) :
    vec4_eq (Frag.main sqrt u uv)
      (BlendSpec.blendPixel sqrt (Frag.blendMode u)
         (Frag.backgroundTexture u uv) (Frag.layerTexture u uv)
         (Frag.layerOpacity u) (maskSample u uv)).
Proof.
    unfold Frag.main, BlendSpec.blendPixel, BlendSpec.alphaEff, maskSample.
    set (B := Frag.backgroundTexture u uv). set (L := Frag.layerTexture u uv).
    set (m := Frag.maskTexture u uv). set (o := Frag.layerOpacity u).
    set (fo := if Frag.hasMask u then c_a L * o * c_r m else c_a L * o).
    set (a := c_a L * o * (if Frag.hasMask u then c_r m else 1)).
    assert (Hfa : fo == a).
    { subst fo a. destruct (Frag.hasMask u); ring. }
    replace (c_a L * o * match (if Frag.hasMask u then Some m else None) with
                         | Some m0 => c_r m0 | None => 1 end) with a
      by (subst a; destruct (Frag.hasMask u); reflexivity).
    destruct (Qle_bool fo 0) eqn:E, (Qlt_le_dec 0 a) as [Ha|Ha].
    - apply Qle_bool_iff in E. rewrite Hfa in E. exfalso; lra.
    - unfold vec4_eq; repeat split; reflexivity.
    - rewrite applyBlendMode_withOpacity.
      pose proof (blendOf_channels (Frag.blendMode u) (rgb B) (rgb L)) as (Hr & Hg & Hb).
      unfold vec4_eq, BlendSpec.blended, BlendSpec.mix, Frag.withOpacity; cbn.
      cbn in Hr, Hg, Hb. rewrite Hr, Hg, Hb, Hfa. repeat split; ring.
    - assert (Hn : ~ fo <= 0) by (intros H; apply Qle_bool_iff in H; congruence).
      rewrite Hfa in Hn. exfalso; lra.
Qed.
End FragmentContract.

(** C2 as stated fails in its first branch.  On the first pass the
    accumulator is cleared, that is transparent; where the layer texel
    has alpha 0 the program outputs the accumulator as it is, with
    alpha 0, and not with alpha forced to opaque. *)
Lemma fragment_passes_base_alpha :
  BlendSpec.alphaEff (Frag.layerTexture transparentPass (0, 0)%Q)
    (Frag.layerOpacity transparentPass) (maskSample transparentPass (0, 0)%Q) == 0
  /\ Frag.main demoSqrt transparentPass (0, 0)%Q = transparent
  /\ c_a (BlendSpec.blendPixel_claimed demoSqrt (Frag.blendMode transparentPass)
            (Frag.backgroundTexture transparentPass (0, 0)%Q)
            (Frag.layerTexture transparentPass (0, 0)%Q)
            (Frag.layerOpacity transparentPass)
            (maskSample transparentPass (0, 0)%Q)) = 1%Q
  /\ ~ vec4_eq (Frag.main demoSqrt transparentPass (0, 0)%Q)
         (BlendSpec.blendPixel_claimed demoSqrt (Frag.blendMode transparentPass)
            (Frag.backgroundTexture transparentPass (0, 0)%Q)
            (Frag.layerTexture transparentPass (0, 0)%Q)
            (Frag.layerOpacity transparentPass)
            (maskSample transparentPass (0, 0)%Q)).
Proof.
  split; [reflexivity|]. split; [reflexivity|]. split; [reflexivity|].
  intros (_ & _ & _ & Ha). vm_compute in Ha. discriminate Ha.
Qed.

(* ------------------------------------------------------------------ *)
(** * The [layers] map: lookup after update                            *)
(* ------------------------------------------------------------------ *)

Lemma layers_get_id (k : Z) (ls : list Layer.t) (l : Layer.t) :
  layers_get k ls = Some l -> Layer.id l = k.
Proof.
  induction ls as [|h t IH]; simpl; [discriminate|].
  destruct (Z.eqb_spec (Layer.id h) k); [intros [= <-]; assumption | exact IH].
Qed.

Lemma layers_get_In (k : Z) (ls : list Layer.t) (l : Layer.t) :
  layers_get k ls = Some l -> In l ls.
Proof.
  induction ls as [|h t IH]; simpl; [discriminate|].
  destruct (Layer.id h =? k); [intros [= <-]; left; reflexivity | right; auto].
Qed.

Lemma layers_get_set_eq (l : Layer.t) (ls : list Layer.t) :
  layers_get (Layer.id l) (layers_set l ls) = Some l.
Proof.
  induction ls as [|h t IH]; simpl.
  - rewrite Z.eqb_refl. reflexivity.
  - destruct (Z.eqb_spec (Layer.id h) (Layer.id l)) as [E|E]; simpl.
    + rewrite Z.eqb_refl. reflexivity.
    + apply Z.eqb_neq in E. rewrite E. exact IH.
Qed.

Lemma layers_get_set_ne (k : Z) (l : Layer.t) (ls : list Layer.t) :
  k <> Layer.id l -> layers_get k (layers_set l ls) = layers_get k ls.
Proof.
  intros Hk. induction ls as [|h t IH]; simpl.
  - destruct (Z.eqb_spec (Layer.id l) k); [congruence|reflexivity].
  - destruct (Z.eqb_spec (Layer.id h) (Layer.id l)) as [E|E]; simpl.
    + destruct (Z.eqb_spec (Layer.id l) k); [congruence|].
      destruct (Z.eqb_spec (Layer.id h) k); [congruence|reflexivity].
    + destruct (Layer.id h =? k); [reflexivity|exact IH].
Qed.

Lemma layers_get_delete_eq (k : Z) (ls : list Layer.t) :
  layers_get k (layers_delete k ls) = None.
Proof.
  induction ls as [|h t IH]; simpl; [reflexivity|].
  destruct (Z.eqb_spec (Layer.id h) k) as [E|E]; simpl; [exact IH|].
  apply Z.eqb_neq in E. rewrite E. exact IH.
Qed.

Lemma layers_get_delete_ne (k k' : Z) (ls : list Layer.t) :
  k <> k' -> layers_get k (layers_delete k' ls) = layers_get k ls.
Proof.
  intros Hk. induction ls as [|h t IH]; simpl; [reflexivity|].
  destruct (Z.eqb_spec (Layer.id h) k') as [E|E]; simpl.
  - destruct (Z.eqb_spec (Layer.id h) k); [congruence|exact IH].
  - destruct (Layer.id h =? k); [reflexivity|exact IH].
Qed.

(** Storing a layer back under an id that is present changes which ids
    are present in no way. *)
Lemma layers_get_set_None (k : Z) (l l0 : Layer.t) (ls : list Layer.t) :
  layers_get (Layer.id l) ls = Some l0 ->
  layers_get k (layers_set l ls) = None <-> layers_get k ls = None.
Proof.
  intros Hl. destruct (Z.eq_dec k (Layer.id l)) as [->|Hk].
  - rewrite layers_get_set_eq, Hl. split; discriminate.
  - rewrite layers_get_set_ne by assumption. reflexivity.
Qed.

Lemma map_id_layers_set (l l0 : Layer.t) (ls : list Layer.t) :
  layers_get (Layer.id l) ls = Some l0 ->
  map Layer.id (layers_set l ls) = map Layer.id ls.
Proof.
  induction ls as [|h t IH]; simpl; [discriminate|].
  destruct (Z.eqb_spec (Layer.id h) (Layer.id l)) as [E|E]; simpl.
  - intros _. congruence.
  - intros H. rewrite IH by assumption. reflexivity.
Qed.

(* ------------------------------------------------------------------ *)
(** * Layer methods: what they leave alone                             *)
(* ------------------------------------------------------------------ *)

Lemma Layer_end_id (l : Layer.t) (p : Host) :
  Layer.id (fst (Layer.end_ l p)) = Layer.id l.
Proof. unfold Layer.end_. destruct (Layer.framebuffer l); reflexivity. Qed.

Lemma Layer_begin_id (l : Layer.t) (p : Host) :
  Layer.id (fst (Layer.begin l p)) = Layer.id l.
Proof. unfold Layer.begin. destruct (Layer.framebuffer l); reflexivity. Qed.

Lemma Layer_constructor_Ok (p p' : Host) (id : Z) (name : string)
    (options : Layer.Options) (l : Layer.t) :
  Layer.constructor p id name options = (Ok l, p') ->
  Layer.id l = id
  /\ Layer.name l = Layer.nameOr name id
  /\ Layer.blendMode l = default (VString BlendModes.NORMAL) (Layer.o_blendMode options)
  /\ Layer.hasBeenDrawnTo l = false
  /\ Layer.bound l = false.
Proof.
  unfold Layer.constructor, Layer._createFramebuffer, createFramebuffer.
  destruct (h_framebufferFaults p) as [|[] rest]; intros [= <- <-];
    repeat split; reflexivity.
Qed.

(* ------------------------------------------------------------------ *)
(** * begin with a reference that resolves to no layer                 *)
(* ------------------------------------------------------------------ *)

Lemma getLayerById_with_layers (r : value) (s : LayerSystem.t) (ls : list Layer.t) :
  (forall k, layers_get k ls = None <-> layers_get k (LayerSystem.layers s) = None) ->
  LayerSystem._getLayerById r (LayerSystem.with_layers ls s) = None
  <-> LayerSystem._getLayerById r s = None.
Proof.
  intros H. destruct r; simpl; try reflexivity; [apply H|].
  destruct (LayerSystem.layerNames s !! s0); [apply H|reflexivity].
Qed.

(** [end()] neither adds nor removes a layer or a name. *)
Lemma end_keeps_unresolved (r : value) (w : LayerSystem.World) :
  LayerSystem._getLayerById r (LayerSystem.sys (LayerSystem.end_ w)) = None
  <-> LayerSystem._getLayerById r (LayerSystem.sys w) = None.
Proof.
  unfold LayerSystem.end_. destruct w as [p s]; simpl.
  destruct (LayerSystem.activeLayerId s) as [a|]; simpl; [|reflexivity].
  destruct (layers_get a (LayerSystem.layers s)) as [layer|] eqn:Hget; simpl.
  - destruct (Layer.end_ layer p) as [layer' p1] eqn:Hend; simpl.
    assert (Hid : Layer.id layer' = Layer.id layer).
    { change layer' with (fst (layer', p1)). rewrite <- Hend. apply Layer_end_id. }
    pose proof (layers_get_id _ _ _ Hget) as Ha.
    assert (Hkeep : forall k,
              layers_get k (layers_set layer' (LayerSystem.layers s)) = None
              <-> layers_get k (LayerSystem.layers s) = None).
    { intros k. apply layers_get_set_None with (l0 := layer). congruence. }
    destruct (LayerSystem.ui s); simpl;
      destruct r; simpl; try reflexivity; try apply Hkeep;
      destruct (LayerSystem.layerNames s !! s0); try reflexivity; apply Hkeep.
  - destruct r; simpl; reflexivity.
Qed.

Lemma end_activeLayerId (w : LayerSystem.World) :
  LayerSystem.activeLayerId (LayerSystem.sys (LayerSystem.end_ w)) = None.
Proof.
  unfold LayerSystem.end_.
  destruct (LayerSystem.activeLayerId (LayerSystem.sys w)) as [a|] eqn:Ha;
    [|exact Ha].
  destruct (layers_get a (LayerSystem.layers (LayerSystem.sys w))) as [l|];
    [|reflexivity].
  destruct (Layer.end_ l (LayerSystem.host w)).
  destruct (LayerSystem.ui (LayerSystem.sys w)); reflexivity.
Qed.

(** C5, amended.  When the reference resolves to no layer, [begin]
    writes the "not found" diagnostic and changes nothing else, except
    that a layer that was active is first ended exactly as [end()]
    ends it (after the "already active" warning).  In particular, when
    no layer is active the system state is unchanged and the host has
    only the diagnostic more; in every case no layer is active
    afterwards. *)
Theorem begin_unresolved (r : value) (w : LayerSystem.World) :
  LayerSystem._getLayerById r (LayerSystem.sys w) = None ->
  LayerSystem.begin r w =
    LayerSystem.onHost (log (Error "Layer not found"))
      (match LayerSystem.activeLayerId (LayerSystem.sys w) with
       | Some _ =>
           LayerSystem.end_
             (LayerSystem.onHost
                (log (Warn "Layer is already active. Ending it first.")) w)
       | None => w
       end)
  /\ LayerSystem.activeLayerId (LayerSystem.sys (LayerSystem.begin r w)) = None
  /\ (LayerSystem.activeLayerId (LayerSystem.sys w) = None ->
      LayerSystem.sys (LayerSystem.begin r w) = LayerSystem.sys w
      /\ LayerSystem.host (LayerSystem.begin r w)
           = log (Error "Layer not found") (LayerSystem.host w)).
Proof.
  intros Hr.
  assert (Heq : LayerSystem.begin r w =
    LayerSystem.onHost (log (Error "Layer not found"))
      (match LayerSystem.activeLayerId (LayerSystem.sys w) with
       | Some _ =>
           LayerSystem.end_
             (LayerSystem.onHost
                (log (Warn "Layer is already active. Ending it first.")) w)
       | None => w
       end)).
  { unfold LayerSystem.begin.
    destruct (LayerSystem.activeLayerId (LayerSystem.sys w)) eqn:Ha.
    + match goal with
      | |- context [LayerSystem._getLayerById r (LayerSystem.sys ?w1)] =>
          assert (H1 : LayerSystem._getLayerById r (LayerSystem.sys w1) = None)
      end.
      { apply end_keeps_unresolved. exact Hr. }
      rewrite H1. reflexivity.
    + rewrite Hr. reflexivity. }
  split; [exact Heq|]. split.
  - rewrite Heq. destruct (LayerSystem.activeLayerId (LayerSystem.sys w)) eqn:Ha.
    + apply (end_activeLayerId
               (LayerSystem.onHost
                  (log (Warn "Layer is already active. Ending it first.")) w)).
    + exact Ha.
  - intros Ha. unfold LayerSystem.begin. rewrite Ha, Hr. split; reflexivity.
Qed.

Lemma begin_unresolved_witness :
  LayerSystem._getLayerById (VString "ghost") (LayerSystem.sys demoWorld) = None
  /\ LayerSystem.sys (LayerSystem.begin (VString "ghost") demoWorld)
       = LayerSystem.sys demoWorld.
Proof.
  split; [reflexivity|].
  apply (begin_unresolved (VString "ghost") demoWorld); reflexivity.
Defined.

(** C5 as stated fails: with layer "a" active, [begin("ghost")]
    resolves to nothing and still ends "a": the active layer goes from
    0 to none and "a" is marked as drawn to. *)
Lemma begin_unresolved_ends_active_layer :
  LayerSystem._getLayerById (VString "ghost") (LayerSystem.sys drawingWorld) = None
  /\ LayerSystem.activeLayerId (LayerSystem.sys drawingWorld) = Some 0
  /\ LayerSystem.activeLayerId
       (LayerSystem.sys (LayerSystem.begin (VString "ghost") drawingWorld)) = None
  /\ option_map Layer.hasBeenDrawnTo
       (LayerSystem.getLayer (VNumber 0) (LayerSystem.sys drawingWorld)) = Some false
  /\ option_map Layer.hasBeenDrawnTo
       (LayerSystem.getLayer (VNumber 0)
          (LayerSystem.sys (LayerSystem.begin (VString "ghost") drawingWorld))) = Some true
  /\ LayerSystem.sys (LayerSystem.begin (VString "ghost") drawingWorld)
       <> LayerSystem.sys drawingWorld.
Proof.
  repeat split; try reflexivity.
  intros H. apply (f_equal LayerSystem.activeLayerId) in H. discriminate H.
Qed.

(* ------------------------------------------------------------------ *)
(** * Two layers created with one name                                 *)
(* ------------------------------------------------------------------ *)

Lemma nameOr_nonempty (name : string) (id : Z) :
  name <> "" -> Layer.nameOr name id = name.
Proof. destruct name; [congruence|reflexivity]. Qed.

(** What a successful [createLayer] with a non-empty name leaves. *)
Lemma createLayer_Ok (name : string) (options : Layer.Options)
    (w w' : LayerSystem.World) (l : Layer.t) :
  name <> "" ->
  LayerSystem.createLayer name options w = (Ok l, w') ->
  Layer.id l = LayerSystem.layerIdCounter (LayerSystem.sys w)
  /\ Layer.name l = name
  /\ LayerSystem.layers (LayerSystem.sys w')
       = layers_set l (LayerSystem.layers (LayerSystem.sys w))
  /\ LayerSystem.layerNames (LayerSystem.sys w')
       = <[name := Layer.id l]> (LayerSystem.layerNames (LayerSystem.sys w))
  /\ LayerSystem.layerIdCounter (LayerSystem.sys w')
       = LayerSystem.layerIdCounter (LayerSystem.sys w) + 1
  /\ LayerSystem.activeLayerId (LayerSystem.sys w')
       = LayerSystem.activeLayerId (LayerSystem.sys w).
Proof.
  intros Hname. unfold LayerSystem.createLayer.
  rewrite (nameOr_nonempty name _ Hname).
  destruct (Layer.constructor _ _ _ _) as [[layer|e] p1] eqn:Hc; [|discriminate].
  apply Layer_constructor_Ok in Hc. destruct Hc as (Hid & Hnm & _).
  rewrite (nameOr_nonempty name _ Hname) in Hnm.
  destruct name as [|c name']; [congruence|].
  intros [= <- <-]. simpl. rewrite Hid. repeat split; assumption.
Qed.

(** [end()] touches only the active layer. *)
Lemma end_layers_get_other (k : Z) (w : LayerSystem.World) :
  LayerSystem.activeLayerId (LayerSystem.sys w) <> Some k ->
  layers_get k (LayerSystem.layers (LayerSystem.sys (LayerSystem.end_ w)))
    = layers_get k (LayerSystem.layers (LayerSystem.sys w)).
Proof.
  unfold LayerSystem.end_. destruct w as [p s]; simpl.
  destruct (LayerSystem.activeLayerId s) as [a|]; simpl; [|reflexivity].
  intros Hk.
  destruct (layers_get a (LayerSystem.layers s)) as [layer|] eqn:Hget; simpl;
    [|reflexivity].
  destruct (Layer.end_ layer p) as [layer' p1] eqn:Hend; simpl.
  assert (Hid : Layer.id layer' = a).
  { change layer' with (fst (layer', p1)). rewrite <- Hend, Layer_end_id.
    eapply layers_get_id; eassumption. }
  destruct (LayerSystem.ui s); simpl;
    apply layers_get_set_ne; congruence.
Qed.

Lemma end_layerNames (w : LayerSystem.World) :
  LayerSystem.layerNames (LayerSystem.sys (LayerSystem.end_ w))
    = LayerSystem.layerNames (LayerSystem.sys w).
Proof.
  unfold LayerSystem.end_. destruct w as [p s]; simpl.
  destruct (LayerSystem.activeLayerId s) as [a|]; simpl; [|reflexivity].
  destruct (layers_get a (LayerSystem.layers s)) as [layer|]; simpl; [|reflexivity].
  destruct (Layer.end_ layer p) as [layer' p1]; simpl.
  destruct (LayerSystem.ui s); reflexivity.
Qed.

Lemma end_layers_get_name (k : Z) (w : LayerSystem.World) (l : Layer.t) :
  layers_get k (LayerSystem.layers (LayerSystem.sys w)) = Some l ->
  exists l',
    layers_get k (LayerSystem.layers (LayerSystem.sys (LayerSystem.end_ w))) = Some l'
    /\ Layer.id l' = Layer.id l /\ Layer.name l' = Layer.name l.
Proof.
  intros Hl.
  destruct (decide (LayerSystem.activeLayerId (LayerSystem.sys w) = Some k)) as [Ha|Ha].
  - unfold LayerSystem.end_. destruct w as [p s]; simpl in *. rewrite Ha, Hl.
    destruct (Layer.end_ l p) as [l' p1] eqn:Hend; simpl.
    assert (Hl' : l' = fst (Layer.end_ l p)) by (rewrite Hend; reflexivity).
    assert (Hid : Layer.id l' = Layer.id l) by (rewrite Hl'; apply Layer_end_id).
    assert (Hnm : Layer.name l' = Layer.name l).
    { rewrite Hl'. unfold Layer.end_. destruct (Layer.framebuffer l); reflexivity. }
    pose proof (layers_get_id _ _ _ Hl) as Hk.
    exists l'. destruct (LayerSystem.ui s); simpl;
      (split; [rewrite <- Hk, <- Hid; apply layers_get_set_eq | split; assumption]).
  - exists l. rewrite end_layers_get_other by assumption. auto.
Qed.

(** C10.  Let two layers of the store carry the same non-empty name,
    the name map resolving it to the second.  After [removeLayer] with
    the numeric id of the first, the name has no entry in [layerNames]
    and [getLayer(name)] is null, although the second layer is still in
    [layers] under its id, unchanged and carrying that name. *)
Theorem removeLayer_forgets_shared_name (name : string)
    (w : LayerSystem.World) (l1 l2 : Layer.t) :
  name <> "" ->
  LayerSystem.getLayer (VNumber (Layer.id l1)) (LayerSystem.sys w) = Some l1 ->
  LayerSystem.getLayer (VNumber (Layer.id l2)) (LayerSystem.sys w) = Some l2 ->
  Layer.id l1 <> Layer.id l2 ->
  Layer.name l1 = name ->
  Layer.name l2 = name ->
  LayerSystem.layerNames (LayerSystem.sys w) !! name = Some (Layer.id l2) ->
  let w3 := LayerSystem.removeLayer (VNumber (Layer.id l1)) w in
  LayerSystem.getLayer (VString name) (LayerSystem.sys w) = Some l2
  /\ LayerSystem.layerNames (LayerSystem.sys w3) !! name = None
  /\ LayerSystem.getLayer (VString name) (LayerSystem.sys w3) = None
  /\ LayerSystem.getLayer (VNumber (Layer.id l2)) (LayerSystem.sys w3) = Some l2
  /\ Layer.name l2 = name.
Proof.
  intros Hname Hget1 Hget2 Hne Hnm1 Hnm2 Hmap w3.
  unfold LayerSystem.getLayer in *. cbn [LayerSystem._getLayerById] in Hget1, Hget2.
  assert (Hres : LayerSystem._getLayerById (VString name) (LayerSystem.sys w) = Some l2).
  { cbn [LayerSystem._getLayerById]. rewrite Hmap. exact Hget2. }
  split; [exact Hres|].
  subst w3. unfold LayerSystem.removeLayer.
  cbn [LayerSystem._getLayerById]. rewrite Hget1.
  set (w' := if bool_decide (LayerSystem.activeLayerId (LayerSystem.sys w)
                             = Some (Layer.id l1))
             then LayerSystem.end_ w else w).
  assert (Hnames : LayerSystem.layerNames (LayerSystem.sys w')
                   = LayerSystem.layerNames (LayerSystem.sys w)).
  { subst w'. destruct (bool_decide _); [apply end_layerNames|reflexivity]. }
  assert (Hkeep2 : layers_get (Layer.id l2) (LayerSystem.layers (LayerSystem.sys w'))
                   = Some l2).
  { subst w'. destruct (bool_decide _) eqn:Hb; [|exact Hget2].
    apply bool_decide_eq_true in Hb.
    rewrite end_layers_get_other; [exact Hget2|]. rewrite Hb. congruence. }
  rewrite Hnm1. destruct name as [|c name']; [congruence|].
  cbn [LayerSystem.sys LayerSystem.layers LayerSystem.layerNames
       LayerSystem.with_layers LayerSystem.with_layerNames
       LayerSystem._getLayerById].
  rewrite Hnames, lookup_delete_eq.
  rewrite layers_get_delete_ne by congruence.
  repeat split; assumption.
Qed.

(** Two layers created with the same non-empty name, one right after
    the other, are such a pair. *)
Lemma created_twice_share_name (name : string)
    (options1 options2 : Layer.Options) (w w1 w2 : LayerSystem.World)
    (l1 l2 : Layer.t) :
  name <> "" ->
  LayerSystem.createLayer name options1 w = (Ok l1, w1) ->
  LayerSystem.createLayer name options2 w1 = (Ok l2, w2) ->
  LayerSystem.getLayer (VNumber (Layer.id l1)) (LayerSystem.sys w2) = Some l1
  /\ LayerSystem.getLayer (VNumber (Layer.id l2)) (LayerSystem.sys w2) = Some l2
  /\ Layer.id l1 < Layer.id l2
  /\ Layer.name l1 = name /\ Layer.name l2 = name
  /\ LayerSystem.layerNames (LayerSystem.sys w2) !! name = Some (Layer.id l2).
Proof.
  intros Hname H1 H2.
  destruct (createLayer_Ok _ _ _ _ _ Hname H1) as (Hid1 & Hnm1 & Hls1 & Hns1 & Hc1 & _).
  destruct (createLayer_Ok _ _ _ _ _ Hname H2) as (Hid2 & Hnm2 & Hls2 & Hns2 & _ & _).
  assert (Hlt : Layer.id l1 < Layer.id l2) by lia.
  unfold LayerSystem.getLayer. cbn [LayerSystem._getLayerById].
  rewrite Hls2, Hns2, lookup_insert_eq, layers_get_set_eq.
  rewrite layers_get_set_ne by lia. rewrite Hls1, layers_get_set_eq.
  repeat split; assumption.
Qed.

Lemma removeLayer_forgets_shared_name_witness :
  let w1 := snd (LayerSystem.createLayer "sky" Layer.noOptions demoWorld) in
  let w2 := snd (LayerSystem.createLayer "sky" Layer.noOptions w1) in
  let w3 := LayerSystem.removeLayer (VNumber 0) w2 in
  LayerSystem.getLayer (VString "sky") (LayerSystem.sys w2) = Some (skyLayer 1)
  /\ LayerSystem.layerNames (LayerSystem.sys w3) !! "sky" = None
  /\ LayerSystem.getLayer (VString "sky") (LayerSystem.sys w3) = None
  /\ LayerSystem.getLayer (VNumber 1) (LayerSystem.sys w3) = Some (skyLayer 1)
  /\ Layer.name (skyLayer 1) = "sky".
Proof.
  intros w1 w2 w3.
  exact (removeLayer_forgets_shared_name "sky" w2 (skyLayer 0) (skyLayer 1)
           ltac:(discriminate) eq_refl eq_refl ltac:(discriminate)
           eq_refl eq_refl eq_refl).
Defined.

(* ------------------------------------------------------------------ *)
(** * dispose                                                          *)
(* ------------------------------------------------------------------ *)

Lemma Layer_dispose_twice (l : Layer.t) (p : Host) :
  Layer.dispose (fst (Layer.dispose l p)) (snd (Layer.dispose l p))
    = Layer.dispose l p.
Proof.
  unfold Layer.dispose. destruct (Layer.framebuffer l) eqn:E; simpl; [reflexivity|].
  rewrite E. reflexivity.
Qed.

Lemma Compositor_dispose_twice (c : Compositor.t) (p : Host) :
  Compositor.dispose (fst (Compositor.dispose c p)) (snd (Compositor.dispose c p))
    = Compositor.dispose c p.
Proof. reflexivity. Qed.

(** The system part of the terminal state: no layer, no active layer,
    no observer, a compositor without buffers or program. *)
Lemma LayerSystem_dispose_sys (w : LayerSystem.World) :
  LayerSystem.layers (LayerSystem.sys (LayerSystem.dispose w)) = []
  /\ LayerSystem.activeLayerId (LayerSystem.sys (LayerSystem.dispose w)) = None
  /\ LayerSystem.ui (LayerSystem.sys (LayerSystem.dispose w)) = None
  /\ LayerSystem.compositor (LayerSystem.sys (LayerSystem.dispose w))
       = Compositor.mk None false None None None.
Proof.
  unfold LayerSystem.dispose.
  set (w1 := match LayerSystem.activeLayerId (LayerSystem.sys w) with
             | Some _ => LayerSystem.end_ w
             | None => w
             end).
  assert (Ha : LayerSystem.activeLayerId (LayerSystem.sys w1) = None).
  { subst w1. destruct (LayerSystem.activeLayerId (LayerSystem.sys w)) eqn:E;
      [|exact E].
    unfold LayerSystem.end_. rewrite E.
    destruct (layers_get z (LayerSystem.layers (LayerSystem.sys w))); [|reflexivity].
    destruct (Layer.end_ t (LayerSystem.host w)).
    destruct (LayerSystem.ui _); reflexivity. }
  destruct (LayerSystem.disposeAll _ _) as [ls p3].
  simpl. repeat split. exact Ha.
Qed.

Lemma LayerSystem_dispose_twice (w : LayerSystem.World) :
  LayerSystem.dispose (LayerSystem.dispose w) = LayerSystem.dispose w.
Proof.
  destruct (LayerSystem_dispose_sys w) as (Hl & Ha & Hu & Hc).
  destruct (LayerSystem.dispose w) as [p s]. simpl in *.
  unfold LayerSystem.dispose. simpl. rewrite Ha. simpl. rewrite Hl. simpl.
  rewrite Hc. simpl.
  destruct s; simpl in *. subst. reflexivity.
Qed.

(** C9.  [dispose()] is idempotent on [Layer], [Compositor] and
    [LayerSystem]: from every state, reachable or not, the second call
    returns (the model of [dispose] has no exceptional result: it calls
    only [remove()] and [end()], which do not fail) and leaves the
    object, the host, the console and the count of live framebuffers
    exactly as the first call left them. *)
Theorem dispose_idempotent :
  (forall (l : Layer.t) (p : Host),
      Layer.dispose (fst (Layer.dispose l p)) (snd (Layer.dispose l p))
        = Layer.dispose l p)
  /\ (forall (c : Compositor.t) (p : Host),
        Compositor.dispose (fst (Compositor.dispose c p)) (snd (Compositor.dispose c p))
          = Compositor.dispose c p)
  /\ (forall w : LayerSystem.World,
        LayerSystem.dispose (LayerSystem.dispose w) = LayerSystem.dispose w).
Proof.
  split; [exact Layer_dispose_twice|].
  split; [exact Compositor_dispose_twice|exact LayerSystem_dispose_twice].
Qed.

(* ------------------------------------------------------------------ *)
(** * Resize propagation                                               *)
(* ------------------------------------------------------------------ *)

Lemma createFramebuffer_size (o : FramebufferOptions) (p : Host) :
  h_width (snd (createFramebuffer o p)) = h_width p
  /\ h_height (snd (createFramebuffer o p)) = h_height p
  /\ h_pixelDensity (snd (createFramebuffer o p)) = h_pixelDensity p.
Proof.
  unfold createFramebuffer. destruct (h_framebufferFaults p) as [|[] ?];
    repeat split.
Qed.

Lemma createFramebuffer_fresh (o : FramebufferOptions) (p : Host) (f : Framebuffer) :
  fst (createFramebuffer o p) = Ok f ->
  f = mkFramebuffer (fo_width o) (fo_height o) (fo_density o) (fo_depth o)
        (fo_antialias o) clearTexture false.
Proof.
  unfold createFramebuffer. destruct (h_framebufferFaults p) as [|[] ?]; simpl;
    congruence.
Qed.

Lemma Layer_resize_spec (l : Layer.t) (p : Host) :
  let r := Layer.resize (h_width p) (h_height p) (Some (h_pixelDensity p)) l p in
  resizedTo (h_width p) (h_height p) (h_pixelDensity p) l (fst r)
  /\ h_width (snd r) = h_width p
  /\ h_height (snd r) = h_height p
  /\ h_pixelDensity (snd r) = h_pixelDensity p.
Proof.
  unfold Layer.resize. cbn [default from_option].
  rewrite !Z.eqb_refl, Qeq_bool_refl. cbn [andb negb].
  set (l1 := Layer.with_size _ _ _ false l).
  set (p1 := match Layer.framebuffer l1 with
             | Some _ => removeFramebuffer p
             | None => p
             end).
  assert (Hp1 : h_width p1 = h_width p /\ h_height p1 = h_height p
                /\ h_pixelDensity p1 = h_pixelDensity p).
  { subst p1. destruct (Layer.framebuffer l1); repeat split. }
  unfold Layer._createFramebuffer.
  set (o := mkFramebufferOptions _ _ _ _ _).
  pose proof (createFramebuffer_size o p1) as (Hw & Hh & Hd).
  pose proof (createFramebuffer_fresh o p1) as Hf.
  destruct (createFramebuffer o p1) as [[f|e] p2]; simpl in *.
  - specialize (Hf f eq_refl). subst f.
    destruct Hp1 as (? & ? & ?).
    repeat split; try congruence. right. reflexivity.
  - destruct Hp1 as (? & ? & ?).
    repeat split; try congruence. left. reflexivity.
Qed.

Lemma resizeSynced_spec (ls : list Layer.t) (p : Host) :
  Forall2
    (fun l l' =>
       if Layer.customSize l then l' = l
       else resizedTo (h_width p) (h_height p) (h_pixelDensity p) l l')
    ls (fst (LayerSystem.resizeSynced (h_width p) (h_height p) (h_pixelDensity p) ls p)).
Proof.
  remember (h_width p) as wd eqn:Hw. remember (h_height p) as ht eqn:Hh.
  remember (h_pixelDensity p) as d eqn:Hd.
  revert p Hw Hh Hd.
  induction ls as [|l rest IH]; intros p Hw Hh Hd; simpl; [constructor|].
  destruct (Layer.customSize l) eqn:Hc; simpl.
  - specialize (IH p Hw Hh Hd).
    destruct (LayerSystem.resizeSynced wd ht d rest p) as [rest' p2]. simpl in *.
    constructor; [rewrite Hc; reflexivity | exact IH].
  - pose proof (Layer_resize_spec l p) as (Hr & Hw1 & Hh1 & Hd1).
    rewrite <- Hw, <- Hh, <- Hd in Hr, Hw1, Hh1, Hd1.
    destruct (Layer.resize wd ht (Some d) l p) as [l' p1]. simpl in *.
    specialize (IH p1 (eq_sym Hw1) (eq_sym Hh1) (eq_sym Hd1)).
    destruct (LayerSystem.resizeSynced wd ht d rest p1) as [rest' p2]. simpl in *.
    constructor; [rewrite Hc; exact Hr | exact IH].
Qed.

(** [Compositor.render] and the observer leave [layers] and the
    last-observed values as [_checkResize] left them. *)
Lemma render_after_checkResize (cb : option (Canvas -> Canvas)) (w : LayerSystem.World) :
  let w1 := if LayerSystem.autoResize (LayerSystem.sys w)
            then LayerSystem._checkResize w else w in
  let w' := snd (LayerSystem.render cb w) in
  LayerSystem.layers (LayerSystem.sys w') = LayerSystem.layers (LayerSystem.sys w1)
  /\ lastObserved (LayerSystem.sys w') = lastObserved (LayerSystem.sys w1).
Proof.
  cbv zeta. unfold LayerSystem.render.
  set (w1 := if LayerSystem.autoResize (LayerSystem.sys w)
             then LayerSystem._checkResize w else w).
  destruct (Compositor.render _ _ _ _) as [[[u|e] c] p]; simpl.
  - destruct (LayerSystem.ui (LayerSystem.sys w1)); split; reflexivity.
  - split; reflexivity.
Qed.



Example resizedWorld_layers :
  map (fun l => (Layer.name l, Layer.customSize l, Layer.width l, Layer.height l))
      (LayerSystem.layers (LayerSystem.sys (snd (LayerSystem.render None resizedWorld))))
  = [("a", false, 1024, 768); ("b", true, 100, 600)].
Proof. reflexivity. Qed.

(* ------------------------------------------------------------------ *)
(** * At most one active layer                                         *)
(* ------------------------------------------------------------------ *)

Section StoreInvariant.

Lemma Inv_pointwise (R : Layer.t -> Layer.t -> Prop) (ls ls' : list Layer.t)
    (a' : option Z) :
  List.NoDup (map Layer.id ls) ->
  Forall2 R ls ls' ->
  (forall x x', In x ls -> R x x' ->
     Layer.id x' = Layer.id x
     /\ (Layer.bound x' = true -> a' = Some (Layer.id x))) ->
  Inv ls' a'.
Proof.
  intros Hnd HF HR.
  assert (Hmap : map Layer.id ls' = map Layer.id ls
                 /\ forall l', In l' ls' -> exists l, In l ls /\ R l l').
  { clear Hnd. induction HF as [|x x' t t' Hx HF IH]; [split; [reflexivity|intros ? []]|].
    destruct IH as [IHm IHi].
    { intros y y' Hy. apply HR. right. exact Hy. }
    split.
    - simpl. f_equal; [apply HR; [left; reflexivity|exact Hx] | exact IHm].
    - intros l' [<-|Hl'].
      + exists x. split; [left; reflexivity|exact Hx].
      + destruct (IHi l' Hl') as (l & Hl & HRl). exists l. split; [right|]; assumption. }
  destruct Hmap as [Hm Hi]. split; [rewrite Hm; exact Hnd|].
  intros l' Hl' Hb. destruct (Hi l' Hl') as (l & Hl & HRl).
  destruct (HR l l' Hl HRl) as [Hid Hbd]. rewrite Hid. auto.
Qed.

Lemma layers_get_None_In (k : Z) (ls : list Layer.t) (x : Layer.t) :
  layers_get k ls = None -> In x ls -> Layer.id x <> k.
Proof.
  induction ls as [|h t IH]; simpl; [intros _ []|].
  destruct (Z.eqb_spec (Layer.id h) k) as [E|E]; [discriminate|].
  intros Hn [<-|Hx]; auto.
Qed.

Lemma layers_get_NoDup_In (ls : list Layer.t) (x : Layer.t) :
  List.NoDup (map Layer.id ls) -> In x ls -> layers_get (Layer.id x) ls = Some x.
Proof.
  induction ls as [|h t IH]; simpl; [intros _ []|].
  intros Hnd [<-|Hx].
  - rewrite Z.eqb_refl. reflexivity.
  - inversion Hnd as [|? ? Hnotin Hnd']; subst.
    destruct (Z.eqb_spec (Layer.id h) (Layer.id x)) as [E|E]; [|auto].
    exfalso. apply Hnotin. rewrite E. apply in_map. exact Hx.
Qed.

Lemma layers_set_pointwise (l l' : Layer.t) (ls : list Layer.t) :
  List.NoDup (map Layer.id ls) ->
  layers_get (Layer.id l') ls = Some l ->
  Forall2 (fun x x' => (x' = x /\ Layer.id x <> Layer.id l') \/ (x = l /\ x' = l'))
    ls (layers_set l' ls).
Proof.
  induction ls as [|h t IH]; simpl; [discriminate|].
  intros Hnd. inversion Hnd as [|? ? Hnotin Hnd']; subst.
  destruct (Z.eqb_spec (Layer.id h) (Layer.id l')) as [E|E].
  - intros [= <-]. constructor; [right; split; reflexivity|].
    clear IH Hnd. induction t as [|y t IHt]; constructor.
    + left. split; [reflexivity|]. intros Hy. apply Hnotin. left. congruence.
    + apply IHt.
      * intros Hin. apply Hnotin. right. exact Hin.
      * inversion Hnd'; assumption.
  - intros Hget. constructor; [left; split; [reflexivity|exact E]|].
    apply IH; assumption.
Qed.

Lemma In_layers_set (x l : Layer.t) (ls : list Layer.t) :
  In x (layers_set l ls) -> x = l \/ In x ls.
Proof.
  induction ls as [|h t IH]; simpl.
  - intros [<-|[]]. left; reflexivity.
  - destruct (Layer.id h =? Layer.id l); simpl; intros [<-|Hx]; auto.
    destruct (IH Hx); auto.
Qed.

Lemma In_map_id_layers_set (k : Z) (l : Layer.t) (ls : list Layer.t) :
  In k (map Layer.id (layers_set l ls)) -> k = Layer.id l \/ In k (map Layer.id ls).
Proof.
  induction ls as [|h t IH]; simpl.
  - intros [<-|[]]. left; reflexivity.
  - destruct (Z.eqb_spec (Layer.id h) (Layer.id l)) as [E|E]; simpl;
      intros [<-|Hx]; auto.
    destruct (IH Hx); auto.
Qed.

Lemma NoDup_layers_set (l : Layer.t) (ls : list Layer.t) :
  List.NoDup (map Layer.id ls) -> List.NoDup (map Layer.id (layers_set l ls)).
Proof.
  induction ls as [|h t IH]; simpl; intros Hnd.
  - constructor; [intros []|constructor].
  - inversion Hnd as [|? ? Hnotin Hnd']; subst.
    destruct (Z.eqb_spec (Layer.id h) (Layer.id l)) as [E|E]; simpl.
    + constructor; [rewrite <- E|]; assumption.
    + constructor; [|auto].
      intros Hin. apply In_map_id_layers_set in Hin. destruct Hin; congruence.
Qed.

Lemma NoDup_layers_delete (k : Z) (ls : list Layer.t) :
  List.NoDup (map Layer.id ls) -> List.NoDup (map Layer.id (layers_delete k ls)).
Proof.
  induction ls as [|h t IH]; simpl; intros Hnd; [constructor|].
  inversion Hnd as [|? ? Hnotin Hnd']; subst.
  destruct (negb (Layer.id h =? k)); simpl; [|auto].
  constructor; [|auto].
  intros Hin. apply Hnotin. apply in_map_iff in Hin. destruct Hin as (y & Hy & Hin).
  apply in_map_iff. exists y. split; [exact Hy|].
  unfold layers_delete in Hin. apply List.filter_In in Hin. tauto.
Qed.

Lemma Inv_unbound (ls : list Layer.t) (l : Layer.t) :
  Inv ls None -> In l ls -> Layer.bound l = false.
Proof.
  intros [_ H] Hl. destruct (Layer.bound l) eqn:E; [|reflexivity].
  specialize (H l Hl E). discriminate.
Qed.

Lemma Forall2_same {A} (R : A -> A -> Prop) (l : list A) :
  (forall x, R x x) -> Forall2 R l l.
Proof. intros H. induction l; constructor; auto. Qed.

(** [end()] keeps the invariant and leaves no layer active. *)
Lemma end_wellFormed (w : LayerSystem.World) :
  wellFormed w ->
  wellFormed (LayerSystem.end_ w)
  /\ LayerSystem.activeLayerId (LayerSystem.sys (LayerSystem.end_ w)) = None.
Proof.
  unfold wellFormed, LayerSystem.end_. destruct w as [p s]; simpl.
  intros [Hnd Hb].
  destruct (LayerSystem.activeLayerId s) as [a|] eqn:Ha; simpl.
  2:{ rewrite Ha. split; [split; assumption|reflexivity]. }
  destruct (layers_get a (LayerSystem.layers s)) as [layer|] eqn:Hget; simpl.
  - destruct (Layer.end_ layer p) as [layer' p1] eqn:Hend.
    assert (Hl' : layer' = fst (Layer.end_ layer p)) by (rewrite Hend; reflexivity).
    assert (Hid : Layer.id layer' = Layer.id layer) by (rewrite Hl'; apply Layer_end_id).
    assert (Hub : Layer.bound layer' = false).
    { rewrite Hl'. unfold Layer.end_, Layer.bound.
      destruct (Layer.framebuffer layer) eqn:Hf; simpl; [reflexivity|].
      rewrite Hf. reflexivity. }
    pose proof (layers_get_id _ _ _ Hget) as Hk.
    assert (HI : Inv (layers_set layer' (LayerSystem.layers s)) None).
    { eapply Inv_pointwise; [exact Hnd| |].
      - apply layers_set_pointwise with (l := layer); [exact Hnd|]. congruence.
      - intros x x' Hx [[-> Hne]|[-> ->]].
        + split; [reflexivity|]. intros Hbx. specialize (Hb x Hx Hbx).
          exfalso. apply Hne. congruence.
        + split; [exact Hid|]. congruence. }
    destruct (LayerSystem.ui s); simpl; (split; [exact HI|reflexivity]).
  - split; [|reflexivity]. split; [exact Hnd|].
    intros l Hl Hbl. specialize (Hb l Hl Hbl).
    exfalso. eapply layers_get_None_In; [exact Hget|exact Hl|]. congruence.
Qed.

Lemma delegate_wellFormed (f : Layer.t -> Layer.t * list Diagnostic) (r : value)
    (w : LayerSystem.World) :
  keepsBuffer f -> wellFormed w -> wellFormed (snd (LayerSystem.delegate f r w)).
Proof.
  intros Hf. unfold wellFormed, LayerSystem.delegate. destruct w as [p s]; simpl.
  intros [Hnd Hb].
  destruct (LayerSystem._getLayerById r s) as [layer|] eqn:Hr; simpl;
    [|split; assumption].
  destruct (f layer) as [layer' ds] eqn:Hfl. simpl.
  destruct (Hf layer) as [Hid Hbd]. rewrite Hfl in Hid, Hbd. simpl in Hid, Hbd.
  assert (Hget : layers_get (Layer.id layer) (LayerSystem.layers s) = Some layer).
  { destruct r; simpl in Hr; try discriminate.
    - pose proof (layers_get_id _ _ _ Hr). congruence.
    - destruct (LayerSystem.layerNames s !! s0); [|discriminate].
      pose proof (layers_get_id _ _ _ Hr). congruence. }
  eapply Inv_pointwise; [exact Hnd| |].
  - apply layers_set_pointwise with (l := layer); [exact Hnd|]. congruence.
  - intros x x' Hx [[-> Hne]|[-> ->]].
    + split; [reflexivity|]. apply Hb. exact Hx.
    + split; [exact Hid|]. rewrite Hbd. apply Hb. exact Hx.
Qed.

Lemma begin_wellFormed (r : value) (w : LayerSystem.World) :
  wellFormed w -> wellFormed (LayerSystem.begin r w).
Proof.
  intros Hw. unfold LayerSystem.begin.
  set (w1 := match LayerSystem.activeLayerId (LayerSystem.sys w) with
             | Some _ => LayerSystem.end_ _
             | None => w
             end).
  assert (H1 : wellFormed w1
               /\ LayerSystem.activeLayerId (LayerSystem.sys w1) = None).
  { subst w1. destruct (LayerSystem.activeLayerId (LayerSystem.sys w)) eqn:Ha.
    - apply end_wellFormed. exact Hw.
    - split; assumption. }
  destruct H1 as [Hw1 Ha1]. clearbody w1. clear Hw w.
  destruct (LayerSystem._getLayerById r (LayerSystem.sys w1)) as [layer|] eqn:Hr;
    [|exact Hw1].
  destruct (Layer.begin layer (LayerSystem.host w1)) as [layer' p1] eqn:Hbeg.
  assert (Hid : Layer.id layer' = Layer.id layer).
  { change layer' with (fst (layer', p1)). rewrite <- Hbeg. apply Layer_begin_id. }
  unfold wellFormed in *. simpl. rewrite Ha1 in Hw1.
  assert (Hget : layers_get (Layer.id layer) (LayerSystem.layers (LayerSystem.sys w1))
                 = Some layer).
  { destruct r; simpl in Hr; try discriminate.
    - pose proof (layers_get_id _ _ _ Hr). congruence.
    - destruct (LayerSystem.layerNames (LayerSystem.sys w1) !! s); [|discriminate].
      pose proof (layers_get_id _ _ _ Hr). congruence. }
  eapply Inv_pointwise; [exact (proj1 Hw1)| |].
  - apply layers_set_pointwise with (l := layer); [exact (proj1 Hw1)|]. congruence.
  - intros x x' Hx [[-> Hne]|[-> ->]].
    + split; [reflexivity|]. intros Hbx.
      rewrite (Inv_unbound _ _ Hw1 Hx) in Hbx. discriminate.
    + split; [exact Hid|]. intros _. congruence.
Qed.

Lemma createLayer_wellFormed (name : string) (options : Layer.Options)
    (w : LayerSystem.World) :
  wellFormed w -> wellFormed (snd (LayerSystem.createLayer name options w)).
Proof.
  unfold wellFormed, LayerSystem.createLayer. destruct w as [p s]; simpl.
  intros [Hnd Hb].
  destruct (Layer.constructor _ _ _ _) as [[layer|e] p1] eqn:Hc; simpl;
    [|split; assumption].
  apply Layer_constructor_Ok in Hc. destruct Hc as (_ & _ & _ & _ & Hub).
  assert (HI : Inv (layers_set layer (LayerSystem.layers s)) (LayerSystem.activeLayerId s)).
  { split; [apply NoDup_layers_set; exact Hnd|].
    intros l Hl Hbl. apply In_layers_set in Hl. destruct Hl as [->|Hl]; [congruence|].
    apply Hb; assumption. }
  destruct (Layer.nameOr name (LayerSystem.layerIdCounter s)); exact HI.
Qed.

Lemma removeLayer_wellFormed (r : value) (w : LayerSystem.World) :
  wellFormed w -> wellFormed (LayerSystem.removeLayer r w).
Proof.
  intros Hw. unfold LayerSystem.removeLayer.
  destruct (LayerSystem._getLayerById r (LayerSystem.sys w)) as [layer|]; [|exact Hw].
  set (w1 := if bool_decide _ then LayerSystem.end_ w else w).
  assert (Hw1 : wellFormed w1).
  { subst w1. destruct (bool_decide _); [apply end_wellFormed|]; exact Hw. }
  clearbody w1. clear Hw. unfold wellFormed in *. destruct Hw1 as [Hnd Hb].
  assert (HI : Inv (layers_delete (Layer.id layer) (LayerSystem.layers (LayerSystem.sys w1)))
                 (LayerSystem.activeLayerId (LayerSystem.sys w1))).
  { split; [apply NoDup_layers_delete; exact Hnd|].
    intros l Hl. apply Hb. unfold layers_delete in Hl.
    apply List.filter_In in Hl. tauto. }
  destruct (Layer.name layer); exact HI.
Qed.

Lemma reorderFrom_Inv (ids : list Z) (index : Z) (ls : list Layer.t) (a : option Z) :
  Inv ls a -> Inv (LayerSystem.reorderFrom index ids ls) a.
Proof.
  revert index ls. induction ids as [|k rest IH]; intros index ls HI; simpl; [exact HI|].
  apply IH. destruct (layers_get k ls) as [l|] eqn:Hget; [|exact HI].
  destruct HI as [Hnd Hb].
  eapply Inv_pointwise; [exact Hnd| |].
  - apply layers_set_pointwise with (l := l); [exact Hnd|].
    simpl. rewrite (layers_get_id _ _ _ Hget). exact Hget.
  - intros x x' Hx [[-> Hne]|[Hxl ->]].
    + split; [reflexivity|]. apply Hb. exact Hx.
    + subst x. split; [reflexivity|]. apply (Hb l Hx).
Qed.

Lemma checkResize_wellFormed (w : LayerSystem.World) :
  wellFormed w -> wellFormed (LayerSystem._checkResize w).
Proof.
  unfold wellFormed, LayerSystem._checkResize. intros [Hnd Hb].
  destruct (_ && _); [split; assumption|].
  pose proof (resizeSynced_spec (LayerSystem.layers (LayerSystem.sys w))
                (LayerSystem.host w)) as HF.
  cbn [LayerSystem.layers LayerSystem.with_lastCanvas].
  destruct (LayerSystem.resizeSynced _ _ _ _ _) as [ls p1]. simpl in *.
  eapply Inv_pointwise; [exact Hnd|exact HF|].
  intros x x' Hx HR. cbv beta in HR. revert HR.
  destruct (Layer.customSize x); intros HR.
  - subst x'. split; [reflexivity|]. apply Hb. exact Hx.
  - destruct HR as [Heq Hfb]. split; [rewrite Heq; reflexivity|].
    unfold Layer.bound. destruct Hfb as [-> | ->]; simpl; discriminate.
Qed.

Lemma render_activeLayerId (cb : option (Canvas -> Canvas)) (w : LayerSystem.World) :
  LayerSystem.activeLayerId (LayerSystem.sys (snd (LayerSystem.render cb w)))
    = LayerSystem.activeLayerId
        (LayerSystem.sys (if LayerSystem.autoResize (LayerSystem.sys w)
                          then LayerSystem._checkResize w else w)).
Proof.
  unfold LayerSystem.render.
  set (w1 := if LayerSystem.autoResize (LayerSystem.sys w)
             then LayerSystem._checkResize w else w).
  destruct (Compositor.render _ _ _ _) as [[[u|e] c] p]; simpl; [|reflexivity].
  destruct (LayerSystem.ui (LayerSystem.sys w1)); reflexivity.
Qed.

Lemma render_wellFormed (cb : option (Canvas -> Canvas)) (w : LayerSystem.World) :
  wellFormed w -> wellFormed (snd (LayerSystem.render cb w)).
Proof.
  intros Hw. unfold wellFormed.
  rewrite render_activeLayerId.
  rewrite (proj1 (render_after_checkResize cb w)).
  destruct (LayerSystem.autoResize (LayerSystem.sys w));
    [apply checkResize_wellFormed|]; exact Hw.
Qed.

Lemma userDraw_wellFormed (t : Texture) (w : LayerSystem.World) :
  wellFormed w -> wellFormed (userDraw t w).
Proof.
  unfold wellFormed, userDraw. intros [Hnd Hb].
  destruct (existsb _ _); simpl; [|split; assumption].
  match goal with |- Inv (map ?g _) _ => set (G := g) end.
  apply Inv_pointwise with (R := fun x x' => x' = G x)
                           (ls := LayerSystem.layers (LayerSystem.sys w));
    [exact Hnd| |].
  - clear. induction (LayerSystem.layers (LayerSystem.sys w)); constructor; auto.
  - intros x x' Hx ->. subst G. cbv beta. unfold Layer.bound in *.
    destruct (Layer.framebuffer x) as [f|] eqn:Hf; [|split; [reflexivity|]].
    + destruct (fb_bound f) eqn:Hbf; simpl.
      * split; [reflexivity|]. intros _. apply Hb; [exact Hx|]. rewrite Hf. exact Hbf.
      * rewrite Hf. split; [reflexivity|]. congruence.
    + rewrite Hf. discriminate.
Qed.

Lemma step_wellFormed (op : Op) (w : LayerSystem.World) :
  wellFormed w -> wellFormed (step op w).
Proof.
  intros Hw. destruct op; cbn [step]; try exact Hw.
  - apply createLayer_wellFormed, Hw.
  - apply removeLayer_wellFormed, Hw.
  - apply begin_wellFormed, Hw.
  - apply end_wellFormed, Hw.
  - apply delegate_wellFormed; [intros l; split; reflexivity|exact Hw].
  - apply delegate_wellFormed; [intros l; split; reflexivity|exact Hw].
  - apply delegate_wellFormed; [intros l; split; reflexivity|exact Hw].
  - apply delegate_wellFormed; [|exact Hw].
    intros l. unfold Layer.setBlendMode. destruct (negb _); split; reflexivity.
  - apply delegate_wellFormed; [intros l; split; reflexivity|exact Hw].
  - apply delegate_wellFormed; [intros l; split; reflexivity|exact Hw].
  - apply reorderFrom_Inv, Hw.
  - apply delegate_wellFormed; [|exact Hw].
    intros l. unfold Layer.setMask. destruct maskSource; split; reflexivity.
  - apply delegate_wellFormed; [intros l; split; reflexivity|exact Hw].
  - apply render_wellFormed, Hw.
  - unfold wellFormed, LayerSystem.updateUI. simpl.
    destruct (LayerSystem.ui (LayerSystem.sys w)); exact Hw.
  - unfold wellFormed. destruct (LayerSystem_dispose_sys w) as (-> & _).
    split; [constructor|intros ? []].
  - apply userDraw_wellFormed, Hw.
Qed.

Lemma reachable_wellFormed (w : LayerSystem.World) : reachable w -> wellFormed w.
Proof.
  induction 1 as [p s Hs|op w _ IH]; [|apply step_wellFormed, IH].
  unfold LayerSystem.constructor in Hs. destruct (negb (h_webgl p)); [discriminate|].
  injection Hs as <-. split; [constructor|intros ? []].
Qed.



Lemma reachable_run (ops : list Op) (w : LayerSystem.World) :
  reachable w -> reachable (run ops w).
Proof.
  revert w. induction ops as [|op rest IH]; intros w Hw; [exact Hw|].
  apply IH. apply reachable_step. exact Hw.
Qed.

Lemma reachable_demoWorld : reachable demoWorld.
Proof. apply (reachable_new demoHost demoSystem). reflexivity. Qed.

End StoreInvariant.

(* ------------------------------------------------------------------ *)
(** * begin(A) then begin(B)                                           *)
(* ------------------------------------------------------------------ *)

Section BeginBegin.


Lemma evolves_trans (l1 l2 l3 : Layer.t) :
  evolves l1 l2 -> evolves l2 l3 -> evolves l1 l3.
Proof.
  intros (Hi & Hd & Hf) (Hi' & Hd' & Hf'). repeat split.
  - congruence.
  - auto.
  - intros H. apply Hf', Hf, H.
  - intros H. apply Hf, Hf', H.
Qed.




Lemma getLayerById_key (r : value) (s : LayerSystem.t) (l : Layer.t) :
  LayerSystem._getLayerById r s = Some l ->
  layers_get (Layer.id l) (LayerSystem.layers s) = Some l.
Proof.
  destruct r; simpl; try discriminate.
  - intros H. pose proof (layers_get_id _ _ _ H). congruence.
  - destruct (LayerSystem.layerNames s !! s0); [|discriminate].
    intros H. pose proof (layers_get_id _ _ _ H). congruence.
Qed.











End BeginBegin.


Example one_active_layer_run :
  let w2 := LayerSystem.begin (VString "b") (LayerSystem.begin (VString "a") twoLayers) in
  map (fun l => (Layer.name l, Layer.hasBeenDrawnTo l, Layer.bound l))
      (LayerSystem.layers (LayerSystem.sys w2))
    = [("a", true, false); ("b", false, true)]
  /\ h_console (LayerSystem.host w2)
       = [Warn "Layer is already active. Ending it first."].
Proof. split; reflexivity. Qed.


(* ------------------------------------------------------------------ *)
(** * The stable sort                                                  *)
(* ------------------------------------------------------------------ *)

Section Sorting.

Lemma insertByZIndex_head (x : Layer.t) (s : list Layer.t) :
  Forall (zLe x) s -> insertByZIndex x s = x :: s.
Proof.
  destruct s as [|h t]; [reflexivity|]. intros HF. simpl.
  inversion HF as [|? ? Hh _]; subst. unfold zLe in Hh.
  destruct (Z.leb_spec (Layer.zIndex x) (Layer.zIndex h)); [reflexivity|lia].
Qed.

Lemma insertByZIndex_In (x y : Layer.t) (s : list Layer.t) :
  In y (insertByZIndex x s) <-> y = x \/ In y s.
Proof.
  induction s as [|h t IH]; simpl; [intuition congruence|].
  destruct (Layer.zIndex x <=? Layer.zIndex h); simpl; [intuition congruence|].
  rewrite IH. intuition congruence.
Qed.

Lemma insertByZIndex_sorted (x : Layer.t) (s : list Layer.t) :
  StronglySorted zLe s -> StronglySorted zLe (insertByZIndex x s).
Proof.
  induction 1 as [|h t Hs IH Hh]; simpl; [repeat constructor|].
  destruct (Z.leb_spec (Layer.zIndex x) (Layer.zIndex h)) as [Hle|Hgt].
  - constructor; [constructor; assumption|].
    constructor; [exact Hle|].
    eapply List.Forall_impl; [|exact Hh]. unfold zLe. intros; lia.
  - constructor; [exact IH|].
    apply List.Forall_forall. intros y Hy. apply insertByZIndex_In in Hy.
    destruct Hy as [->|Hy]; [unfold zLe; lia|].
    rewrite List.Forall_forall in Hh. apply Hh, Hy.
Qed.

Lemma sortByZIndex_sorted (ls : list Layer.t) : StronglySorted zLe (sortByZIndex ls).
Proof.
  induction ls as [|h t IH]; simpl; [constructor|].
  apply insertByZIndex_sorted, IH.
Qed.


Lemma filter_insertByZIndex (f : Layer.t -> bool) (x : Layer.t) (s : list Layer.t) :
  StronglySorted zLe s ->
  List.filter f (insertByZIndex x s)
    = if f x then insertByZIndex x (List.filter f s) else List.filter f s.
Proof.
  induction 1 as [|h t Hs IH Hh]; simpl; [destruct (f x); reflexivity|].
  destruct (Z.leb_spec (Layer.zIndex x) (Layer.zIndex h)) as [Hle|Hgt]; simpl.
  - destruct (f x) eqn:Hfx; [|reflexivity].
    symmetry. apply insertByZIndex_head.
    assert (HF : Forall (zLe x) (h :: t)).
    { constructor; [exact Hle|].
      eapply List.Forall_impl; [|exact Hh]. unfold zLe. intros; lia. }
    apply List.Forall_forall. intros y Hy.
    rewrite List.Forall_forall in HF. apply HF.
    change (In y (List.filter f (h :: t))) in Hy.
    apply List.filter_In in Hy. tauto.
  - rewrite IH. destruct (f h) eqn:Hfh, (f x) eqn:Hfx; simpl; try reflexivity.
    destruct (Z.leb_spec (Layer.zIndex x) (Layer.zIndex h)); [lia|reflexivity].
Qed.

(** Sorting commutes with dropping layers: the order of the layers
    that remain does not depend on those that are dropped. *)
Lemma sortByZIndex_filter (f : Layer.t -> bool) (ls : list Layer.t) :
  sortByZIndex (List.filter f ls) = List.filter f (sortByZIndex ls).
Proof.
  induction ls as [|h t IH]; simpl; [reflexivity|].
  rewrite filter_insertByZIndex by apply sortByZIndex_sorted.
  destruct (f h); simpl; rewrite IH; reflexivity.
Qed.

(** Stability: layers with equal zIndex keep their relative order. *)
Lemma sortByZIndex_stable (k : Z) (ls : list Layer.t) :
  List.filter (fun l => Layer.zIndex l =? k) (sortByZIndex ls)
    = List.filter (fun l => Layer.zIndex l =? k) ls.
Proof.
  rewrite <- sortByZIndex_filter.
  induction ls as [|h t IH]; simpl; [reflexivity|].
  destruct (Z.eqb_spec (Layer.zIndex h) k) as [E|E]; simpl; [|exact IH].
  rewrite IH. apply insertByZIndex_head.
  apply List.Forall_forall. intros y Hy. apply List.filter_In in Hy.
  destruct Hy as [_ Hy]. apply Z.eqb_eq in Hy. unfold zLe. lia.
Qed.

End Sorting.

(* ------------------------------------------------------------------ *)
(** * Compositor.render is the fold                                    *)
(* ------------------------------------------------------------------ *)

Section RenderFold.





Lemma getBuffer_setBuffer_eq (s : Compositor.Slot) (f : option Framebuffer)
    (c : Compositor.t) :
  Compositor.getBuffer s (Compositor.setBuffer s f c) = f.
Proof. destruct s; reflexivity. Qed.

Lemma getBuffer_setBuffer_ne (s s' : Compositor.Slot) (f : option Framebuffer)
    (c : Compositor.t) :
  s <> s' -> Compositor.getBuffer s (Compositor.setBuffer s' f c) = Compositor.getBuffer s c.
Proof. destruct s, s'; intros H; try reflexivity; congruence. Qed.


Lemma getBuffer_ext (s : Compositor.Slot) (c c' : Compositor.t) :
  Compositor.bufferA c' = Compositor.bufferA c ->
  Compositor.bufferB c' = Compositor.bufferB c ->
  Compositor.getBuffer s c' = Compositor.getBuffer s c.
Proof. destruct s; simpl; auto. Qed.






End RenderFold.


(** The end-to-end scenario: red, then white multiplied in at half
    opacity, then blue screened on top, gives opaque magenta; three
    swaps leave the result in buffer B. *)
Example scenario_pixel :
  map Layer.name (sortByZIndex scenario) = ["red"; "white"; "blue"]
  /\ finalSlot (sortByZIndex scenario) = Compositor.SlotB
  /\ vec4_eq (composite demoSqrt scenario (0, 0)%Q) (mkVec4 1 0 1 1)
  /\ vec4_eq
       (lastImage (snd (Compositor.render scenario None Compositor.constructor demoHost))
          (0, 0)%Q)
       (mkVec4 1 0 1 1).
Proof. vm_compute. repeat split; reflexivity. Qed.

(** Render order: layers with zIndex 5, 1, 3 come out as 1, 3, 5. *)
Example getLayers_order :
  map Layer.zIndex
    (LayerSystem.getLayers
       (LayerSystem.sys
          (run [OpCreateLayer "x" Layer.noOptions; OpCreateLayer "y" Layer.noOptions;
                OpCreateLayer "z" Layer.noOptions;
                OpSetLayerIndex (VString "x") 5; OpSetLayerIndex (VString "y") 1;
                OpSetLayerIndex (VString "z") 3] demoWorld)))
  = [1; 3; 5].
Proof. reflexivity. Qed.


(* ------------------------------------------------------------------ *)
(** * The render path when the host fails                              *)
(* ------------------------------------------------------------------ *)

Section RenderFailures.

(** With both buffers in place the loop of [render] runs to its end,
    whatever the layers and whether or not the program compiles. *)
Lemma renderLoop_returns (sorted : list Layer.t) :
  forall (current next : Compositor.Slot) (c : Compositor.t) (p : Host),
    current <> next ->
    Compositor.getBuffer current c <> None ->
    Compositor.getBuffer next c <> None ->
    exists final c' p',
      Compositor.renderLoop sorted current next c p = (Ok final, c', p')
      /\ Compositor.getBuffer final c' <> None.
Proof.
  induction sorted as [|layer rest IH]; intros current next c p Hne Hcur Hnext.
  - exists current, c, p. split; [reflexivity|exact Hcur].
  - cbn [Compositor.renderLoop].
    destruct (negb (Layer.visible layer) || Qle_bool (Layer.opacity layer) 0);
      [apply IH; assumption|].
    destruct (Compositor.getBuffer next c) as [nb|] eqn:Hn; [|congruence].
    destruct (Compositor.getBuffer current c) as [cb|] eqn:Hc; [|congruence].
    destruct (Compositor._renderLayer layer cb c p) as [[drawn c1] p1] eqn:Hr.
    assert (Hbufs : Compositor.bufferA c1 = Compositor.bufferA c
                    /\ Compositor.bufferB c1 = Compositor.bufferB c).
    { unfold Compositor._renderLayer, Compositor._ensureShader in Hr.
      destruct (negb (Layer.visible layer) || Qle_bool (Layer.opacity layer) 0);
        [injection Hr as <- <- <-; split; reflexivity|].
      destruct (Layer.framebuffer layer);
        [|injection Hr as <- <- <-; split; reflexivity].
      destruct (negb (Compositor.shaderLoaded c)).
      - destruct (createShader p) as [[s|e] p'].
        + destruct (getBlendModeIndex _). injection Hr as <- <- <-. split; reflexivity.
        + destruct (Compositor.shader c);
            [destruct (getBlendModeIndex _)|];
            injection Hr as <- <- <-; split; reflexivity.
      - destruct (Compositor.shader c);
          [destruct (getBlendModeIndex _)|];
          injection Hr as <- <- <-; split; reflexivity. }
    destruct Hbufs as [HA HB].
    apply IH.
    + congruence.
    + rewrite getBuffer_setBuffer_eq. discriminate.
    + rewrite getBuffer_setBuffer_ne by assumption.
      rewrite (getBuffer_ext current c c1 HA HB), Hc. discriminate.
Qed.

(** [Compositor.render] throws only out of [_ensureBuffers]: once the
    two buffers are there, it returns. *)
Lemma render_returns (layers : list Layer.t)
    (clearCallback : option (Canvas -> Canvas)) (c : Compositor.t) (p : Host) :
  buffersReady c p = true ->
  returned (fst (fst (Compositor.render layers clearCallback c p))) = true.
Proof.
  unfold buffersReady, Compositor.render. intros Hbuf.
  destruct (Compositor._ensureBuffers c p) as [[[u|e] c0] p0]; [|discriminate].
  destruct (Compositor.bufferA c0) as [a|] eqn:HA; [|discriminate].
  destruct (Compositor.bufferB c0) as [b|] eqn:HB; [|discriminate].
  cbn [Compositor.getBuffer]. rewrite HA.
  match goal with
  | |- context [Compositor.renderLoop ?s ?x ?y ?c1 ?q] =>
      destruct (renderLoop_returns s x y c1 q) as (final & c' & p' & -> & Hf)
  end.
  - discriminate.
  - simpl. discriminate.
  - simpl. rewrite HB. discriminate.
  - destruct (Compositor.getBuffer final c'); [reflexivity|congruence].
Qed.

(** C3, on the code.  (a) When the host refuses the first ping-pong
    buffer, [LayerSystem.render] throws the host's exception: the
    allocation in [_ensureBuffers] is not guarded, nothing is logged.
    When it refuses the second, [render] throws as well and every
    later frame throws a [TypeError], the compositor being left with
    one buffer.  (b) When a layer lost its buffer in a failed resize,
    the frame completes, but the layer is not treated as invisible:
    its pass clears the accumulator, so the red layer below it is
    missing from the frame. *)
Theorem render_path_failures :
  (reachable starvedWorld
   /\ fst (LayerSystem.render None starvedWorld) = Throw (HostFailure "createFramebuffer")
   /\ h_console (LayerSystem.host (snd (LayerSystem.render None starvedWorld))) = [])
  /\ (let w := run [OpCreateLayer "a" Layer.noOptions; HostFaults [false; true] []]
                   demoWorld in
      fst (LayerSystem.render None w) = Throw (HostFailure "createFramebuffer")
      /\ fst (LayerSystem.render None (snd (LayerSystem.render None w)))
           = Throw (TypeError "this.bufferB is null"))
  /\ (reachable lostBufferWorld
      /\ map (fun l => (Layer.name l, contributes l,
                        bool_decide (Layer.framebuffer l = None)))
             (LayerSystem.layers (LayerSystem.sys lostBufferWorld))
           = [("a", true, false); ("b", true, true)]
      /\ fst (LayerSystem.render None lostBufferWorld) = Ok tt
      /\ lastImage (LayerSystem.host (snd (LayerSystem.render None lostBufferWorld)))
           (0, 0)%Q = transparent
      /\ vec4_eq
           (composite demoSqrt
              (List.filter (fun l => negb (String.eqb (Layer.name l) "b"))
                 (LayerSystem.layers (LayerSystem.sys lostBufferWorld)))
              (0, 0)%Q)
           (mkVec4 1 0 0 1)).
Proof.
  split; [|split].
  - split; [|split; reflexivity].
    apply reachable_run, reachable_demoWorld.
  - split; reflexivity.
  - split; [|repeat split; vm_compute; reflexivity].
    apply reachable_run, reachable_demoWorld.
Qed.

End RenderFailures.

(* ------------------------------------------------------------------ *)
(** * Properties every stored layer keeps                              *)
(* ------------------------------------------------------------------ *)

Section LayerInvariant.

(** A property of layer objects that the constructor establishes and
    no assignment of the [Layer] methods destroys. *)
Variable P : Layer.t -> Prop.
Hypothesis P_constructor :
  forall p id name options l p',
    Layer.constructor p id name options = (Ok l, p') -> P l.
Hypothesis P_visible : forall v l, P l -> P (Layer.with_visible v l).
Hypothesis P_opacity : forall v l, P l -> P (Layer.setOpacity v l).
Hypothesis P_blendMode : forall v l, P l -> P (Layer.with_blendMode v l).
Hypothesis P_zIndex : forall v l, P l -> P (Layer.with_zIndex v l).
Hypothesis P_size : forall w h d c l, P l -> P (Layer.with_size w h d c l).
Hypothesis P_mask : forall v l, P l -> P (Layer.with_mask v l).
Hypothesis P_drawn : forall v l, P l -> P (Layer.with_hasBeenDrawnTo v l).
Hypothesis P_framebuffer : forall v l, P l -> P (Layer.with_framebuffer v l).

Lemma P_layers_set (l : Layer.t) (ls : list Layer.t) :
  P l -> List.Forall P ls -> List.Forall P (layers_set l ls).
Proof.
  intros Hl HF. apply List.Forall_forall. intros x Hx.
  apply In_layers_set in Hx. destruct Hx as [->|Hx]; [exact Hl|].
  rewrite List.Forall_forall in HF. apply HF, Hx.
Qed.

Lemma P_end (l : Layer.t) (p : Host) : P l -> P (fst (Layer.end_ l p)).
Proof.
  intros Hl. unfold Layer.end_. destruct (Layer.framebuffer l); simpl; auto.
Qed.

Lemma P_begin (l : Layer.t) (p : Host) : P l -> P (fst (Layer.begin l p)).
Proof.
  intros Hl. unfold Layer.begin. destruct (Layer.framebuffer l); simpl; auto.
Qed.

Lemma P_resize (w h : Z) (d : option Q) (l : Layer.t) (p : Host) :
  P l -> P (fst (Layer.resize w h d l p)).
Proof.
  intros Hl. unfold Layer.resize.
  destruct (Layer._createFramebuffer _ _) as [fb p2]. simpl. auto.
Qed.

Lemma P_get (k : Z) (ls : list Layer.t) (l : Layer.t) :
  List.Forall P ls -> layers_get k ls = Some l -> P l.
Proof.
  intros HF Hget. rewrite List.Forall_forall in HF.
  apply HF. eapply layers_get_In, Hget.
Qed.

Lemma P_resolved (r : value) (s : LayerSystem.t) (l : Layer.t) :
  List.Forall P (LayerSystem.layers s) ->
  LayerSystem._getLayerById r s = Some l -> P l.
Proof.
  intros HF Hr. apply getLayerById_key in Hr. eapply P_get; eassumption.
Qed.

Lemma P_end_world (w : LayerSystem.World) :
  List.Forall P (LayerSystem.layers (LayerSystem.sys w)) ->
  List.Forall P (LayerSystem.layers (LayerSystem.sys (LayerSystem.end_ w))).
Proof.
  intros HF. unfold LayerSystem.end_.
  destruct (LayerSystem.activeLayerId (LayerSystem.sys w)) as [a|]; [|exact HF].
  destruct (layers_get a (LayerSystem.layers (LayerSystem.sys w))) as [l|] eqn:Hget;
    [|exact HF].
  pose proof (P_end l (LayerSystem.host w) (P_get _ _ _ HF Hget)) as Hl.
  destruct (Layer.end_ l (LayerSystem.host w)) as [l' p1]. simpl in *.
  destruct (LayerSystem.ui (LayerSystem.sys w)); simpl; apply P_layers_set; assumption.
Qed.

Lemma P_delegate (f : Layer.t -> Layer.t * list Diagnostic) (r : value)
    (w : LayerSystem.World) :
  (forall l, P l -> P (fst (f l))) ->
  List.Forall P (LayerSystem.layers (LayerSystem.sys w)) ->
  List.Forall P
    (LayerSystem.layers (LayerSystem.sys (snd (LayerSystem.delegate f r w)))).
Proof.
  intros Hf HF. unfold LayerSystem.delegate.
  destruct (LayerSystem._getLayerById r (LayerSystem.sys w)) as [l|] eqn:Hr;
    [|exact HF].
  pose proof (Hf l (P_resolved _ _ _ HF Hr)) as Hl.
  destruct (f l) as [l' ds]. simpl in *. apply P_layers_set; assumption.
Qed.

Lemma P_resizeSynced (wd ht : Z) (d : Q) (ls : list Layer.t) (p : Host) :
  List.Forall P ls ->
  List.Forall P (fst (LayerSystem.resizeSynced wd ht d ls p)).
Proof.
  revert p. induction ls as [|l rest IH]; intros p HF; simpl; [constructor|].
  inversion HF as [|? ? Hl Hrest]; subst.
  destruct (negb (Layer.customSize l)).
  - pose proof (P_resize wd ht (Some d) l p Hl) as Hl'.
    destruct (Layer.resize wd ht (Some d) l p) as [l' p1]. simpl in *.
    specialize (IH p1 Hrest).
    destruct (LayerSystem.resizeSynced wd ht d rest p1). simpl in *.
    constructor; assumption.
  - specialize (IH p Hrest).
    destruct (LayerSystem.resizeSynced wd ht d rest p). simpl in *.
    constructor; assumption.
Qed.

Lemma P_reorderFrom (ids : list Z) (index : Z) (ls : list Layer.t) :
  List.Forall P ls -> List.Forall P (LayerSystem.reorderFrom index ids ls).
Proof.
  revert index ls. induction ids as [|k rest IH]; intros index ls HF; simpl;
    [exact HF|].
  apply IH. destruct (layers_get k ls) as [l|] eqn:Hget; [|exact HF].
  apply P_layers_set; [|exact HF]. apply P_zIndex. eapply P_get; eassumption.
Qed.

(** Every operation but [createLayer] only changes or drops layers
    that are already stored. *)
Lemma P_step_stored (op : Op) (w : LayerSystem.World) :
  isCreateLayer op = false ->
  List.Forall P (LayerSystem.layers (LayerSystem.sys w)) ->
  List.Forall P (LayerSystem.layers (LayerSystem.sys (step op w))).
Proof.
  intros Hop HF. destruct op; cbn [step]; try exact HF.
  - discriminate Hop.
  - (* removeLayer *)
    unfold LayerSystem.removeLayer.
    destruct (LayerSystem._getLayerById r (LayerSystem.sys w)) as [l|]; [|exact HF].
    set (w1 := if bool_decide _ then LayerSystem.end_ w else w).
    assert (H1 : List.Forall P (LayerSystem.layers (LayerSystem.sys w1))).
    { subst w1. destruct (bool_decide _); [apply P_end_world|]; exact HF. }
    assert (H2 : List.Forall P
                   (layers_delete (Layer.id l) (LayerSystem.layers (LayerSystem.sys w1)))).
    { apply List.Forall_forall. intros x Hx. unfold layers_delete in Hx.
      apply List.filter_In in Hx. rewrite List.Forall_forall in H1. apply H1, Hx. }
    destruct (Layer.name l); exact H2.
  - (* begin *)
    unfold LayerSystem.begin.
    set (w1 := match LayerSystem.activeLayerId (LayerSystem.sys w) with
               | Some _ => LayerSystem.end_ _
               | None => w
               end).
    assert (H1 : List.Forall P (LayerSystem.layers (LayerSystem.sys w1))).
    { subst w1. destruct (LayerSystem.activeLayerId (LayerSystem.sys w));
        [apply P_end_world|]; exact HF. }
    destruct (LayerSystem._getLayerById r (LayerSystem.sys w1)) as [l|] eqn:Hr;
      [|exact H1].
    pose proof (P_begin l (LayerSystem.host w1) (P_resolved _ _ _ H1 Hr)) as Hl.
    destruct (Layer.begin l (LayerSystem.host w1)) as [l' p1]. simpl in *.
    apply P_layers_set; assumption.
  - apply P_end_world, HF.
  - apply P_delegate; [intros l Hl; apply P_visible, Hl|exact HF].
  - apply P_delegate; [intros l Hl; apply P_visible, Hl|exact HF].
  - apply P_delegate; [intros l Hl; apply P_opacity, Hl|exact HF].
  - apply P_delegate; [|exact HF]. intros l Hl. unfold Layer.setBlendMode.
    destruct (negb _); simpl; apply P_blendMode, Hl.
  - apply P_delegate; [intros l Hl; apply P_zIndex, Hl|exact HF].
  - apply P_delegate; [intros l Hl; apply P_zIndex, Hl|exact HF].
  - apply P_reorderFrom, HF.
  - apply P_delegate; [|exact HF]. intros l Hl. unfold Layer.setMask.
    destruct maskSource; simpl; [apply P_mask|]; exact Hl.
  - apply P_delegate; [intros l Hl; apply P_mask, Hl|exact HF].
  - (* render *)
    rewrite (proj1 (render_after_checkResize clearCallback w)).
    destruct (LayerSystem.autoResize (LayerSystem.sys w)); [|exact HF].
    unfold LayerSystem._checkResize. destruct (_ && _); [exact HF|].
    cbn [LayerSystem.layers LayerSystem.with_lastCanvas].
    match goal with
    | |- context [LayerSystem.resizeSynced ?a ?b ?c ?ls ?p] =>
        pose proof (P_resizeSynced a b c ls p HF) as H1;
        destruct (LayerSystem.resizeSynced a b c ls p)
    end. exact H1.
  - (* updateUI *)
    unfold LayerSystem.updateUI. simpl.
    destruct (LayerSystem.ui (LayerSystem.sys w)); exact HF.
  - (* dispose *)
    destruct (LayerSystem_dispose_sys w) as (-> & _). constructor.
  - (* userDraw *)
    unfold userDraw. destruct (existsb _ _); simpl; [|exact HF].
    apply List.Forall_forall. intros x Hx. apply in_map_iff in Hx.
    destruct Hx as (l & <- & Hl). rewrite List.Forall_forall in HF.
    specialize (HF l Hl). destruct (Layer.framebuffer l) as [f|]; [|exact HF].
    destruct (fb_bound f); [apply P_framebuffer|]; exact HF.
Qed.



End LayerInvariant.

(* ------------------------------------------------------------------ *)
(** * Opacity                                                          *)
(* ------------------------------------------------------------------ *)

Section Opacity.
Local Open Scope Q_scope.

Lemma clampOpacity_cases (v : Q) :
  (0 <= v <= 1 /\ Layer._clampOpacity v == v)
  \/ (v < 0 /\ Layer._clampOpacity v == 0)
  \/ (1 < v /\ Layer._clampOpacity v == 1).
Proof.
  unfold Layer._clampOpacity.
  destruct (Qlt_le_dec v 0) as [Hneg|Hpos].
  - right. left. split; [exact Hneg|].
    rewrite (Q.min_r 1 v) by lra. apply Q.max_l. lra.
  - destruct (Qlt_le_dec 1 v) as [Hbig|Hsmall].
    + right. right. split; [exact Hbig|].
      rewrite (Q.min_l 1 v) by lra. apply Q.max_r. lra.
    + left. split; [lra|].
      rewrite (Q.min_r 1 v) by lra. apply Q.max_r. exact Hpos.
Qed.

Lemma clampOpacity_range (v : Q) : 0 <= Layer._clampOpacity v <= 1.
Proof. destruct (clampOpacity_cases v) as [[H E]|[[H E]|[H E]]]; rewrite E; lra. Qed.

(** X1.  [setOpacity] stores the value clamped to the unit interval: a value
    inside it is stored as given, a negative one as 0, one above 1 as
    1; no other field of the layer changes. *)
Theorem setOpacity_clamps (v : Q) (l : Layer.t) :
  let l' := Layer.setOpacity v l in
  0 <= Layer.opacity l' <= 1
  /\ ((0 <= v <= 1 /\ Layer.opacity l' == v)
      \/ (v < 0 /\ Layer.opacity l' == 0)
      \/ (1 < v /\ Layer.opacity l' == 1))
  /\ Layer.with_opacity (Layer.opacity l) l' = l.
Proof.
  cbv zeta. split; [apply clampOpacity_range|]. split; [apply clampOpacity_cases|].
  destruct l; reflexivity.
Qed.


End Opacity.


(* ------------------------------------------------------------------ *)
(** * Ids and names                                                    *)
(* ------------------------------------------------------------------ *)

Section Registry.

Lemma end_registry (w : LayerSystem.World) :
  registry (LayerSystem.sys (LayerSystem.end_ w)) = registry (LayerSystem.sys w).
Proof.
  unfold LayerSystem.end_, registry. destruct w as [p s]; simpl.
  destruct (LayerSystem.activeLayerId s) as [a|]; [|reflexivity].
  destruct (layers_get a (LayerSystem.layers s)) as [l|]; [|reflexivity].
  destruct (Layer.end_ l p). simpl.
  destruct (LayerSystem.ui s); reflexivity.
Qed.

Lemma delegate_registry (f : Layer.t -> Layer.t * list Diagnostic) (r : value)
    (w : LayerSystem.World) :
  registry (LayerSystem.sys (snd (LayerSystem.delegate f r w)))
    = registry (LayerSystem.sys w).
Proof.
  unfold LayerSystem.delegate.
  destruct (LayerSystem._getLayerById r (LayerSystem.sys w)) as [l|]; [|reflexivity].
  destruct (f l). reflexivity.
Qed.

Lemma render_registry (cb : option (Canvas -> Canvas)) (w : LayerSystem.World) :
  registry (LayerSystem.sys (snd (LayerSystem.render cb w)))
    = registry (LayerSystem.sys w).
Proof.
  unfold LayerSystem.render.
  set (w1 := if LayerSystem.autoResize (LayerSystem.sys w)
             then LayerSystem._checkResize w else w).
  assert (H1 : registry (LayerSystem.sys w1) = registry (LayerSystem.sys w)).
  { subst w1. destruct (LayerSystem.autoResize (LayerSystem.sys w)); [|reflexivity].
    unfold LayerSystem._checkResize. destruct (_ && _); [reflexivity|].
    destruct (LayerSystem.resizeSynced _ _ _ _ _). reflexivity. }
  destruct (Compositor.render _ _ _ _) as [[[u|e] c] p]; simpl; [|exact H1].
  destruct (LayerSystem.ui (LayerSystem.sys w1)); exact H1.
Qed.

Lemma dispose_registry (w : LayerSystem.World) :
  registry (LayerSystem.sys (LayerSystem.dispose w)) = registry (LayerSystem.sys w).
Proof.
  unfold LayerSystem.dispose.
  set (w1 := match LayerSystem.activeLayerId (LayerSystem.sys w) with
             | Some _ => LayerSystem.end_ w
             | None => w
             end).
  assert (H1 : registry (LayerSystem.sys w1) = registry (LayerSystem.sys w)).
  { subst w1. destruct (LayerSystem.activeLayerId (LayerSystem.sys w));
      [apply end_registry|reflexivity]. }
  destruct (LayerSystem.disposeAll _ _). exact H1.
Qed.

(** Only [createLayer] and [removeLayer] touch the name map or the id
    counter. *)
Lemma step_registry (op : Op) (w : LayerSystem.World) :
  isCreateLayer op = false -> isRemoveLayer op = false ->
  registry (LayerSystem.sys (step op w)) = registry (LayerSystem.sys w).
Proof.
  intros Hc Hr. destruct op; try discriminate; cbn [step]; try reflexivity.
  - unfold LayerSystem.begin.
    set (w1 := match LayerSystem.activeLayerId (LayerSystem.sys w) with
               | Some _ => LayerSystem.end_ _
               | None => w
               end).
    assert (H1 : registry (LayerSystem.sys w1) = registry (LayerSystem.sys w)).
    { subst w1. destruct (LayerSystem.activeLayerId (LayerSystem.sys w));
        [apply (end_registry (LayerSystem.onHost _ w))|reflexivity]. }
    destruct (LayerSystem._getLayerById r (LayerSystem.sys w1)) as [l|]; [|exact H1].
    destruct (Layer.begin l (LayerSystem.host w1)). exact H1.
  - apply end_registry.
  - apply delegate_registry.
  - apply delegate_registry.
  - apply delegate_registry.
  - apply delegate_registry.
  - apply delegate_registry.
  - apply delegate_registry.
  - apply delegate_registry.
  - apply delegate_registry.
  - apply render_registry.
  - unfold LayerSystem.updateUI. simpl.
    destruct (LayerSystem.ui (LayerSystem.sys w)); reflexivity.
  - apply dispose_registry.
  - unfold userDraw. destruct (existsb _ _); reflexivity.
Qed.

(** Every operation but [createLayer] leaves each stored layer its id
    and its name. *)
Lemma step_sameIdentity (op : Op) (w : LayerSystem.World) :
  isCreateLayer op = false ->
  forall l', In l' (LayerSystem.layers (LayerSystem.sys (step op w))) ->
    exists l, In l (LayerSystem.layers (LayerSystem.sys w)) /\ sameIdentity l l'.
Proof.
  intros Hop.
  pose proof (P_step_stored
                (fun l' => exists l, In l (LayerSystem.layers (LayerSystem.sys w))
                                     /\ sameIdentity l l')) as H.
  rewrite <- List.Forall_forall. apply H; clear H.
  - intros v l (x & Hx & Hid & Hnm). exists x. split; [exact Hx|]. split; assumption.
  - intros v l (x & Hx & Hid & Hnm). exists x. split; [exact Hx|]. split; assumption.
  - intros v l (x & Hx & Hid & Hnm). exists x. split; [exact Hx|]. split; assumption.
  - intros v l (x & Hx & Hid & Hnm). exists x. split; [exact Hx|]. split; assumption.
  - intros a b c d l (x & Hx & Hid & Hnm). exists x. split; [exact Hx|]. split; assumption.
  - intros v l (x & Hx & Hid & Hnm). exists x. split; [exact Hx|]. split; assumption.
  - intros v l (x & Hx & Hid & Hnm). exists x. split; [exact Hx|]. split; assumption.
  - intros v l (x & Hx & Hid & Hnm). exists x. split; [exact Hx|]. split; assumption.
  - exact Hop.
  - apply List.Forall_forall. intros l Hl. exists l. split; [exact Hl|]. split; reflexivity.
Qed.

Lemma registryOk_step (op : Op) (w : LayerSystem.World) :
  registryOk (LayerSystem.sys w) -> registryOk (LayerSystem.sys (step op w)).
Proof.
  intros [Hids Hnames].
  destruct (isCreateLayer op) eqn:Hc.
  - (* createLayer *)
    destruct op; try discriminate Hc. cbn [step]. unfold LayerSystem.createLayer.
    set (c := LayerSystem.layerIdCounter (LayerSystem.sys w)) in *.
    destruct (Layer.constructor _ _ _ _) as [[l|e] p1] eqn:Hcons; simpl.
    + apply Layer_constructor_Ok in Hcons. destruct Hcons as (Hid & Hnm & _).
      assert (Hnn : Layer.nameOr (Layer.nameOr name c) c = Layer.nameOr name c)
        by (destruct name; reflexivity).
      rewrite Hnn in Hnm.
      assert (Hres : registryOk
                (LayerSystem.with_layerNames
                   (<[Layer.nameOr name c := c]> (LayerSystem.layerNames (LayerSystem.sys w)))
                   (LayerSystem.with_layers
                      (layers_set l (LayerSystem.layers (LayerSystem.sys w)))
                      (LayerSystem.with_layerIdCounter (c + 1) (LayerSystem.sys w))))).
      { split; simpl.
        - intros x Hx. apply In_layers_set in Hx. destruct Hx as [->|Hx]; [lia|].
          specialize (Hids x Hx). fold c in Hids. lia.
        - intros n k Hk. destruct (decide (n = Layer.nameOr name c)) as [->|Hne].
          + rewrite lookup_insert_eq in Hk. injection Hk as <-. split; [lia|].
            intros x Hx Hxid. apply In_layers_set in Hx. destruct Hx as [->|Hx];
              [exact Hnm|].
            specialize (Hids x Hx). fold c in Hids. lia.
          + rewrite lookup_insert_ne in Hk by congruence.
            destruct (Hnames n k Hk) as [Hlt Hnk]. fold c in Hlt. split; [lia|].
            intros x Hx Hxid. apply In_layers_set in Hx. destruct Hx as [->|Hx];
              [lia|]. apply Hnk; assumption. }
      destruct (Layer.nameOr name c) eqn:Hn; [|exact Hres].
      destruct name; discriminate Hn.
    + split; simpl.
      * intros x Hx. specialize (Hids x Hx). fold c in Hids. lia.
      * intros n k Hk. destruct (Hnames n k Hk) as [Hlt Hnk]. fold c in Hlt.
        split; [lia|exact Hnk].
  - pose proof (step_sameIdentity op w Hc) as Hsame.
    destruct (isRemoveLayer op) eqn:Hr.
    + (* removeLayer: the counter stays, names only shrink *)
      assert (Hreg : LayerSystem.layerIdCounter (LayerSystem.sys (step op w))
                     = LayerSystem.layerIdCounter (LayerSystem.sys w)
                     /\ forall n k,
                          LayerSystem.layerNames (LayerSystem.sys (step op w)) !! n = Some k ->
                          LayerSystem.layerNames (LayerSystem.sys w) !! n = Some k).
      { destruct op; try discriminate Hr. cbn [step]. unfold LayerSystem.removeLayer.
        destruct (LayerSystem._getLayerById r (LayerSystem.sys w)) as [l|];
          [|split; [reflexivity|auto]].
        set (w1 := if bool_decide _ then LayerSystem.end_ w else w).
        assert (H1 : registry (LayerSystem.sys w1) = registry (LayerSystem.sys w)).
        { subst w1. destruct (bool_decide _); [apply end_registry|reflexivity]. }
        unfold registry in H1. injection H1 as Hn1 Hc1.
        destruct (Layer.name l) eqn:Hnm; simpl; rewrite ?Hn1, ?Hc1;
          (split; [reflexivity|]); [auto|].
        intros n k Hk. apply lookup_delete_Some in Hk. tauto. }
      destruct Hreg as [Hcnt Hsub]. split.
      * intros l' Hl'. destruct (Hsame l' Hl') as (l & Hl & Hid & _).
        rewrite Hcnt, Hid. apply Hids, Hl.
      * intros n k Hk. destruct (Hnames n k (Hsub n k Hk)) as [Hlt Hnk].
        rewrite Hcnt. split; [exact Hlt|].
        intros l' Hl' Hk'. destruct (Hsame l' Hl') as (l & Hl & Hid & Hnm).
        rewrite Hnm. apply Hnk; congruence.
    + pose proof (step_registry op w Hc Hr) as Hreg. unfold registry in Hreg.
      injection Hreg as Hn Hcnt. split.
      * intros l' Hl'. destruct (Hsame l' Hl') as (l & Hl & Hid & _).
        rewrite Hcnt, Hid. apply Hids, Hl.
      * intros n k Hk. rewrite Hn in Hk. destruct (Hnames n k Hk) as [Hlt Hnk].
        rewrite Hcnt. split; [exact Hlt|].
        intros l' Hl' Hk'. destruct (Hsame l' Hl') as (l & Hl & Hid & Hnm).
        rewrite Hnm. apply Hnk; congruence.
Qed.

Lemma reachable_registryOk (w : LayerSystem.World) :
  reachable w -> registryOk (LayerSystem.sys w).
Proof.
  induction 1 as [p s Hs|op w _ IH]; [|apply registryOk_step, IH].
  unfold LayerSystem.constructor in Hs. destruct (negb (h_webgl p)); [discriminate|].
  injection Hs as <-. split; simpl; [intros ? []|].
  intros n k Hk. rewrite lookup_empty in Hk. discriminate.
Qed.

(** X3.  In every reachable state a lookup returns the layer that was asked
    for: by number, a layer with that id, handed out earlier (below the
    counter); by name, a layer carrying that name.  No two stored
    layers share an id. *)
Theorem lookup_returns_what_was_asked (w : LayerSystem.World) :
  reachable w ->
  (forall k l, LayerSystem.getLayer (VNumber k) (LayerSystem.sys w) = Some l ->
     Layer.id l = k /\ k < LayerSystem.layerIdCounter (LayerSystem.sys w))
  /\ (forall n l, LayerSystem.getLayer (VString n) (LayerSystem.sys w) = Some l ->
        Layer.name l = n)
  /\ List.NoDup (map Layer.id (LayerSystem.layers (LayerSystem.sys w))).
Proof.
  intros Hreach. destruct (reachable_registryOk w Hreach) as [Hids Hnames].
  split; [|split].
  - intros k l Hget. unfold LayerSystem.getLayer in Hget. simpl in Hget.
    pose proof (layers_get_id _ _ _ Hget) as Hid. split; [exact Hid|].
    rewrite <- Hid. apply Hids. eapply layers_get_In, Hget.
  - intros n l Hget. unfold LayerSystem.getLayer in Hget. simpl in Hget.
    destruct (LayerSystem.layerNames (LayerSystem.sys w) !! n) as [k|] eqn:Hk;
      [|discriminate].
    destruct (Hnames n k Hk) as [_ Hnk]. apply Hnk.
    + eapply layers_get_In, Hget.
    + eapply layers_get_id, Hget.
  - apply (reachable_wellFormed w Hreach).
Qed.

End Registry.

Lemma lookup_returns_what_was_asked_witness :
  reachable twoLayers
  /\ (forall k l, LayerSystem.getLayer (VNumber k) (LayerSystem.sys twoLayers) = Some l ->
        Layer.id l = k /\ k < 2)
  /\ (forall n l, LayerSystem.getLayer (VString n) (LayerSystem.sys twoLayers) = Some l ->
        Layer.name l = n).
Proof.
  assert (H : reachable twoLayers) by (apply reachable_run, reachable_demoWorld).
  split; [exact H|].
  destruct (lookup_returns_what_was_asked twoLayers H) as (H1 & H2 & _).
  split; assumption.
Defined.

(* ------------------------------------------------------------------ *)
(** * createLayer                                                      *)
(* ------------------------------------------------------------------ *)

Section CreateLayer.

Lemma layers_set_fresh (l : Layer.t) (ls : list Layer.t) :
  (forall x, In x ls -> Layer.id x <> Layer.id l) ->
  layers_set l ls = (ls ++ [l])%list.
Proof.
  induction ls as [|h t IH]; intros Hfresh; simpl; [reflexivity|].
  destruct (Z.eqb_spec (Layer.id h) (Layer.id l)) as [E|E].
  - exfalso. apply (Hfresh h); [left; reflexivity|exact E].
  - rewrite IH; [reflexivity|]. intros x Hx. apply Hfresh. right. exact Hx.
Qed.

Lemma nameOr_not_empty (name : string) (id : Z) : Layer.nameOr name id <> "".
Proof. destruct name; simpl; discriminate. Qed.

(** X4.  A successful [createLayer] in a reachable state: the layer gets
    the next id, the given name (or "Layer <id>" for the empty name)
    and, unless the options say otherwise, its id as zIndex; it is
    appended last in the iteration order of [layers]; it is found by
    its id and by its name; every other id resolves as before. *)
Theorem createLayer_registers (name : string) (options : Layer.Options)
    (w w' : LayerSystem.World) (l : Layer.t) :
  reachable w ->
  LayerSystem.createLayer name options w = (Ok l, w') ->
  let c := LayerSystem.layerIdCounter (LayerSystem.sys w) in
  Layer.id l = c
  /\ Layer.name l = (if String.eqb name "" then Layer.defaultName c else name)
  /\ Layer.zIndex l = default c (Layer.o_zIndex options)
  /\ LayerSystem.layerIdCounter (LayerSystem.sys w') = c + 1
  /\ LayerSystem.layers (LayerSystem.sys w') = (LayerSystem.layers (LayerSystem.sys w) ++ [l])%list
  /\ LayerSystem.getLayer (VNumber c) (LayerSystem.sys w') = Some l
  /\ LayerSystem.getLayer (VString (Layer.name l)) (LayerSystem.sys w') = Some l
  /\ (forall k, k <> c ->
        LayerSystem.getLayer (VNumber k) (LayerSystem.sys w')
          = LayerSystem.getLayer (VNumber k) (LayerSystem.sys w)).
Proof.
  intros Hreach Hcreate c. destruct (reachable_registryOk w Hreach) as [Hids _].
  unfold LayerSystem.createLayer in Hcreate. fold c in Hcreate.
  destruct (Layer.constructor _ _ _ _) as [[layer|e] p1] eqn:Hcons; [|discriminate].
  assert (Hz : Layer.zIndex layer = default c (Layer.o_zIndex options)).
  { unfold Layer.constructor in Hcons.
    destruct (Layer._createFramebuffer _ _) as [[f|] p2]; [|discriminate].
    injection Hcons as <- _. simpl. destruct (Layer.o_zIndex options); reflexivity. }
  apply Layer_constructor_Ok in Hcons. destruct Hcons as (Hid & Hnm & _).
  assert (Hnn : Layer.nameOr (Layer.nameOr name c) c = Layer.nameOr name c)
    by (destruct name; reflexivity).
  rewrite Hnn in Hnm.
  assert (Hname : Layer.nameOr name c = if String.eqb name "" then Layer.defaultName c else name)
    by (destruct name; reflexivity).
  assert (Hfresh : layers_set layer (LayerSystem.layers (LayerSystem.sys w))
                   = (LayerSystem.layers (LayerSystem.sys w) ++ [layer])%list).
  { apply layers_set_fresh. intros x Hx. specialize (Hids x Hx). fold c in Hids. lia. }
  pose proof (nameOr_not_empty name c) as Hne.
  remember (Layer.nameOr name c) as nm eqn:Hn.
  destruct nm as [|ch rest]; [congruence|].
  assert (Hgetc : layers_get c (layers_set layer (LayerSystem.layers (LayerSystem.sys w)))
                  = Some layer)
    by (rewrite <- Hid; apply layers_get_set_eq).
  injection Hcreate as <- <-. simpl.
  unfold LayerSystem.getLayer. simpl. rewrite Hnm, lookup_insert_eq, Hgetc.
  split; [exact Hid|]. split; [exact Hname|]. split; [exact Hz|].
  split; [reflexivity|]. split; [exact Hfresh|].
  split; [reflexivity|]. split; [reflexivity|].
  intros k Hk. apply layers_get_set_ne. congruence.
Qed.

(** X5.  [createLayer] fails exactly when the host refuses the buffer.  It
    then throws, logs the error, registers neither layer nor name, and
    still consumes the id. *)
Theorem createLayer_outcome (name : string) (options : Layer.Options)
    (w : LayerSystem.World) :
  let s1 := LayerSystem.with_layerIdCounter
              (LayerSystem.layerIdCounter (LayerSystem.sys w) + 1) (LayerSystem.sys w) in
  (hd false (h_framebufferFaults (LayerSystem.host w)) = true
   /\ LayerSystem.createLayer name options w
        = (Throw (JsError "Failed to create framebuffer for layer"),
           LayerSystem.mkWorld
             (log (Error "Error creating framebuffer for layer")
                (h_setFramebufferFaults
                   (tl (h_framebufferFaults (LayerSystem.host w))) (LayerSystem.host w)))
             s1))
  \/ (hd false (h_framebufferFaults (LayerSystem.host w)) = false
      /\ exists l w',
           LayerSystem.createLayer name options w = (Ok l, w')
           /\ h_live (LayerSystem.host w') = h_live (LayerSystem.host w) + 1
           /\ h_console (LayerSystem.host w') = h_console (LayerSystem.host w)).
Proof.
  cbv zeta. unfold LayerSystem.createLayer, Layer.constructor,
    Layer._createFramebuffer, createFramebuffer.
  destruct (h_framebufferFaults (LayerSystem.host w)) as [|[] rest] eqn:Hf; simpl.
  - right. split; [reflexivity|].
    destruct (Layer.nameOr _ _); eexists; eexists; repeat split.
  - left. split; reflexivity.
  - right. split; [reflexivity|].
    destruct (Layer.nameOr _ _); eexists; eexists; repeat split.
Qed.

End CreateLayer.

Lemma createLayer_registers_witness :
  reachable twoLayers
  /\ exists l w',
       LayerSystem.createLayer "" Layer.noOptions twoLayers = (Ok l, w')
       /\ Layer.id l = 2 /\ Layer.name l = "Layer 2" /\ Layer.zIndex l = 2
       /\ map Layer.name (LayerSystem.layers (LayerSystem.sys w')) = ["a"; "b"; "Layer 2"]
       /\ LayerSystem.getLayer (VString "Layer 2") (LayerSystem.sys w') = Some l.
Proof.
  assert (H : reachable twoLayers) by (apply reachable_run, reachable_demoWorld).
  split; [exact H|].
  destruct (LayerSystem.createLayer "" Layer.noOptions twoLayers) as [r w'] eqn:Hc.
  assert (Hr : r = Ok (demoLayer "Layer 2" 2)).
  { apply (f_equal fst) in Hc. simpl in Hc. rewrite <- Hc. reflexivity. }
  subst r.
  destruct (createLayer_registers "" Layer.noOptions twoLayers w'
              (demoLayer "Layer 2" 2) H Hc)
    as (Hid & Hnm & Hz & _ & Hls & _ & Hget & _).
  exists (demoLayer "Layer 2" 2), w'. split; [reflexivity|].
  repeat split; try reflexivity.
  - rewrite Hls. reflexivity.
  - exact Hget.
Defined.

(* ------------------------------------------------------------------ *)
(** * getLayers and reorderLayers                                      *)
(* ------------------------------------------------------------------ *)

Section Order.

Lemma insertByZIndex_Permutation (x : Layer.t) (s : list Layer.t) :
  Permutation (insertByZIndex x s) (x :: s).
Proof.
  induction s as [|h t IH]; simpl; [reflexivity|].
  destruct (Layer.zIndex x <=? Layer.zIndex h); [reflexivity|].
  rewrite IH. apply perm_swap.
Qed.

Lemma sortByZIndex_Permutation (ls : list Layer.t) :
  Permutation (sortByZIndex ls) ls.
Proof.
  induction ls as [|h t IH]; simpl; [reflexivity|].
  rewrite insertByZIndex_Permutation. constructor. exact IH.
Qed.

(** X6.  [getLayers] returns every stored layer exactly once, in ascending
    zIndex, layers of equal zIndex in the iteration order of the map
    (creation order). *)
Theorem getLayers_sorted_stable (s : LayerSystem.t) :
  Permutation (LayerSystem.getLayers s) (LayerSystem.layers s)
  /\ StronglySorted zLe (LayerSystem.getLayers s)
  /\ forall k,
       List.filter (fun l => Layer.zIndex l =? k) (LayerSystem.getLayers s)
         = List.filter (fun l => Layer.zIndex l =? k) (LayerSystem.layers s).
Proof.
  unfold LayerSystem.getLayers. split; [apply sortByZIndex_Permutation|].
  split; [apply sortByZIndex_sorted|]. intros k. apply sortByZIndex_stable.
Qed.

(** Two orderings of the same layers, one strictly ascending and one
    ascending, are the same list. *)
Lemma sorted_Permutation_unique (l1 l2 : list Layer.t) :
  StronglySorted zLt l1 -> StronglySorted zLe l2 -> Permutation l1 l2 -> l1 = l2.
Proof.
  revert l2. induction l1 as [|a t1 IH]; intros l2 H1 H2 HP.
  - apply Permutation_nil in HP. congruence.
  - destruct l2 as [|b t2]; [apply Permutation_sym, Permutation_nil in HP; discriminate|].
    apply StronglySorted_inv in H1. destruct H1 as [H1 Ha].
    apply StronglySorted_inv in H2. destruct H2 as [H2 Hb].
    rewrite List.Forall_forall in Ha, Hb.
    assert (Hab : a = b).
    { assert (Hbin : In b (a :: t1)).
      { apply Permutation_in with (l := b :: t2); [symmetry; exact HP|left; reflexivity]. }
      assert (Hain : In a (b :: t2)).
      { apply Permutation_in with (l := a :: t1); [exact HP|left; reflexivity]. }
      destruct Hbin as [E|Hbin]; [exact E|].
      destruct Hain as [E|Hain]; [congruence|].
      specialize (Ha b Hbin). specialize (Hb a Hain). unfold zLt, zLe in *. lia. }
    subst b. f_equal. apply IH; [assumption|assumption|].
    eapply Permutation_cons_inv. exact HP.
Qed.

(** What [reorderLayers] leaves in the store: the layer at position
    [i] of [orderedLayers] has zIndex [index + i], a layer that is not
    listed is unchanged, and the iteration order of the map is the
    same. *)
Lemma reorderFrom_spec (ids : list Z) :
  forall (index : Z) (ls : list Layer.t),
    List.NoDup ids ->
    (forall k, In k ids -> layers_get k ls <> None) ->
    map Layer.id (LayerSystem.reorderFrom index ids ls) = map Layer.id ls
    /\ (forall k, ~ In k ids ->
          layers_get k (LayerSystem.reorderFrom index ids ls) = layers_get k ls)
    /\ (forall i k, nth_error ids i = Some k ->
          exists l, layers_get k ls = Some l
                    /\ layers_get k (LayerSystem.reorderFrom index ids ls)
                         = Some (Layer.setZIndex (index + Z.of_nat i) l)).
Proof.
  induction ids as [|k0 rest IH]; intros index ls Hnd Hall; simpl.
  - split; [reflexivity|]. split; [reflexivity|]. intros [|i] k H; discriminate H.
  - inversion Hnd as [|? ? Hnotin Hnd']; subst.
    destruct (layers_get k0 ls) as [l0|] eqn:Hget0;
      [|exfalso; apply (Hall k0); [left; reflexivity|exact Hget0]].
    set (l0' := Layer.setZIndex index l0).
    assert (Hid0 : Layer.id l0' = k0) by (apply (layers_get_id _ _ _ Hget0)).
    assert (Hget0' : layers_get (Layer.id l0') ls = Some l0) by (rewrite Hid0; exact Hget0).
    destruct (IH (index + 1) (layers_set l0' ls) Hnd') as (Hmap & Hout & Hin).
    { intros k Hk. destruct (Z.eq_dec k k0) as [->|Hne].
      - rewrite <- Hid0, layers_get_set_eq. discriminate.
      - rewrite layers_get_set_ne by congruence. apply Hall. right. exact Hk. }
    split; [|split].
    + rewrite Hmap. eapply map_id_layers_set. exact Hget0'.
    + intros k Hk. rewrite Hout by (intros H; apply Hk; right; exact H).
      apply layers_get_set_ne. intros ->. apply Hk. left. symmetry. exact Hid0.
    + intros [|i] k Hnth; simpl in Hnth.
      * injection Hnth as <-. exists l0. split; [exact Hget0|].
        rewrite Hout by exact Hnotin. rewrite <- Hid0 at 1. rewrite layers_get_set_eq.
        subst l0'. rewrite Z.add_0_r. reflexivity.
      * destruct (Hin i k Hnth) as (l & Hl & Hl').
        assert (Hne : k <> k0).
        { intros ->. apply Hnotin. eapply nth_error_In. exact Hnth. }
        rewrite layers_get_set_ne in Hl by congruence.
        exists l. split; [exact Hl|]. rewrite Hl'. do 2 f_equal. lia.
Qed.

Lemma layersOf_ascending (ls : list Layer.t) (ids : list Z) :
  forall index,
    (forall i k, nth_error ids i = Some k ->
       exists l, layers_get k ls = Some l /\ Layer.zIndex l = index + Z.of_nat i) ->
    map Layer.id (layersOf ls ids) = ids
    /\ StronglySorted zLt (layersOf ls ids)
    /\ List.Forall (fun l => index <= Layer.zIndex l) (layersOf ls ids)
    /\ (forall l, In l (layersOf ls ids) -> In l ls).
Proof.
  induction ids as [|k rest IH]; intros index H; simpl.
  - split; [reflexivity|]. split; [constructor|]. split; [constructor|intros ? []].
  - destruct (H 0%nat k eq_refl) as (l & Hl & Hz). rewrite Hl. simpl.
    destruct (IH (index + 1)) as (Hmap & Hsorted & Hlow & Hin).
    { intros i k' Hnth. destruct (H (S i) k' Hnth) as (l' & Hl' & Hz').
      exists l'. split; [exact Hl'|]. lia. }
    split; [|split; [|split]].
    + f_equal; [eapply layers_get_id; exact Hl|exact Hmap].
    + constructor; [exact Hsorted|].
      eapply List.Forall_impl; [|exact Hlow]. intros x Hx. unfold zLt. simpl in Hx. lia.
    + constructor; [lia|].
      eapply List.Forall_impl; [|exact Hlow]. intros x Hx. simpl in Hx. lia.
    + intros x [<-|Hx]; [eapply layers_get_In; exact Hl|apply Hin, Hx].
Qed.

Lemma NoDup_map_inj_In {A B} (f : A -> B) (l : list A) (x y : A) :
  List.NoDup (map f l) -> In x l -> In y l -> f x = f y -> x = y.
Proof.
  induction l as [|h t IH]; simpl; [intros _ []|].
  intros Hnd Hx Hy Hf. inversion Hnd as [|? ? Hnotin Hnd']; subst.
  destruct Hx as [<-|Hx], Hy as [<-|Hy]; auto.
  - exfalso. apply Hnotin. rewrite Hf. apply in_map. exact Hy.
  - exfalso. apply Hnotin. rewrite <- Hf. apply in_map. exact Hx.
Qed.

Lemma NoDup_of_map {A B} (f : A -> B) (l : list A) :
  List.NoDup (map f l) -> List.NoDup l.
Proof.
  induction l as [|h t IH]; simpl; intros Hnd; [constructor|].
  inversion Hnd as [|? ? Hnotin Hnd']; subst.
  constructor; [|auto]. intros Hin. apply Hnotin. apply in_map. exact Hin.
Qed.

(** The order [reorderLayers] establishes. *)
Lemma reorderLayers_order (ids : list Z) (w : LayerSystem.World) :
  reachable w ->
  Permutation ids (map Layer.id (LayerSystem.layers (LayerSystem.sys w))) ->
  let w' := LayerSystem.reorderLayers ids w in
  map Layer.id (LayerSystem.getLayers (LayerSystem.sys w')) = ids
  /\ (forall i k, nth_error ids i = Some k ->
        option_map Layer.zIndex (LayerSystem.getLayer (VNumber k) (LayerSystem.sys w'))
          = Some (Z.of_nat i))
  /\ map Layer.id (LayerSystem.layers (LayerSystem.sys w'))
       = map Layer.id (LayerSystem.layers (LayerSystem.sys w)).
Proof.
  intros Hreach Hperm w'.
  destruct (reachable_wellFormed w Hreach) as [Hnd _].
  set (ls := LayerSystem.layers (LayerSystem.sys w)) in *.
  assert (Hndids : List.NoDup ids).
  { eapply Permutation_NoDup; [symmetry; exact Hperm|exact Hnd]. }
  assert (Hall : forall k, In k ids -> layers_get k ls <> None).
  { intros k Hk. apply (Permutation_in _ Hperm) in Hk.
    apply in_map_iff in Hk. destruct Hk as (x & <- & Hx).
    rewrite (layers_get_NoDup_In ls x Hnd Hx). discriminate. }
  destruct (reorderFrom_spec ids 0 ls Hndids Hall) as (Hmap & _ & Hin).
  set (ls' := LayerSystem.reorderFrom 0 ids ls) in *.
  assert (Hls' : LayerSystem.layers (LayerSystem.sys w') = ls') by reflexivity.
  assert (Hz : forall i k, nth_error ids i = Some k ->
             exists l, layers_get k ls' = Some l /\ Layer.zIndex l = 0 + Z.of_nat i).
  { intros i k Hnth. destruct (Hin i k Hnth) as (l & _ & Hl').
    eexists. split; [exact Hl'|reflexivity]. }
  destruct (layersOf_ascending ls' ids 0 Hz) as (HTmap & HTsorted & _ & HTin).
  assert (Hnd' : List.NoDup (map Layer.id ls')) by (rewrite Hmap; exact Hnd).
  assert (HTperm : Permutation (layersOf ls' ids) ls').
  { apply Permutation.NoDup_Permutation.
    - apply (NoDup_of_map Layer.id). rewrite HTmap. exact Hndids.
    - apply (NoDup_of_map Layer.id). exact Hnd'.
    - intros x. split; [apply HTin|]. intros Hx.
      assert (Hidx : In (Layer.id x) (map Layer.id (layersOf ls' ids))).
      { rewrite HTmap. apply (Permutation_in _ (Permutation_sym Hperm)).
        rewrite <- Hmap. apply in_map. exact Hx. }
      apply in_map_iff in Hidx. destruct Hidx as (y & Hy & Hyin).
      assert (y = x); [|congruence].
      apply (NoDup_map_inj_In Layer.id ls'); auto. }
  assert (Hsort : layersOf ls' ids = sortByZIndex ls').
  { apply sorted_Permutation_unique;
      [exact HTsorted|apply sortByZIndex_sorted|].
    rewrite HTperm. symmetry. apply sortByZIndex_Permutation. }
  split; [|split].
  - unfold LayerSystem.getLayers. rewrite Hls', <- Hsort. exact HTmap.
  - intros i k Hnth. destruct (Hz i k Hnth) as (l & Hl & Hzl).
    change (LayerSystem.getLayer (VNumber k) (LayerSystem.sys w'))
      with (layers_get k ls').
    rewrite Hl. simpl. f_equal. lia.
  - rewrite Hls'. exact Hmap.
Qed.

(** X7.  [reorderLayers] with a list that names every stored layer exactly
    once gives the layer at position [i] the zIndex [i], and
    [getLayers] then returns the layers in the listed order. *)
Theorem reorderLayers_sets_order (ids : list Z) (w : LayerSystem.World) :
  reachable w ->
  Permutation ids (map Layer.id (LayerSystem.layers (LayerSystem.sys w))) ->
  let w' := LayerSystem.reorderLayers ids w in
  map Layer.id (LayerSystem.getLayers (LayerSystem.sys w')) = ids
  /\ (forall i k, nth_error ids i = Some k ->
        option_map Layer.zIndex (LayerSystem.getLayer (VNumber k) (LayerSystem.sys w'))
          = Some (Z.of_nat i))
  /\ map Layer.id (LayerSystem.layers (LayerSystem.sys w'))
       = map Layer.id (LayerSystem.layers (LayerSystem.sys w)).
Proof. apply reorderLayers_order. Qed.

End Order.

Lemma reorderLayers_sets_order_witness :
  reachable twoLayers
  /\ Permutation [1; 0] (map Layer.id (LayerSystem.layers (LayerSystem.sys twoLayers)))
  /\ map Layer.id
       (LayerSystem.getLayers (LayerSystem.sys (LayerSystem.reorderLayers [1; 0] twoLayers)))
     = [1; 0].
Proof.
  assert (H : reachable twoLayers) by (apply reachable_run, reachable_demoWorld).
  assert (HP : Permutation [1; 0]
                 (map Layer.id (LayerSystem.layers (LayerSystem.sys twoLayers))))
    by apply perm_swap.
  split; [exact H|]. split; [exact HP|].
  exact (proj1 (reorderLayers_sets_order [1; 0] twoLayers H HP)).
Defined.

(* ------------------------------------------------------------------ *)
(** * The passthroughs and removeLayer                                 *)
(* ------------------------------------------------------------------ *)

Section Passthroughs.

Lemma passthrough_delegate (pt : Passthrough) (r : value) (w : LayerSystem.World) :
  passthrough pt r w = LayerSystem.delegate (layerMethod pt) r w.
Proof. destruct pt; reflexivity. Qed.

Lemma layerMethod_identity (pt : Passthrough) (l : Layer.t) :
  sameIdentity l (fst (layerMethod pt l))
  /\ Layer.framebuffer (fst (layerMethod pt l)) = Layer.framebuffer l
  /\ Layer.hasBeenDrawnTo (fst (layerMethod pt l)) = Layer.hasBeenDrawnTo l.
Proof.
  destruct pt; simpl; try (repeat split; reflexivity).
  - unfold Layer.setBlendMode. destruct (negb _); repeat split.
  - unfold Layer.setMask. destruct maskSource; repeat split.
Qed.

(** A reference resolves to nothing exactly when it is neither a
    number nor a string, a number that is no stored id, or a name
    without entry or whose entry points at no stored layer. *)
Lemma unresolved_iff (r : value) (s : LayerSystem.t) :
  LayerSystem._getLayerById r s = None <->
  match r with
  | VNumber k => layers_get k (LayerSystem.layers s) = None
  | VString n =>
      LayerSystem.layerNames s !! n = None
      \/ exists k, LayerSystem.layerNames s !! n = Some k
                   /\ layers_get k (LayerSystem.layers s) = None
  | _ => True
  end.
Proof.
  destruct r; simpl; try tauto.
  destruct (LayerSystem.layerNames s !! s0) as [k|].
  - split; [intros H; right; exists k; auto|].
    intros [H|(k' & [= <-] & H)]; [discriminate|exact H].
  - split; [left; reflexivity|reflexivity].
Qed.

(** X8.  What a passthrough does.  On a reference that resolves to nothing
    it returns null, logs one warning and leaves the system as it is.
    Otherwise it returns the layer after the [Layer] method, stores it
    under the same id at the same place of the iteration order, logs
    what the method logged, and changes neither another layer nor any
    other field of the system. *)
Theorem passthrough_effect (pt : Passthrough) (r : value) (w : LayerSystem.World) :
  match LayerSystem._getLayerById r (LayerSystem.sys w) with
  | None =>
      passthrough pt r w
        = (None, LayerSystem.onHost (log (Warn "Layer not found")) w)
  | Some l =>
      let l' := fst (layerMethod pt l) in
      let w' := snd (passthrough pt r w) in
      fst (passthrough pt r w) = Some l'
      /\ LayerSystem.host w' = logAll (snd (layerMethod pt l)) (LayerSystem.host w)
      /\ LayerSystem.sys w'
           = LayerSystem.with_layers (LayerSystem.layers (LayerSystem.sys w'))
               (LayerSystem.sys w)
      /\ map Layer.id (LayerSystem.layers (LayerSystem.sys w'))
           = map Layer.id (LayerSystem.layers (LayerSystem.sys w))
      /\ LayerSystem.getLayer (VNumber (Layer.id l)) (LayerSystem.sys w') = Some l'
      /\ LayerSystem._getLayerById r (LayerSystem.sys w') = Some l'
      /\ forall k, k <> Layer.id l ->
           LayerSystem.getLayer (VNumber k) (LayerSystem.sys w')
             = LayerSystem.getLayer (VNumber k) (LayerSystem.sys w)
  end.
Proof.
  rewrite passthrough_delegate. unfold LayerSystem.delegate.
  destruct (LayerSystem._getLayerById r (LayerSystem.sys w)) as [l|] eqn:Hr;
    [|reflexivity].
  destruct (layerMethod_identity pt l) as ((Hid & _) & _).
  destruct (layerMethod pt l) as [l' ds]. simpl in *.
  pose proof (getLayerById_key _ _ _ Hr) as Hkey.
  assert (Hget : layers_get (Layer.id l)
                   (layers_set l' (LayerSystem.layers (LayerSystem.sys w))) = Some l')
    by (rewrite <- Hid; apply layers_get_set_eq).
  split; [reflexivity|]. split; [reflexivity|]. split; [reflexivity|].
  split; [apply map_id_layers_set with (l0 := l); rewrite Hid; exact Hkey|].
  split; [exact Hget|]. split.
  - destruct r; simpl in *; try discriminate.
    + rewrite <- (layers_get_id _ _ _ Hr). exact Hget.
    + destruct (LayerSystem.layerNames (LayerSystem.sys w) !! s) as [k|]; [|discriminate].
      rewrite <- (layers_get_id _ _ _ Hr). exact Hget.
  - intros k Hk. unfold LayerSystem.getLayer. simpl.
    apply layers_get_set_ne. congruence.
Qed.



End Passthroughs.


(* ------------------------------------------------------------------ *)
(** * removeLayer                                                      *)
(* ------------------------------------------------------------------ *)

Lemma log_live (d : Diagnostic) (p : Host) : h_live (log d p) = h_live p.
Proof. reflexivity. Qed.

Lemma logAll_live (ds : list Diagnostic) (p : Host) : h_live (logAll ds p) = h_live p.
Proof. reflexivity. Qed.

Lemma Layer_end_frame (l : Layer.t) (p : Host) :
  Layer.id (fst (Layer.end_ l p)) = Layer.id l
  /\ hasBuffer (fst (Layer.end_ l p)) = hasBuffer l
  /\ h_live (snd (Layer.end_ l p)) = h_live p
  /\ h_framebufferFaults (snd (Layer.end_ l p)) = h_framebufferFaults p.
Proof.
  unfold Layer.end_, hasBuffer. destruct (Layer.framebuffer l) eqn:E; simpl;
    rewrite ?E; repeat split.
Qed.

(** [end()] keeps the ids in their order, the host's framebuffers, and
    which layers have a buffer. *)
Lemma end_frame (w : LayerSystem.World) :
  map Layer.id (LayerSystem.layers (LayerSystem.sys (LayerSystem.end_ w)))
    = map Layer.id (LayerSystem.layers (LayerSystem.sys w))
  /\ h_live (LayerSystem.host (LayerSystem.end_ w)) = h_live (LayerSystem.host w)
  /\ h_framebufferFaults (LayerSystem.host (LayerSystem.end_ w))
       = h_framebufferFaults (LayerSystem.host w)
  /\ LayerSystem.compositor (LayerSystem.sys (LayerSystem.end_ w))
       = LayerSystem.compositor (LayerSystem.sys w)
  /\ forall k l, layers_get k (LayerSystem.layers (LayerSystem.sys w)) = Some l ->
       exists l', layers_get k (LayerSystem.layers (LayerSystem.sys (LayerSystem.end_ w)))
                    = Some l'
                  /\ hasBuffer l' = hasBuffer l.
Proof.
  unfold LayerSystem.end_. destruct w as [p s]; simpl.
  destruct (LayerSystem.activeLayerId s) as [a|]; simpl;
    [|repeat split; intros k l H; exists l; auto].
  destruct (layers_get a (LayerSystem.layers s)) as [layer|] eqn:Hget; simpl;
    [|repeat split; intros k l H; exists l; auto].
  destruct (Layer_end_frame layer p) as (Hid & Hb & Hlive & Hf).
  destruct (Layer.end_ layer p) as [layer' p1]; simpl in *.
  pose proof (layers_get_id _ _ _ Hget) as Ha.
  assert (Hm : map Layer.id (layers_set layer' (LayerSystem.layers s))
               = map Layer.id (LayerSystem.layers s)).
  { apply map_id_layers_set with (l0 := layer). rewrite Hid, Ha. exact Hget. }
  assert (Hg : forall k l, layers_get k (LayerSystem.layers s) = Some l ->
             exists l', layers_get k (layers_set layer' (LayerSystem.layers s)) = Some l'
                        /\ hasBuffer l' = hasBuffer l).
  { intros k l Hl. destruct (Z.eq_dec k (Layer.id layer')) as [->|Hk].
    - exists layer'. split; [apply layers_get_set_eq|].
      rewrite Hid, Ha, Hget in Hl. injection Hl as <-. exact Hb.
    - exists l. split; [|reflexivity]. rewrite layers_get_set_ne by congruence. exact Hl. }
  destruct (LayerSystem.ui s); simpl; repeat split; assumption.
Qed.

Lemma map_id_layers_delete (k : Z) (ls : list Layer.t) :
  map Layer.id (layers_delete k ls)
    = List.filter (fun j => negb (j =? k)) (map Layer.id ls).
Proof.
  induction ls as [|h t IH]; simpl; [reflexivity|].
  destruct (Layer.id h =? k); simpl; rewrite IH; reflexivity.
Qed.

Lemma Layer_dispose_live (l : Layer.t) (p : Host) :
  h_live (snd (Layer.dispose l p)) = h_live p - (if hasBuffer l then 1 else 0).
Proof.
  unfold Layer.dispose, hasBuffer. destruct (Layer.framebuffer l); simpl; lia.
Qed.

(** X10.  What [removeLayer] does.  On a reference that resolves to nothing
    it logs one warning and changes nothing else.  Otherwise the layer
    is gone under its id, the other layers keep their place and their
    state, the removed layer is not left active and another active
    layer stays active, the entry of the layer's name is deleted from
    the name map, and the host loses one live framebuffer exactly when
    the layer had its buffer. *)
Theorem removeLayer_effect (r : value) (w : LayerSystem.World) :
  match LayerSystem._getLayerById r (LayerSystem.sys w) with
  | None =>
      LayerSystem.removeLayer r w
        = LayerSystem.onHost (log (Warn "Layer not found")) w
  | Some l =>
      let w' := LayerSystem.removeLayer r w in
      LayerSystem.getLayer (VNumber (Layer.id l)) (LayerSystem.sys w') = None
      /\ map Layer.id (LayerSystem.layers (LayerSystem.sys w'))
           = List.filter (fun k => negb (k =? Layer.id l))
               (map Layer.id (LayerSystem.layers (LayerSystem.sys w)))
      /\ (forall k, k <> Layer.id l ->
            LayerSystem.getLayer (VNumber k) (LayerSystem.sys w')
              = LayerSystem.getLayer (VNumber k) (LayerSystem.sys w))
      /\ LayerSystem.activeLayerId (LayerSystem.sys w')
           = (if bool_decide (LayerSystem.activeLayerId (LayerSystem.sys w)
                              = Some (Layer.id l))
              then None
              else LayerSystem.activeLayerId (LayerSystem.sys w))
      /\ LayerSystem.layerNames (LayerSystem.sys w')
           = (match Layer.name l with
              | EmptyString => LayerSystem.layerNames (LayerSystem.sys w)
              | nm => delete nm (LayerSystem.layerNames (LayerSystem.sys w))
              end)
      /\ h_live (LayerSystem.host w')
           = h_live (LayerSystem.host w) - (if hasBuffer l then 1 else 0)
  end.
Proof.
  unfold LayerSystem.removeLayer.
  destruct (LayerSystem._getLayerById r (LayerSystem.sys w)) as [l|] eqn:Hr;
    [|reflexivity].
  pose proof (getLayerById_key _ _ _ Hr) as Hkey.
  set (w1 := if bool_decide (LayerSystem.activeLayerId (LayerSystem.sys w)
                             = Some (Layer.id l))
             then LayerSystem.end_ w else w).
  assert (H1 : map Layer.id (LayerSystem.layers (LayerSystem.sys w1))
               = map Layer.id (LayerSystem.layers (LayerSystem.sys w))
             /\ h_live (LayerSystem.host w1) = h_live (LayerSystem.host w)
             /\ (exists l1, layers_get (Layer.id l) (LayerSystem.layers (LayerSystem.sys w1))
                              = Some l1 /\ hasBuffer l1 = hasBuffer l)
             /\ (forall k, k <> Layer.id l ->
                   layers_get k (LayerSystem.layers (LayerSystem.sys w1))
                   = layers_get k (LayerSystem.layers (LayerSystem.sys w)))
             /\ LayerSystem.layerNames (LayerSystem.sys w1)
                = LayerSystem.layerNames (LayerSystem.sys w)
             /\ LayerSystem.activeLayerId (LayerSystem.sys w1)
                = (if bool_decide (LayerSystem.activeLayerId (LayerSystem.sys w)
                                   = Some (Layer.id l))
                   then None
                   else LayerSystem.activeLayerId (LayerSystem.sys w))).
  { subst w1. destruct (bool_decide _) eqn:Ha.
    - apply bool_decide_eq_true in Ha.
      destruct (end_frame w) as (Hm & Hl & _ & _ & Hg).
      split; [exact Hm|]. split; [exact Hl|]. split; [exact (Hg _ _ Hkey)|].
      split; [|split; [apply end_layerNames|apply end_activeLayerId]].
      intros k Hk. apply end_layers_get_other. rewrite Ha. congruence.
    - repeat split; try reflexivity. exists l. split; [exact Hkey|reflexivity]. }
  clearbody w1. destruct H1 as (Hm & Hl & (l1 & Hg1 & Hb1) & Ho & Hn & Ha).
  cbv zeta.
  match goal with
  | |- context [layers_delete _ (LayerSystem.layers ?s)] => set (s2 := s)
  end.
  assert (Hs2 : LayerSystem.layers s2 = LayerSystem.layers (LayerSystem.sys w1)
                /\ LayerSystem.activeLayerId s2
                   = LayerSystem.activeLayerId (LayerSystem.sys w1)
                /\ LayerSystem.layerNames s2
                   = match Layer.name l with
                     | EmptyString => LayerSystem.layerNames (LayerSystem.sys w)
                     | nm => delete nm (LayerSystem.layerNames (LayerSystem.sys w))
                     end).
  { subst s2. rewrite <- Hn. destruct (Layer.name l); repeat split. }
  clearbody s2. destruct Hs2 as (Hls & Has & Hns).
  rewrite Hls, Hg1. simpl. unfold LayerSystem.getLayer. simpl.
  split; [apply layers_get_delete_eq|].
  split; [rewrite map_id_layers_delete, Hm; reflexivity|].
  split; [intros k Hk; rewrite layers_get_delete_ne by exact Hk; apply Ho, Hk|].
  split; [rewrite Has; exact Ha|].
  split; [exact Hns|].
  rewrite Layer_dispose_live, Hb1, Hl. reflexivity.
Qed.

(* ------------------------------------------------------------------ *)
(** * Framebuffers: what is created is held or released                *)
(* ------------------------------------------------------------------ *)

Section Resources.

Lemma heldByLayers_cons (l : Layer.t) (ls : list Layer.t) :
  heldByLayers (l :: ls) = Z.b2z (hasBuffer l) + heldByLayers ls.
Proof.
  unfold heldByLayers. simpl. destruct (hasBuffer l); simpl length; simpl Z.b2z; lia.
Qed.

Lemma heldByLayers_app (ls ls' : list Layer.t) :
  heldByLayers (ls ++ ls') = heldByLayers ls + heldByLayers ls'.
Proof.
  induction ls as [|h t IH]; [reflexivity|].
  change ((h :: t) ++ ls')%list with (h :: (t ++ ls'))%list.
  rewrite !heldByLayers_cons, IH. lia.
Qed.

Lemma held_layers_set (l l' : Layer.t) (ls : list Layer.t) :
  layers_get (Layer.id l') ls = Some l ->
  heldByLayers (layers_set l' ls)
    = heldByLayers ls - Z.b2z (hasBuffer l) + Z.b2z (hasBuffer l').
Proof.
  induction ls as [|h t IH]; simpl; [discriminate|].
  destruct (Layer.id h =? Layer.id l').
  - intros [= ->]. rewrite !heldByLayers_cons. lia.
  - intros H. rewrite !heldByLayers_cons, IH by exact H. lia.
Qed.





Lemma held_map (f : Layer.t -> Layer.t) (ls : list Layer.t) :
  (forall l, hasBuffer (f l) = hasBuffer l) ->
  heldByLayers (map f ls) = heldByLayers ls.
Proof.
  intros Hf. induction ls as [|h t IH]; [reflexivity|].
  simpl map. rewrite !heldByLayers_cons, IH, Hf. reflexivity.
Qed.

Lemma slots_held (c c' : Compositor.t) :
  slots c' = slots c ->
  heldByCompositor c' = heldByCompositor c /\ (paired c' <-> paired c).
Proof.
  unfold slots, heldByCompositor, paired, present.
  destruct (Compositor.bufferA c'), (Compositor.bufferB c'),
    (Compositor.bufferA c), (Compositor.bufferB c); intros [= ]; split;
    try reflexivity; intuition congruence.
Qed.

Lemma slots_none (c : Compositor.t) :
  slots c = (false, false) ->
  Compositor.bufferA c = None /\ Compositor.bufferB c = None.
Proof.
  unfold slots, present.
  destruct (Compositor.bufferA c), (Compositor.bufferB c); intros [= ]; auto.
Qed.

(** ** The host *)


Lemma removeFramebuffer_calm (p : Host) :
  calm (removeFramebuffer p) = calm p.
Proof. reflexivity. Qed.

(** ** Layer *)



(** ** Compositor *)


Lemma ensureShader_resources (c : Compositor.t) (p : Host) :
  Compositor.bufferA (snd (fst (Compositor._ensureShader c p))) = Compositor.bufferA c
  /\ Compositor.bufferB (snd (fst (Compositor._ensureShader c p))) = Compositor.bufferB c
  /\ h_live (snd (Compositor._ensureShader c p)) = h_live p
  /\ h_framebufferFaults (snd (Compositor._ensureShader c p)) = h_framebufferFaults p.
Proof.
  unfold Compositor._ensureShader, createShader.
  destruct (negb (Compositor.shaderLoaded c)); [|repeat split].
  destruct (h_shaderFaults p) as [|[] rest]; repeat split.
Qed.

Lemma renderLayer_resources (layer : Layer.t) (cb : Framebuffer)
    (c : Compositor.t) (p : Host) :
  Compositor.bufferA (snd (fst (Compositor._renderLayer layer cb c p)))
    = Compositor.bufferA c
  /\ Compositor.bufferB (snd (fst (Compositor._renderLayer layer cb c p)))
       = Compositor.bufferB c
  /\ h_live (snd (Compositor._renderLayer layer cb c p)) = h_live p
  /\ h_framebufferFaults (snd (Compositor._renderLayer layer cb c p))
       = h_framebufferFaults p.
Proof.
  unfold Compositor._renderLayer.
  destruct (negb (Layer.visible layer) || Qle_bool (Layer.opacity layer) 0);
    [repeat split|].
  destruct (Layer.framebuffer layer) as [lf|]; [|repeat split].
  pose proof (ensureShader_resources c p) as (HA & HB & Hl & Hf).
  destruct (Compositor._ensureShader c p) as [[[s|] c1] p1]; simpl in *.
  - destruct (getBlendModeIndex (Layer.blendMode layer)) as [index ds]. simpl.
    repeat split; assumption.
  - repeat split; assumption.
Qed.




(** ** LayerSystem *)

Lemma end_balance (w : LayerSystem.World) :
  balance (LayerSystem.end_ w) = balance w
  /\ calm (LayerSystem.host (LayerSystem.end_ w)) = calm (LayerSystem.host w)
  /\ LayerSystem.compositor (LayerSystem.sys (LayerSystem.end_ w))
       = LayerSystem.compositor (LayerSystem.sys w).
Proof.
  unfold balance, owned, calm, LayerSystem.end_. destruct w as [p s]; simpl.
  destruct (LayerSystem.activeLayerId s) as [a|]; simpl; [|repeat split].
  destruct (layers_get a (LayerSystem.layers s)) as [layer|] eqn:Hget; simpl;
    [|repeat split].
  destruct (Layer_end_frame layer p) as (Hid & Hb & Hlive & Hf).
  destruct (Layer.end_ layer p) as [layer' p1]; simpl in *.
  pose proof (layers_get_id _ _ _ Hget) as Ha.
  assert (Hh : heldByLayers (layers_set layer' (LayerSystem.layers s))
               = heldByLayers (LayerSystem.layers s)).
  { rewrite held_layers_set with (l := layer) by (rewrite Hid, Ha; exact Hget).
    rewrite Hb. lia. }
  destruct (LayerSystem.ui s); simpl; rewrite Hh, Hlive, Hf; repeat split.
Qed.

Lemma delegate_balance (f : Layer.t -> Layer.t * list Diagnostic) (r : value)
    (w : LayerSystem.World) :
  (forall l, Layer.id (fst (f l)) = Layer.id l
             /\ hasBuffer (fst (f l)) = hasBuffer l) ->
  let w' := snd (LayerSystem.delegate f r w) in
  balance w' = balance w
  /\ calm (LayerSystem.host w') = calm (LayerSystem.host w)
  /\ LayerSystem.compositor (LayerSystem.sys w')
       = LayerSystem.compositor (LayerSystem.sys w).
Proof.
  intros Hf. cbv zeta. unfold LayerSystem.delegate.
  destruct (LayerSystem._getLayerById r (LayerSystem.sys w)) as [l|] eqn:Hr;
    [|repeat split].
  destruct (Hf l) as [Hid Hb]. destruct (f l) as [l' ds]. simpl in *.
  unfold balance, owned. simpl.
  rewrite held_layers_set with (l := l)
    by (rewrite Hid; apply getLayerById_key with (r := r); exact Hr).
  rewrite Hb. repeat split. lia.
Qed.

Lemma layerMethod_hasBuffer (pt : Passthrough) (l : Layer.t) :
  Layer.id (fst (layerMethod pt l)) = Layer.id l
  /\ hasBuffer (fst (layerMethod pt l)) = hasBuffer l.
Proof.
  destruct (layerMethod_identity pt l) as ((Hid & _) & Hfb & _).
  split; [exact Hid|]. unfold hasBuffer. rewrite Hfb. reflexivity.
Qed.

Lemma passthrough_balance (pt : Passthrough) (r : value) (w : LayerSystem.World) :
  let w' := snd (passthrough pt r w) in
  balance w' = balance w
  /\ calm (LayerSystem.host w') = calm (LayerSystem.host w)
  /\ LayerSystem.compositor (LayerSystem.sys w')
       = LayerSystem.compositor (LayerSystem.sys w).
Proof.
  rewrite passthrough_delegate. apply delegate_balance, layerMethod_hasBuffer.
Qed.


Lemma begin_balance (r : value) (w : LayerSystem.World) :
  balance (LayerSystem.begin r w) = balance w
  /\ calm (LayerSystem.host (LayerSystem.begin r w)) = calm (LayerSystem.host w)
  /\ LayerSystem.compositor (LayerSystem.sys (LayerSystem.begin r w))
       = LayerSystem.compositor (LayerSystem.sys w).
Proof.
  unfold LayerSystem.begin.
  set (w1 := match LayerSystem.activeLayerId (LayerSystem.sys w) with
             | Some _ => _
             | None => w
             end).
  assert (H1 : balance w1 = balance w
               /\ calm (LayerSystem.host w1) = calm (LayerSystem.host w)
               /\ LayerSystem.compositor (LayerSystem.sys w1)
                  = LayerSystem.compositor (LayerSystem.sys w)).
  { subst w1. destruct (LayerSystem.activeLayerId (LayerSystem.sys w));
      [|repeat split].
    match goal with |- context [LayerSystem.end_ ?x] =>
      destruct (end_balance x) as (E1 & E2 & E3) end.
    rewrite E1, E2, E3. repeat split. }
  clearbody w1. destruct H1 as (B1 & C1 & K1). rewrite <- B1, <- C1, <- K1.
  destruct (LayerSystem._getLayerById r (LayerSystem.sys w1)) as [layer|] eqn:Hr;
    [|repeat split].
  pose proof (getLayerById_key _ _ _ Hr) as Hkey.
  unfold Layer.begin.
  destruct (Layer.framebuffer layer) as [f|] eqn:Hf; simpl; unfold balance, owned; simpl.
  - rewrite held_layers_set with (l := layer) by exact Hkey.
    unfold hasBuffer. simpl. rewrite Hf. change (Z.b2z true) with 1.
    repeat split. lia.
  - rewrite held_layers_set with (l := layer) by exact Hkey.
    repeat split. lia.
Qed.



Lemma disposeAll_live (ls : list Layer.t) (p : Host) :
  h_live (snd (LayerSystem.disposeAll ls p)) = h_live p - heldByLayers ls
  /\ h_framebufferFaults (snd (LayerSystem.disposeAll ls p)) = h_framebufferFaults p.
Proof.
  revert p. induction ls as [|l rest IH]; intros p; simpl; [split; [unfold heldByLayers; simpl; lia|reflexivity]|].
  pose proof (Layer_dispose_live l p) as Hl.
  assert (Hf : h_framebufferFaults (snd (Layer.dispose l p)) = h_framebufferFaults p)
    by (unfold Layer.dispose; destruct (Layer.framebuffer l); reflexivity).
  destruct (Layer.dispose l p) as [l' p1]. simpl in *.
  specialize (IH p1). destruct (LayerSystem.disposeAll rest p1) as [rest' p2].
  simpl in *. rewrite heldByLayers_cons. destruct IH as [I1 I2].
  split; [|congruence]. destruct (hasBuffer l); simpl Z.b2z; lia.
Qed.

Lemma Compositor_dispose_live (c : Compositor.t) (p : Host) :
  h_live (snd (Compositor.dispose c p)) = h_live p - heldByCompositor c
  /\ h_framebufferFaults (snd (Compositor.dispose c p)) = h_framebufferFaults p
  /\ slots (fst (Compositor.dispose c p)) = (false, false).
Proof.
  unfold Compositor.dispose, heldByCompositor.
  destruct (Compositor.bufferA c), (Compositor.bufferB c); simpl; repeat split; lia.
Qed.

Lemma dispose_live (w : LayerSystem.World) :
  h_live (LayerSystem.host (LayerSystem.dispose w))
    = h_live (LayerSystem.host w) - owned w
  /\ owned (LayerSystem.dispose w) = 0
  /\ LayerSystem.layers (LayerSystem.sys (LayerSystem.dispose w)) = []
  /\ slots (LayerSystem.compositor (LayerSystem.sys (LayerSystem.dispose w)))
       = (false, false)
  /\ calm (LayerSystem.host (LayerSystem.dispose w)) = calm (LayerSystem.host w).
Proof.
  unfold LayerSystem.dispose.
  set (w1 := match LayerSystem.activeLayerId (LayerSystem.sys w) with
             | Some _ => LayerSystem.end_ w
             | None => w
             end).
  assert (H1 : balance w1 = balance w
               /\ calm (LayerSystem.host w1) = calm (LayerSystem.host w)
               /\ LayerSystem.compositor (LayerSystem.sys w1)
                  = LayerSystem.compositor (LayerSystem.sys w)
               /\ heldByLayers (LayerSystem.layers (LayerSystem.sys w1))
                  = heldByLayers (LayerSystem.layers (LayerSystem.sys w))).
  { subst w1. destruct (LayerSystem.activeLayerId (LayerSystem.sys w));
      [|repeat split].
    destruct (end_balance w) as (E1 & E2 & E3).
    destruct (end_frame w) as (_ & El & _).
    repeat split; try assumption.
    unfold balance, owned in E1. rewrite E3, El in E1. lia. }
  clearbody w1. destruct H1 as (B1 & C1 & K1 & L1).
  unfold balance, owned in B1. rewrite K1, L1 in B1.
  cbn [LayerSystem.onSys LayerSystem.sys LayerSystem.host LayerSystem.layers
       LayerSystem.with_ui LayerSystem.with_layers LayerSystem.compositor].
  pose proof (disposeAll_live (LayerSystem.layers (LayerSystem.sys w1))
                (LayerSystem.host w1)) as [Hl Hf].
  destruct (LayerSystem.disposeAll _ _) as [ls' p3].
  cbn [fst snd] in Hl, Hf.
  pose proof (Compositor_dispose_live (LayerSystem.compositor (LayerSystem.sys w1)) p3)
    as (Hl4 & Hf4 & Hs4).
  destruct (Compositor.dispose _ p3) as [c p4].
  cbn [fst snd] in Hl4, Hf4, Hs4.
  unfold owned.
  cbn [LayerSystem.onSys LayerSystem.sys LayerSystem.host LayerSystem.layers
       LayerSystem.with_ui LayerSystem.with_layers LayerSystem.with_compositor
       LayerSystem.compositor].
  destruct (slots_held Compositor.constructor c Hs4) as [Hh _].
  rewrite K1 in Hl4.
  split; [lia|]. split; [unfold heldByLayers at 1; simpl; exact Hh|].
  split; [reflexivity|]. split; [exact Hs4|].
  unfold calm in *. congruence.
Qed.



Lemma userDraw_balance (t : Texture) (w : LayerSystem.World) :
  balance (userDraw t w) = balance w
  /\ calm (LayerSystem.host (userDraw t w)) = calm (LayerSystem.host w)
  /\ LayerSystem.compositor (LayerSystem.sys (userDraw t w))
       = LayerSystem.compositor (LayerSystem.sys w).
Proof.
  unfold userDraw. destruct (existsb _ _); [|repeat split].
  unfold balance, owned. simpl. rewrite held_map; [repeat split|].
  intros l. unfold hasBuffer. destruct (Layer.framebuffer l) as [f|] eqn:E;
    [destruct (fb_bound f); simpl; rewrite ?E|rewrite E]; reflexivity.
Qed.



End Resources.

(** X11.  [LayerSystem.dispose] releases exactly the framebuffers the system
    holds: one per layer that has its buffer and the ping-pong buffers
    of the compositor; afterwards the system holds none. *)
Theorem dispose_releases_what_is_held (w : LayerSystem.World) :
  h_live (LayerSystem.host (LayerSystem.dispose w))
    = h_live (LayerSystem.host w)
      - heldByLayers (LayerSystem.layers (LayerSystem.sys w))
      - heldByCompositor (LayerSystem.compositor (LayerSystem.sys w))
  /\ LayerSystem.layers (LayerSystem.sys (LayerSystem.dispose w)) = []
  /\ Compositor.bufferA (LayerSystem.compositor (LayerSystem.sys (LayerSystem.dispose w)))
       = None
  /\ Compositor.bufferB (LayerSystem.compositor (LayerSystem.sys (LayerSystem.dispose w)))
       = None.
Proof.
  destruct (dispose_live w) as (Hl & _ & Hls & Hs & _).
  unfold owned in Hl. split; [lia|]. split; [exact Hls|].
  apply slots_none, Hs.
Qed.



(* ------------------------------------------------------------------ *)
(** * The fragment program: range and alpha of its output              *)
(* ------------------------------------------------------------------ *)

Section Gamut.
Variable sqrt : Q -> Q.
Hypothesis sqrt_unit : unitSqrt sqrt.
Local Open Scope Q_scope.

Ltac qcases :=
  repeat match goal with
    | |- context [Qlt_bool ?x ?y] =>
        let E := fresh "E" in
        destruct (Qlt_bool x y) eqn:E;
        [apply Qlt_bool_true in E | apply Qlt_bool_false in E]
    | |- context [Qeq_bool ?x ?y] =>
        let E := fresh "E" in
        destruct (Qeq_bool x y) eqn:E;
        [apply Qeq_bool_iff in E | apply Qeq_bool_neq in E]
    end.

Lemma unit01_div (b d : Q) : 0 <= b -> 0 < d -> 0 <= b / d.
Proof. intros Hb Hd. apply Qle_shift_div_l; [exact Hd|lra]. Qed.

Lemma unit01_mul (x y : Q) : unit01 x -> unit01 y -> unit01 (x * y).
Proof.
  unfold unit01. intros Hx Hy.
  assert (P1 : 0 <= x * y) by (apply Qmult_le_0_compat; lra).
  assert (P2 : 0 <= (1 - x) * y) by (apply Qmult_le_0_compat; lra).
  split; lra.
Qed.

Lemma screen_unit (b l : Q) : unit01 b -> unit01 l -> unit01 (Frag.blendScreenF b l).
Proof. unfold unit01, Frag.blendScreenF. intros. split; nra. Qed.

Lemma overlay0_unit (b l : Q) : unit01 b -> unit01 l -> unit01 (Frag.blendOverlay_0F b l).
Proof. unfold unit01, Frag.blendOverlay_0F. intros. qcases; split; nra. Qed.

Lemma overlay1_unit (b l : Q) : unit01 b -> unit01 l -> unit01 (Frag.blendOverlay_1F b l).
Proof. unfold unit01, Frag.blendOverlay_1F. intros. qcases; split; nra. Qed.

Lemma softLight_unit (b l : Q) :
  unit01 b -> unit01 l -> unit01 (Frag.blendSoftLightF sqrt b l).
Proof.
  intros Hb Hl. pose proof (sqrt_unit b Hb) as Hs.
  unfold unit01, Frag.blendSoftLightF in *. qcases.
  - assert (P1 : 0 <= b * l) by (apply Qmult_le_0_compat; lra).
    assert (P2 : 0 <= b * b * (1 - 2 * l))
      by (apply Qmult_le_0_compat; [apply Qmult_le_0_compat|]; lra).
    assert (P4 : 0 <= b * (1 - b)) by (apply Qmult_le_0_compat; lra).
    assert (P3 : 0 <= (b - b * b) * (1 - 2 * l))
      by (apply Qmult_le_0_compat; lra).
    split; lra.
  - assert (P1 : 0 <= sqrt b * (2 * l - 1)) by (apply Qmult_le_0_compat; lra).
    assert (P2 : 0 <= b * (1 - l)) by (apply Qmult_le_0_compat; lra).
    assert (P3 : 0 <= (1 - sqrt b) * (2 * l - 1)) by (apply Qmult_le_0_compat; lra).
    assert (P4 : 0 <= (1 - b) * (1 - l)) by (apply Qmult_le_0_compat; lra).
    split; lra.
Qed.

Lemma colorDodge_unit (b l : Q) :
  unit01 b -> unit01 l -> unit01 (Frag.blendColorDodgeF b l).
Proof.
  unfold unit01, Frag.blendColorDodgeF, glsl_min. intros Hb Hl.
  qcases; try (split; lra).
  assert (Hd : 0 < 1 - l).
  { destruct (Qlt_le_dec l 1); [lra|].
    exfalso. match goal with Hn : ~ _ == _ |- _ => apply Hn end. lra. }
  split; [apply unit01_div; lra|assumption].
Qed.

Lemma colorBurn_unit (b l : Q) :
  unit01 b -> unit01 l -> unit01 (Frag.blendColorBurnF b l).
Proof.
  unfold unit01, Frag.blendColorBurnF, glsl_max. intros Hb Hl.
  qcases; try (split; lra).
  assert (Hd : 0 < l).
  { destruct (Qlt_le_dec 0 l); [lra|].
    exfalso. match goal with Hn : ~ _ == _ |- _ => apply Hn end. lra. }
  pose proof (unit01_div (1 - b) l) as Hq.
  split; [lra|]. assert (0 <= (1 - b) / l) by (apply Hq; lra). lra.
Qed.

Lemma darken_unit (b l : Q) : unit01 b -> unit01 l -> unit01 (Frag.blendDarkenF b l).
Proof. unfold unit01, Frag.blendDarkenF, glsl_min. intros. qcases; split; lra. Qed.

Lemma lighten_unit (b l : Q) : unit01 b -> unit01 l -> unit01 (Frag.blendLightenF b l).
Proof. unfold unit01, Frag.blendLightenF, glsl_max. intros. qcases; split; lra. Qed.

Lemma map2_unit (f : Q -> Q -> Q) (b l : vec3) :
  (forall x y, unit01 x -> unit01 y -> unit01 (f x y)) ->
  vec3_unit b -> vec3_unit l -> vec3_unit (vec3_map2 f b l).
Proof.
  intros Hf (B1 & B2 & B3) (L1 & L2 & L3). unfold vec3_unit, vec3_map2. simpl.
  split; [|split]; apply Hf; assumption.
Qed.

(** Every blend function maps displayable colours to displayable
    colours. *)
Lemma blendOf_unit (mode : Z) (b l : vec3) :
  vec3_unit b -> vec3_unit l -> vec3_unit (blendOf sqrt mode b l).
Proof.
  intros Hb Hl. unfold blendOf.
  repeat match goal with
    | |- context [(mode =? ?k)%Z] => destruct (mode =? k)%Z
    end;
    try exact Hl;
    try (apply map2_unit; try assumption;
         first [ exact screen_unit | exact overlay0_unit | exact overlay1_unit
               | exact softLight_unit
               | exact colorDodge_unit | exact colorBurn_unit
               | exact darken_unit | exact lighten_unit ]; fail).
  - (* MULTIPLY *)
    apply map2_unit; try assumption. unfold unit01. intros; split; nra.
  - (* ADD *)
    unfold Frag.blendAdd, vmin, vadd, vec3_all.
    destruct Hb as (B1 & B2 & B3), Hl as (L1 & L2 & L3).
    unfold vec3_unit, vec3_map2, unit01, glsl_min in *; simpl.
    repeat split; qcases; lra.
  - (* SUBTRACT *)
    unfold Frag.blendSubtract, vmax, vsub, vadd, vec3_all.
    destruct Hb as (B1 & B2 & B3), Hl as (L1 & L2 & L3).
    unfold vec3_unit, vec3_map2, unit01, glsl_max in *; simpl.
    repeat split; qcases; lra.
  - (* DIFFERENCE *)
    unfold Frag.blendDifference, vabs, vsub.
    destruct Hb as (B1 & B2 & B3), Hl as (L1 & L2 & L3).
    unfold vec3_unit, vec3_map, vec3_map2, unit01, glsl_abs in *; simpl.
    repeat split; qcases; lra.
  - (* EXCLUSION *)
    unfold Frag.blendExclusion, vsub, vadd, vmul, kscale.
    destruct Hb as (B1 & B2 & B3), Hl as (L1 & L2 & L3).
    unfold vec3_unit, vec3_map, vec3_map2, unit01 in *; simpl.
    repeat split; nra.
Qed.

Lemma withOpacity_unit (f : vec3 -> vec3 -> vec3) (b l : vec3) (o : Q) :
  vec3_unit (f b l) -> vec3_unit b -> unit01 o ->
  vec3_unit (Frag.withOpacity f b l o).
Proof.
  intros (F1 & F2 & F3) (B1 & B2 & B3) Ho.
  unfold Frag.withOpacity, vadd, vscale, vec3_unit, vec3_map2, vec3_map, unit01 in *.
  simpl. repeat split; nra.
Qed.

(** X13.  The fragment program keeps colours displayable: when the texels it
    reads have all channels in [0, 1] and the layer opacity is in
    [0, 1], so has the colour it writes, for every opcode, with or
    without mask. *)
Theorem fragment_stays_in_gamut (u : Frag.Uniforms) (uv : UV) :
  inGamut (Frag.layerTexture u uv) ->
  inGamut (Frag.backgroundTexture u uv) ->
  inGamut (Frag.maskTexture u uv) ->
  unit01 (Frag.layerOpacity u) ->
  inGamut (Frag.main sqrt u uv).
Proof.
  intros HL HB HM Ho. unfold Frag.main.
  set (L := Frag.layerTexture u uv) in *. set (B := Frag.backgroundTexture u uv) in *.
  set (m := Frag.maskTexture u uv) in *. set (o := Frag.layerOpacity u) in *.
  set (fo := if Frag.hasMask u then c_a L * o * c_r m else c_a L * o).
  assert (Hfo : unit01 fo).
  { destruct HL as (_ & _ & _ & HLa), HM as (HMr & _).
    subst fo. destruct (Frag.hasMask u); repeat apply unit01_mul; assumption. }
  destruct (Qle_bool fo 0); [exact HB|].
  rewrite applyBlendMode_withOpacity.
  assert (Hb : vec3_unit (rgb B))
    by (destruct HB as (H1 & H2 & H3 & _); exact (conj H1 (conj H2 H3))).
  assert (Hl : vec3_unit (rgb L))
    by (destruct HL as (H1 & H2 & H3 & _); exact (conj H1 (conj H2 H3))).
  destruct (withOpacity_unit (blendOf sqrt (Frag.blendMode u)) (rgb B) (rgb L) fo
              (blendOf_unit _ _ _ Hb Hl) Hb Hfo) as (R1 & R2 & R3).
  unfold inGamut. simpl. split; [exact R1|]. split; [exact R2|]. split; [exact R3|].
  unfold unit01. lra.
Qed.

End Gamut.

Lemma demoSqrt_unit : unitSqrt demoSqrt.
Proof.
  intros [n d] [H0 H1]. unfold demoSqrt, unit01, Qle in *. simpl in *.
  rewrite Z.mul_1_r in *. rewrite Z.mul_1_l in H1.
  assert (Hs : (Z.sqrt (n * Z.pos d * 2 ^ 32) <= Z.pos d * 2 ^ 16)%Z).
  { rewrite <- (Z.sqrt_square (Z.pos d * 2 ^ 16)) by lia.
    apply Z.sqrt_le_mono. nia. }
  split; [apply Z.sqrt_nonneg|].
  rewrite Pos2Z.inj_mul. change (Z.pos (2 ^ 16)) with (2 ^ 16)%Z. lia.
Qed.

Lemma fragment_stays_in_gamut_witness :
  inGamut (Frag.main demoSqrt
             (Frag.mkUniforms (solid (1#2) (1#4) 1 1) (solid 1 0 (1#3) 1)
                (solid 1 1 1 1) false (1#2) 6) (0, 0)%Q).
Proof.
  apply (fragment_stays_in_gamut demoSqrt demoSqrt_unit).
  - unfold inGamut, unit01, solid; simpl; repeat split; lra.
  - unfold inGamut, unit01, solid; simpl; repeat split; lra.
  - unfold inGamut, unit01, solid; simpl; repeat split; lra.
  - unfold unit01; simpl; lra.
Defined.

(* ------------------------------------------------------------------ *)
(** * The frame is cleared or opaque at every pixel                    *)
(* ------------------------------------------------------------------ *)

Section FlatAlpha.






End FlatAlpha.


(* ------------------------------------------------------------------ *)
(** * clampBounds, padBounds, mergeBounds                              *)
(* ------------------------------------------------------------------ *)

Section BoundsLemmas.
Local Open Scope Q_scope.

(** Name every [Qmin] and [Qmax] of the goal, innermost first, keeping
    what [Q.min_spec] and [Q.max_spec] say about it. *)
Ltac qmm_name :=
  repeat match goal with
    | |- context [Qmin ?a ?b] =>
        lazymatch a with
        | context [Qmin _ _] => fail
        | context [Qmax _ _] => fail
        | _ =>
            lazymatch b with
            | context [Qmin _ _] => fail
            | context [Qmax _ _] => fail
            | _ =>
                let H := fresh "Hmin" in
                let m := fresh "m" in
                let E := fresh "E" in
                pose proof (Q.min_spec a b) as H;
                remember (Qmin a b) as m eqn:E; clear E
            end
        end
    | |- context [Qmax ?a ?b] =>
        lazymatch a with
        | context [Qmin _ _] => fail
        | context [Qmax _ _] => fail
        | _ =>
            lazymatch b with
            | context [Qmin _ _] => fail
            | context [Qmax _ _] => fail
            | _ =>
                let H := fresh "Hmax" in
                let m := fresh "m" in
                let E := fresh "E" in
                pose proof (Q.max_spec a b) as H;
                remember (Qmax a b) as m eqn:E; clear E
            end
        end
    end.

Ltac qmm :=
  qmm_name;
  repeat match goal with
    | H : (_ /\ _) \/ (_ /\ _) |- _ => destruct H as [[? ?]|[? ?]]
    end;
  try lra.

Lemma clampBounds_within (b : Bounds.t) (maxWidth maxHeight : Q) :
  0 <= maxWidth -> 0 <= maxHeight ->
  exists b', clampBounds (Some b) maxWidth maxHeight = Some b'
             /\ Bounds.within maxWidth maxHeight b'.
Proof.
  intros HW HH. eexists. split; [reflexivity|].
  unfold Bounds.within, Bounds.right, Bounds.bottom. cbn.
  repeat split; qmm.
Qed.

Lemma clampBounds_fixes (b : Bounds.t) (maxWidth maxHeight : Q) :
  Bounds.within maxWidth maxHeight b ->
  exists b', clampBounds (Some b) maxWidth maxHeight = Some b' /\ Bounds.equiv b' b.
Proof.
  unfold Bounds.within, Bounds.right, Bounds.bottom.
  intros (Hx & Hy & Hw & Hh & Hr & Hb). eexists. split; [reflexivity|].
  unfold Bounds.equiv. cbn. repeat split; qmm.
Qed.


(** X15.  [clampBounds] puts a rectangle inside the surface: with limits
    that are not negative the result has its corner and its size not
    negative and ends at most at the limits; a rectangle that is
    inside already is returned as it is; [null] is passed through. *)
Theorem clampBounds_inside (b : Bounds.t) (maxWidth maxHeight : Q) :
  (0 <= maxWidth)%Q -> (0 <= maxHeight)%Q ->
  clampBounds None maxWidth maxHeight = None
  /\ (exists b', clampBounds (Some b) maxWidth maxHeight = Some b'
                 /\ Bounds.within maxWidth maxHeight b')
  /\ (Bounds.within maxWidth maxHeight b ->
      exists b', clampBounds (Some b) maxWidth maxHeight = Some b'
                 /\ Bounds.equiv b' b).
Proof.
  intros HW HH. split; [reflexivity|]. split.
  - apply clampBounds_within; assumption.
  - apply clampBounds_fixes.
Qed.

Lemma clampBounds_inside_witness :
  clampBounds None 100 50 = None
  /\ (exists b', clampBounds (Some (Bounds.mk (-10) 20 200 10)) 100 50 = Some b'
                 /\ Bounds.within 100 50 b')
  /\ (Bounds.within 100 50 (Bounds.mk (-10) 20 200 10) ->
      exists b', clampBounds (Some (Bounds.mk (-10) 20 200 10)) 100 50 = Some b'
                 /\ Bounds.equiv b' (Bounds.mk (-10) 20 200 10)).
Proof.
  apply (clampBounds_inside (Bounds.mk (-10) 20 200 10) 100 50); unfold Qle; simpl; lia.
Defined.

(** X16.  Clamping twice is clamping once, whatever the limits. *)
Theorem clampBounds_idempotent (bounds : option Bounds.t) (maxWidth maxHeight : Q) :
  match clampBounds bounds maxWidth maxHeight,
        clampBounds (clampBounds bounds maxWidth maxHeight) maxWidth maxHeight with
  | Some b1, Some b2 => Bounds.equiv b2 b1
  | None, None => bounds = None
  | _, _ => False
  end.
Proof.
  destruct bounds as [b|]; [|reflexivity].
  unfold Bounds.equiv. cbn. repeat split; qmm.
Qed.

(** X17.  [padBounds] of a rectangle inside the surface, with a padding that
    is not negative, stays inside the surface and covers the
    rectangle. *)
Theorem padBounds_covers (b : Bounds.t) (padding maxWidth maxHeight : Q) :
  (0 <= padding)%Q ->
  Bounds.within maxWidth maxHeight b ->
  exists b', padBounds (Some b) padding maxWidth maxHeight = Some b'
             /\ Bounds.within maxWidth maxHeight b'
             /\ Bounds.covers b' b.
Proof.
  unfold Bounds.within, Bounds.covers, Bounds.right, Bounds.bottom.
  intros Hp (Hx & Hy & Hw & Hh & Hr & Hb). eexists. split; [reflexivity|].
  cbn. repeat split; qmm.
Qed.

Lemma padBounds_covers_witness :
  exists b', padBounds (Some (Bounds.mk 2 10 20 30)) 4 100 50 = Some b'
             /\ Bounds.within 100 50 b'
             /\ Bounds.covers b' (Bounds.mk 2 10 20 30).
Proof.
  apply (padBounds_covers (Bounds.mk 2 10 20 30) 4 100 50).
  - unfold Qle; simpl; lia.
  - unfold Bounds.within, Bounds.right, Bounds.bottom, Qle; simpl. repeat split; lia.
Defined.

Lemma hullOf_first (seen : list (option Bounds.t)) (b : Bounds.t) :
  (forall o, In o seen -> o = None) ->
  hullOf (seen ++ [Some b])
    (mkExtremes (Bounds.x b) (Bounds.y b) (Bounds.right b) (Bounds.bottom b)).
Proof.
  intros Hnone.
  assert (Hin : In (Some b) (seen ++ [Some b])) by (apply in_or_app; right; left; reflexivity).
  split; [|repeat split; exists b; split; auto].
  intros b' Hb'. apply in_app_or in Hb'. destruct Hb' as [Hb'|[Hb'|[]]].
  - apply Hnone in Hb'. discriminate.
  - injection Hb' as <-. simpl. repeat split; lra.
Qed.

Lemma hullOf_next (seen : list (option Bounds.t)) (e : Extremes) (b : Bounds.t) :
  hullOf seen e ->
  exists e', mergeStep (Some e) (Some b) = Some e' /\ hullOf (seen ++ [Some b]) e'.
Proof.
  intros (Hall & (b1 & I1 & E1) & (b2 & I2 & E2) & (b3 & I3 & E3) & (b4 & I4 & E4)).
  eexists. split; [reflexivity|].
  assert (Hin : In (Some b) (seen ++ [Some b])) by (apply in_or_app; right; left; reflexivity).
  assert (Hold : forall b', In (Some b') seen -> In (Some b') (seen ++ [Some b]))
    by (intros; apply in_or_app; left; assumption).
  split; [|split; [|split; [|split]]]; simpl.
  - intros b' Hb'. apply in_app_or in Hb'.
    assert (Hcase : In (Some b') seen \/ b' = b)
      by (destruct Hb' as [|[[= ->]|[]]]; auto).
    clear Hb'.
    destruct (Qlt_bool (Bounds.x b) (e_minX e)) eqn:C1;
      [apply Qlt_bool_true in C1|apply Qlt_bool_false in C1];
    destruct (Qlt_bool (Bounds.y b) (e_minY e)) eqn:C2;
      [apply Qlt_bool_true in C2|apply Qlt_bool_false in C2|
       apply Qlt_bool_true in C2|apply Qlt_bool_false in C2];
    destruct (Qlt_bool (e_maxX e) (Bounds.right b)) eqn:C3;
      try apply Qlt_bool_true in C3; try apply Qlt_bool_false in C3;
    destruct (Qlt_bool (e_maxY e) (Bounds.bottom b)) eqn:C4;
      try apply Qlt_bool_true in C4; try apply Qlt_bool_false in C4;
    (destruct Hcase as [Hs| ->];
     [destruct (Hall b' Hs) as (A1 & A2 & A3 & A4); repeat split; lra
     |repeat split; lra]).
  - destruct (Qlt_bool (Bounds.x b) (e_minX e));
      [exists b; auto|exists b1; auto].
  - destruct (Qlt_bool (Bounds.y b) (e_minY e));
      [exists b; auto|exists b2; auto].
  - destruct (Qlt_bool (e_maxX e) (Bounds.right b));
      [exists b; auto|exists b3; auto].
  - destruct (Qlt_bool (e_maxY e) (Bounds.bottom b));
      [exists b; auto|exists b4; auto].
Qed.

Lemma fold_mergeStep_hull (l seen : list (option Bounds.t)) (acc : option Extremes) :
  match acc with
  | None => forall o, In o seen -> o = None
  | Some e => hullOf seen e
  end ->
  match fold_left mergeStep l acc with
  | None => forall o, In o (seen ++ l) -> o = None
  | Some e => hullOf (seen ++ l) e
  end.
Proof.
  revert seen acc. induction l as [|o l IH]; intros seen acc Hacc.
  - simpl. rewrite app_nil_r. exact Hacc.
  - change (seen ++ o :: l)%list with (seen ++ [o] ++ l)%list.
    rewrite app_assoc. simpl fold_left. apply IH.
    destruct o as [b|]; simpl.
    + destruct acc as [e|].
      * destruct (hullOf_next seen e b Hacc) as (e' & He' & Hh).
        simpl in He'. injection He' as <-. exact Hh.
      * apply hullOf_first, Hacc.
    + destruct acc as [e|].
      * destruct Hacc as (Hall & (b1 & I1 & E1) & (b2 & I2 & E2) & (b3 & I3 & E3)
                          & (b4 & I4 & E4)).
        split;
          [|split; [exists b1|split; [exists b2|split; [exists b3|exists b4]]];
            (split; [apply in_or_app; left; assumption|assumption])].
        intros b' Hb'. apply in_app_or in Hb'. destruct Hb' as [Hb'|[Hb'|[]]];
          [apply Hall, Hb'|discriminate].
      * intros o Ho. apply in_app_or in Ho. destruct Ho as [Ho|[<-|[]]];
          [apply Hacc, Ho|reflexivity].
Qed.

(** X18.  [mergeBounds] returns the hull of the non-null entries: [null]
    exactly when there is none; otherwise a rectangle that covers
    every entry, whose left and top edges are those of some entry, and
    whose right and bottom edges are those of some entry when no entry
    has a negative size. *)
Theorem mergeBounds_hull (boundsList : list (option Bounds.t)) :
  match mergeBounds boundsList with
  | None => forall o, In o boundsList -> o = None
  | Some m =>
      (forall b, In (Some b) boundsList -> Bounds.covers m b)
      /\ (exists b, In (Some b) boundsList /\ Bounds.x m = Bounds.x b)
      /\ (exists b, In (Some b) boundsList /\ Bounds.y m = Bounds.y b)
      /\ ((forall b, In (Some b) boundsList ->
             0 <= Bounds.width b /\ 0 <= Bounds.height b) ->
          (exists b, In (Some b) boundsList /\ Bounds.right m == Bounds.right b)
          /\ (exists b, In (Some b) boundsList /\ Bounds.bottom m == Bounds.bottom b))
  end.
Proof.
  unfold mergeBounds. destruct boundsList as [|o l]; [intros o []|].
  pose proof (fold_mergeStep_hull (o :: l) [] None (fun _ H => match H with end)) as H.
  cbn [app] in H.
  destruct (fold_left mergeStep (o :: l) None) as [e|]; [|exact H].
  destruct H as (Hall & (b1 & I1 & E1) & (b2 & I2 & E2) & (b3 & I3 & E3) & (b4 & I4 & E4)).
  split; [|split; [exists b1; auto|split; [exists b2; auto|]]].
  - intros b Hb. destruct (Hall b Hb) as (A1 & A2 & A3 & A4).
    unfold Bounds.covers, Bounds.right, Bounds.bottom in *. cbn.
    repeat split; qmm.
  - intros Hpos.
    destruct (Hall b3 I3) as (A1 & _). destruct (Hall b4 I4) as (_ & A2 & _).
    destruct (Hpos b3 I3) as [P3 _]. destruct (Hpos b4 I4) as [_ P4].
    split; [exists b3|exists b4]; (split; [assumption|]);
      unfold Bounds.right, Bounds.bottom in *; cbn; rewrite ?E3, ?E4;
      unfold Bounds.right, Bounds.bottom in *; qmm.
Qed.


End BoundsLemmas.

(* ------------------------------------------------------------------ *)
(** * computeAlphaBounds                                               *)
(* ------------------------------------------------------------------ *)

Section AlphaBounds.

Variable pixels : list Z.
Variables width height : Z.
Variable threshold : Q.

Lemma coords_In (step n : Z) (fuel : nat) (from x : Z) :
  1 <= step ->
  (Z.to_nat (n - from) <= fuel)%nat ->
  In x (coords fuel step n from) <-> from <= x < n /\ (x - from) mod step = 0.
Proof.
  intros Hs. revert from. induction fuel as [|fuel IH]; intros from Hfuel; simpl.
  - destruct (Z.ltb_spec from n); [lia|]. simpl. split; [intros []|lia].
  - destruct (Z.ltb_spec from n) as [Hlt|Hge]; [|simpl; split; [intros []|lia]].
    simpl. rewrite IH by lia. split.
    + intros [<-|[Hr Hm]].
      * rewrite Z.sub_diag. split; [lia|apply Z.mod_0_l; lia].
      * split; [lia|].
        replace (x - from) with ((x - (from + step)) + 1 * step) by ring.
        rewrite Z.mod_add by lia. exact Hm.
    + intros [Hr Hm].
      apply Z.mod_divide in Hm; [|lia]. destruct Hm as [k Hk].
      destruct (Z.eq_dec k 0) as [->|Hk0]; [left; lia|].
      right. assert (1 <= k) by nia. split; [nia|].
      replace (x - (from + step)) with ((k - 1) * step) by lia.
      apply Z.mod_mul. lia.
Qed.

Lemma coords_sampled (step n : Z) (fuel : nat) (x : Z) :
  1 <= step ->
  (Z.to_nat n <= fuel)%nat ->
  In x (coords fuel step n 0) <-> sampled step n x.
Proof.
  intros Hs Hf. rewrite coords_In by (try assumption; rewrite Z.sub_0_r; exact Hf).
  unfold sampled. rewrite Z.sub_0_r. reflexivity.
Qed.

Lemma scanRow_fold (step y : Z) (fuel : nat) (x : Z) (s : Scan) :
  1 <= step ->
  (Z.to_nat (width - x) <= fuel)%nat ->
  scanRow fuel pixels width threshold step y x s
    = Some (fold_left (visit pixels width threshold y) (coords fuel step width x) s).
Proof.
  intros Hs. revert x s. induction fuel as [|fuel IH]; intros x s Hfuel; simpl.
  - destruct (Z.ltb_spec x width); [lia|reflexivity].
  - destruct (Z.ltb_spec x width); [|reflexivity].
    simpl. apply IH. lia.
Qed.

Lemma scanRows_fold (step : Z) (inner fuel : nat) (y : Z) (s : Scan) :
  1 <= step ->
  (Z.to_nat width <= inner)%nat ->
  (Z.to_nat (height - y) <= fuel)%nat ->
  scanRows fuel inner pixels width height threshold step y s
    = Some (fold_left
              (fun s y => fold_left (visit pixels width threshold y)
                            (coords inner step width 0) s)
              (coords fuel step height y) s).
Proof.
  intros Hs Hin. revert y s. induction fuel as [|fuel IH]; intros y s Hfuel; simpl.
  - destruct (Z.ltb_spec y height); [lia|reflexivity].
  - destruct (Z.ltb_spec y height); [|reflexivity].
    rewrite scanRow_fold by (try assumption; rewrite Z.sub_0_r; exact Hin).
    simpl. apply IH. lia.
Qed.

Lemma fold_grid (xs ys : list Z) (s : Scan) :
  fold_left (fun s y => fold_left (visit pixels width threshold y) xs s) ys s
    = fold_left (fun s p => visit pixels width threshold (snd p) s (fst p))
        (grid xs ys) s.
Proof.
  unfold grid. revert s. induction ys as [|y ys IH]; intros s; simpl; [reflexivity|].
  rewrite fold_left_app, <- IH. f_equal.
  clear IH. revert s. induction xs as [|x xs IHx]; intros s; simpl; [reflexivity|].
  apply IHx.
Qed.

Lemma In_grid (xs ys : list Z) (p : Z * Z) :
  In p (grid xs ys) <-> In (fst p) xs /\ In (snd p) ys.
Proof.
  unfold grid. rewrite in_flat_map. split.
  - intros (y & Hy & Hp). apply in_map_iff in Hp. destruct Hp as (x & <- & Hx).
    simpl. auto.
  - intros [Hx Hy]. exists (snd p). split; [exact Hy|].
    apply in_map_iff. exists (fst p). split; [destruct p; reflexivity|exact Hx].
Qed.

Lemma scanned_step (seen : list (Z * Z)) (s : Scan) (p : Z * Z) :
  0 <= fst p < width -> 0 <= snd p < height ->
  scanned pixels width height threshold seen s ->
  scanned pixels width height threshold (seen ++ [p])
    (visit pixels width threshold (snd p) s (fst p)).
Proof.
  intros Hx Hy Hs. unfold visit.
  assert (Hlast : In p (seen ++ [p])) by (apply in_or_app; right; left; reflexivity).
  assert (Hold : forall q, In q seen -> In q (seen ++ [p]))
    by (intros; apply in_or_app; left; assumption).
  destruct (opaqueAt pixels width threshold (fst p) (snd p)) eqn:Hop.
  - right. destruct Hs as [[Hnone ->]|(Hall & (p1 & I1 & O1 & E1) & (p2 & I2 & O2 & E2)
                                       & (p3 & I3 & O3 & E3) & (p4 & I4 & O4 & E4))].
    + unfold mark. simpl.
      destruct (Z.ltb_spec (fst p) width); [|lia].
      destruct (Z.ltb_spec (snd p) height); [|lia].
      destruct (Z.ltb_spec (-1) (fst p)); [|lia].
      destruct (Z.ltb_spec (-1) (snd p)); [|lia].
      simpl. split; [|repeat split; exists p; auto].
      intros q Hq Hoq. apply in_app_or in Hq. destruct Hq as [Hq|[<-|[]]]; [|lia].
      rewrite (Hnone q Hq) in Hoq. discriminate.
    + unfold mark.
      split; [|split; [|split; [|split]]]; simpl.
      * intros q Hq Hoq. apply in_app_or in Hq.
        assert (Hcase : In q seen \/ q = p) by (destruct Hq as [|[<-|[]]]; auto).
        clear Hq.
        destruct (Z.ltb_spec (fst p) (minX s)), (Z.ltb_spec (snd p) (minY s)),
          (Z.ltb_spec (maxX s) (fst p)), (Z.ltb_spec (maxY s) (snd p));
          (destruct Hcase as [Hq| ->]; [pose proof (Hall q Hq Hoq); lia|lia]).
      * destruct (Z.ltb_spec (fst p) (minX s)); [exists p; auto|exists p1; auto].
      * destruct (Z.ltb_spec (snd p) (minY s)); [exists p; auto|exists p2; auto].
      * destruct (Z.ltb_spec (maxX s) (fst p)); [exists p; auto|exists p3; auto].
      * destruct (Z.ltb_spec (maxY s) (snd p)); [exists p; auto|exists p4; auto].
  - destruct Hs as [[Hnone ->]|(Hall & (p1 & I1 & O1 & E1) & (p2 & I2 & O2 & E2)
                                & (p3 & I3 & O3 & E3) & (p4 & I4 & O4 & E4))].
    + left. split; [|reflexivity].
      intros q Hq. apply in_app_or in Hq. destruct Hq as [Hq|[<-|[]]]; auto.
    + right. split; [|split; [exists p1|split; [exists p2|split; [exists p3|exists p4]]]; auto].
      intros q Hq Hoq. apply in_app_or in Hq. destruct Hq as [Hq|[<-|[]]]; [auto|].
      congruence.
Qed.

Lemma fold_scanned (rest seen : list (Z * Z)) (s : Scan) :
  (forall p, In p rest -> 0 <= fst p < width /\ 0 <= snd p < height) ->
  scanned pixels width height threshold seen s ->
  scanned pixels width height threshold (seen ++ rest)
    (fold_left (fun s p => visit pixels width threshold (snd p) s (fst p)) rest s).
Proof.
  revert seen s. induction rest as [|p rest IH]; intros seen s Hrange Hs; simpl.
  - rewrite app_nil_r. exact Hs.
  - change (seen ++ p :: rest)%list with (seen ++ [p] ++ rest)%list.
    rewrite app_assoc. apply IH.
    + intros q Hq. apply Hrange. right. exact Hq.
    + destruct (Hrange p (or_introl eq_refl)). apply scanned_step; assumption.
Qed.

(** The scan of a whole image, for a stride of at least 1. *)
Lemma scanRows_scanned (step : Z) (fuel : nat) :
  1 <= step ->
  (Z.to_nat (Z.max width height) <= fuel)%nat ->
  exists s,
    scanRows fuel fuel pixels width height threshold step 0
      (mkScan width height (-1) (-1)) = Some s
    /\ scanned pixels width height threshold
         (grid (coords fuel step width 0) (coords fuel step height 0)) s.
Proof.
  intros Hs Hf. eexists. split.
  - apply scanRows_fold; [assumption|lia|lia].
  - rewrite fold_grid.
    apply (fold_scanned _ []).
    + intros p Hp. apply In_grid in Hp. destruct Hp as [Hx Hy].
      apply coords_sampled in Hx; [|assumption|lia].
      apply coords_sampled in Hy; [|assumption|lia].
      unfold sampled in *. lia.
    + left. split; [intros p []|reflexivity].
Qed.

End AlphaBounds.

(** X19.  With a stride of at least 1 (the default, and every option value
    of 1 or more) [computeAlphaBounds] returns: a fuel of the larger
    side is enough.  It returns [null] exactly when no sampled pixel
    has an alpha above the threshold; otherwise the box from
    [(x0, y0)] to [(x1, y1)], both included, that contains every such
    pixel and has one of them on each of its four edges. *)
Theorem computeAlphaBounds_tight (pixels : list Z) (width height : Z)
    (options : AlphaOptions) (fuel : nat) :
  1 <= strideOf options ->
  (Z.to_nat (Z.max width height) <= fuel)%nat ->
  let opaque := opaqueAt pixels width (thresholdOf options) in
  let inX := sampled (strideOf options) width in
  let inY := sampled (strideOf options) height in
  exists r,
    computeAlphaBounds fuel pixels width height options = Some r
    /\ match r with
       | None => forall x y, inX x -> inY y -> opaque x y = false
       | Some b =>
           exists x0 y0 x1 y1,
             b = Bounds.mk (inject_Z x0) (inject_Z y0)
                   (inject_Z (x1 - x0 + 1)) (inject_Z (y1 - y0 + 1))
             /\ (forall x y, inX x -> inY y -> opaque x y = true ->
                   x0 <= x <= x1 /\ y0 <= y <= y1)
             /\ (exists y, inX x0 /\ inY y /\ opaque x0 y = true)
             /\ (exists x, inX x /\ inY y0 /\ opaque x y0 = true)
             /\ (exists y, inX x1 /\ inY y /\ opaque x1 y = true)
             /\ (exists x, inX x /\ inY y1 /\ opaque x y1 = true)
       end.
Proof.
  intros Hs Hf. cbv zeta. unfold computeAlphaBounds.
  destruct (scanRows_scanned pixels width height (thresholdOf options)
              (strideOf options) fuel Hs Hf) as (s & -> & Hsc).
  eexists. split; [reflexivity|].
  assert (Hgrid : forall p,
             In p (grid (coords fuel (strideOf options) width 0)
                     (coords fuel (strideOf options) height 0))
             <-> sampled (strideOf options) width (fst p)
                 /\ sampled (strideOf options) height (snd p)).
  { intros p. rewrite In_grid, !coords_sampled by (try assumption; lia). reflexivity. }
  destruct Hsc as [[Hnone ->]|(Hall & (p1 & I1 & O1 & E1) & (p2 & I2 & O2 & E2)
                               & (p3 & I3 & O3 & E3) & (p4 & I4 & O4 & E4))].
  - simpl. intros x y Hx Hy. apply (Hnone (x, y)). apply Hgrid. simpl. auto.
  - apply Hgrid in I1, I2, I3, I4.
    assert (H3 : 0 <= maxX s) by (destruct I3 as [[? _] _]; lia).
    assert (H4 : 0 <= maxY s) by (destruct I4 as [_ [? _]]; lia).
    destruct (Z.eqb_spec (maxX s) (-1)); [lia|].
    destruct (Z.eqb_spec (maxY s) (-1)); [lia|].
    simpl. exists (minX s), (minY s), (maxX s), (maxY s).
    split; [reflexivity|]. split.
    { intros x y Hx Hy Ho. apply (Hall (x, y)); [apply Hgrid; simpl; auto|exact Ho]. }
    rewrite <- E1, <- E2, <- E3, <- E4.
    split; [exists (snd p1); tauto|]. split; [exists (fst p2); tauto|].
    split; [exists (snd p3); tauto|exists (fst p4); tauto].
Qed.

Lemma computeAlphaBounds_tight_witness :
  exists r,
    computeAlphaBounds 2 [0; 0; 0; 0;  0; 0; 0; 255;  0; 0; 0; 0;  0; 0; 0; 9] 2 2
      (mkAlphaOptions None None) = Some r
    /\ match r with
       | None =>
           forall x y, sampled 1 2 x -> sampled 1 2 y ->
             opaqueAt [0; 0; 0; 0;  0; 0; 0; 255;  0; 0; 0; 0;  0; 0; 0; 9] 2 8 x y = false
       | Some b =>
           exists x0 y0 x1 y1,
             b = Bounds.mk (inject_Z x0) (inject_Z y0)
                   (inject_Z (x1 - x0 + 1)) (inject_Z (y1 - y0 + 1))
             /\ (forall x y, sampled 1 2 x -> sampled 1 2 y ->
                   opaqueAt [0; 0; 0; 0;  0; 0; 0; 255;  0; 0; 0; 0;  0; 0; 0; 9] 2 8 x y
                     = true ->
                   x0 <= x <= x1 /\ y0 <= y <= y1)
             /\ (exists y, sampled 1 2 x0 /\ sampled 1 2 y
                           /\ opaqueAt [0; 0; 0; 0;  0; 0; 0; 255;  0; 0; 0; 0;  0; 0; 0; 9]
                                2 8 x0 y = true)
             /\ (exists x, sampled 1 2 x /\ sampled 1 2 y0
                           /\ opaqueAt [0; 0; 0; 0;  0; 0; 0; 255;  0; 0; 0; 0;  0; 0; 0; 9]
                                2 8 x y0 = true)
             /\ (exists y, sampled 1 2 x1 /\ sampled 1 2 y
                           /\ opaqueAt [0; 0; 0; 0;  0; 0; 0; 255;  0; 0; 0; 0;  0; 0; 0; 9]
                                2 8 x1 y = true)
             /\ (exists x, sampled 1 2 x /\ sampled 1 2 y1
                           /\ opaqueAt [0; 0; 0; 0;  0; 0; 0; 255;  0; 0; 0; 0;  0; 0; 0; 9]
                                2 8 x y1 = true)
       end.
Proof.
  apply (computeAlphaBounds_tight
           [0; 0; 0; 0;  0; 0; 0; 255;  0; 0; 0; 0;  0; 0; 0; 9] 2 2
           (mkAlphaOptions None None) 2).
  - unfold strideOf. simpl. lia.
  - simpl. lia.
Defined.

Lemma Qfloor_fraction (s : Q) : (0 < s)%Q -> (s < 1)%Q -> Qfloor s = 0.
Proof.
  intros H0 H1.
  assert (Hlo : 0 <= Qfloor s).
  { change 0 with (Qfloor 0). apply Qfloor_resp_le. apply Qlt_le_weak, H0. }
  assert (Hhi : Qfloor s < 1).
  { apply Z.lt_nge. intros Hge.
    assert (Hq : (inject_Z 1 <= inject_Z (Qfloor s))%Q)
      by (rewrite <- Zle_Qle; exact Hge).
    pose proof (Qfloor_le s) as Hle. change (inject_Z 1) with 1%Q in Hq. lra. }
  lia.
Qed.

Lemma scanRows_stuck (pixels : list Z) (width height : Z) (threshold : Q)
    (fuel inner : nat) (s : Scan) :
  0 < height ->
  scanRows fuel inner pixels width height threshold 0 0 s = None.
Proof.
  intros Hh. revert s. induction fuel as [|fuel IH]; intros s; simpl.
  - destruct (Z.ltb_spec 0 height); [reflexivity|lia].
  - destruct (Z.ltb_spec 0 height); [|lia].
    destruct (scanRow inner pixels width threshold 0 0 0 s); [apply IH|reflexivity].
Qed.

(** X20.  A stride option strictly between 0 and 1 passes the guard
    [stride > 0] and is floored to 0: the loops then never advance, and
    on an image with at least one row [computeAlphaBounds] does not
    return, whatever the fuel. *)
Theorem computeAlphaBounds_hangs (pixels : list Z) (width height : Z)
    (options : AlphaOptions) (s : Q) :
  stride options = Some s ->
  (0 < s)%Q -> (s < 1)%Q ->
  0 < height ->
  strideOf options = 0
  /\ forall fuel, computeAlphaBounds fuel pixels width height options = None.
Proof.
  intros Hs H0 H1 Hh.
  assert (Hstride : strideOf options = 0).
  { unfold strideOf. rewrite Hs.
    destruct (Qlt_bool 0 s) eqn:E; [apply Qfloor_fraction; assumption|].
    apply Qlt_bool_false in E. lra. }
  split; [exact Hstride|].
  intros fuel. unfold computeAlphaBounds. rewrite Hstride.
  rewrite scanRows_stuck by exact Hh. reflexivity.
Qed.

Lemma computeAlphaBounds_hangs_witness :
  strideOf (mkAlphaOptions None (Some (1 # 2))) = 0
  /\ forall fuel,
       computeAlphaBounds fuel [0; 0; 0; 255] 1 1 (mkAlphaOptions None (Some (1 # 2)))
         = None.
Proof.
  apply (computeAlphaBounds_hangs [0; 0; 0; 255] 1 1
           (mkAlphaOptions None (Some (1 # 2))) (1 # 2) eq_refl);
    [reflexivity|reflexivity|lia].
Defined.

(* ------------------------------------------------------------------ *)
(** * What a frame touches                                             *)
(* ------------------------------------------------------------------ *)

Section Frame.

Ltac surf := unfold geometry in *; simpl in *; repeat split; congruence.

(** What the compositor and the layers leave alone in the host. *)
Lemma createFramebuffer_surface (o : FramebufferOptions) (p : Host) :
  h_canvas (snd (createFramebuffer o p)) = h_canvas p
  /\ geometry (snd (createFramebuffer o p)) = geometry p.
Proof.
  unfold createFramebuffer. destruct (h_framebufferFaults p) as [|[] ?]; split; reflexivity.
Qed.

Lemma Layer_createFramebuffer_surface (l : Layer.t) (p : Host) :
  h_canvas (snd (Layer._createFramebuffer l p)) = h_canvas p
  /\ geometry (snd (Layer._createFramebuffer l p)) = geometry p.
Proof.
  unfold Layer._createFramebuffer.
  match goal with |- context [createFramebuffer ?o ?q] =>
    destruct (createFramebuffer_surface o q) as [H1 H2];
    destruct (createFramebuffer o q) as [[f|e] p'] end;
    simpl in *; surf.
Qed.

Lemma Layer_resize_surface (wd ht : Z) (d : option Q) (l : Layer.t) (p : Host) :
  h_canvas (snd (Layer.resize wd ht d l p)) = h_canvas p
  /\ geometry (snd (Layer.resize wd ht d l p)) = geometry p.
Proof.
  unfold Layer.resize. cbv zeta.
  match goal with |- context [Layer._createFramebuffer ?x ?q] =>
    destruct (Layer_createFramebuffer_surface x q) as [H1 H2];
    destruct (Layer._createFramebuffer x q) as [fb p2] end.
  simpl in *. rewrite H1, H2.
  destruct (Layer.framebuffer _); split; reflexivity.
Qed.

Lemma resizeSynced_surface (wd ht : Z) (d : Q) (ls : list Layer.t) (p : Host) :
  h_canvas (snd (LayerSystem.resizeSynced wd ht d ls p)) = h_canvas p
  /\ geometry (snd (LayerSystem.resizeSynced wd ht d ls p)) = geometry p.
Proof.
  revert p. induction ls as [|l rest IH]; intros p; simpl; [split; reflexivity|].
  destruct (negb (Layer.customSize l)).
  - destruct (Layer_resize_surface wd ht (Some d) l p) as [H1 H2].
    destruct (Layer.resize wd ht (Some d) l p) as [l' p1]. simpl in *.
    destruct (IH p1) as [I1 I2].
    destruct (LayerSystem.resizeSynced wd ht d rest p1) as [rest' p2]. simpl in *.
    surf.
  - destruct (IH p) as [I1 I2].
    destruct (LayerSystem.resizeSynced wd ht d rest p) as [rest' p2]. simpl in *.
    surf.
Qed.

Lemma checkResize_surface (w : LayerSystem.World) :
  h_canvas (LayerSystem.host (LayerSystem._checkResize w)) = h_canvas (LayerSystem.host w)
  /\ geometry (LayerSystem.host (LayerSystem._checkResize w))
       = geometry (LayerSystem.host w)
  /\ LayerSystem.compositor (LayerSystem.sys (LayerSystem._checkResize w))
       = LayerSystem.compositor (LayerSystem.sys w).
Proof.
  unfold LayerSystem._checkResize. cbv zeta.
  match goal with |- context [if ?b then _ else _] => destruct b end;
    [repeat split|].
  match goal with |- context [LayerSystem.resizeSynced ?a ?b ?d ?ls ?q] =>
    destruct (resizeSynced_surface a b d ls q) as [H1 H2];
    destruct (LayerSystem.resizeSynced a b d ls q) as [ls' p1] end.
  surf.
Qed.






Lemma Layer_end_surface (l : Layer.t) (p : Host) :
  h_canvas (snd (Layer.end_ l p)) = h_canvas p
  /\ geometry (snd (Layer.end_ l p)) = geometry p.
Proof. unfold Layer.end_. destruct (Layer.framebuffer l); split; reflexivity. Qed.

Lemma end_surface (w : LayerSystem.World) :
  h_canvas (LayerSystem.host (LayerSystem.end_ w)) = h_canvas (LayerSystem.host w)
  /\ geometry (LayerSystem.host (LayerSystem.end_ w)) = geometry (LayerSystem.host w).
Proof.
  unfold LayerSystem.end_. destruct w as [p s]; simpl.
  destruct (LayerSystem.activeLayerId s); [|split; reflexivity].
  destruct (layers_get _ _) as [l|]; [|split; reflexivity].
  destruct (Layer_end_surface l p) as [H1 H2].
  destruct (Layer.end_ l p) as [l' p1]. simpl in *.
  destruct (LayerSystem.ui s); surf.
Qed.

Lemma delegate_surface (f : Layer.t -> Layer.t * list Diagnostic) (r : value)
    (w : LayerSystem.World) :
  h_canvas (LayerSystem.host (snd (LayerSystem.delegate f r w)))
    = h_canvas (LayerSystem.host w)
  /\ geometry (LayerSystem.host (snd (LayerSystem.delegate f r w)))
       = geometry (LayerSystem.host w).
Proof.
  unfold LayerSystem.delegate.
  destruct (LayerSystem._getLayerById r (LayerSystem.sys w)); [|split; reflexivity].
  destruct (f t); split; reflexivity.
Qed.

Lemma begin_surface (r : value) (w : LayerSystem.World) :
  h_canvas (LayerSystem.host (LayerSystem.begin r w)) = h_canvas (LayerSystem.host w)
  /\ geometry (LayerSystem.host (LayerSystem.begin r w)) = geometry (LayerSystem.host w).
Proof.
  unfold LayerSystem.begin.
  set (w1 := match LayerSystem.activeLayerId (LayerSystem.sys w) with
             | Some _ => _
             | None => w
             end).
  assert (H1 : h_canvas (LayerSystem.host w1) = h_canvas (LayerSystem.host w)
               /\ geometry (LayerSystem.host w1) = geometry (LayerSystem.host w)).
  { subst w1. destruct (LayerSystem.activeLayerId (LayerSystem.sys w));
      [|split; reflexivity].
    match goal with |- context [LayerSystem.end_ ?x] =>
      destruct (end_surface x) as [E1 E2] end.
    rewrite E1, E2. split; reflexivity. }
  clearbody w1. destruct H1 as [<- <-].
  destruct (LayerSystem._getLayerById r (LayerSystem.sys w1)) as [layer|];
    [|split; reflexivity].
  unfold Layer.begin. destruct (Layer.framebuffer layer); split; reflexivity.
Qed.

Lemma createLayer_surface (name : string) (options : Layer.Options)
    (w : LayerSystem.World) :
  h_canvas (LayerSystem.host (snd (LayerSystem.createLayer name options w)))
    = h_canvas (LayerSystem.host w)
  /\ geometry (LayerSystem.host (snd (LayerSystem.createLayer name options w)))
       = geometry (LayerSystem.host w)
  /\ LayerSystem.compositor (LayerSystem.sys (snd (LayerSystem.createLayer name options w)))
       = LayerSystem.compositor (LayerSystem.sys w).
Proof.
  unfold LayerSystem.createLayer, Layer.constructor. cbv zeta.
  match goal with |- context [Layer._createFramebuffer ?x ?q] =>
    destruct (Layer_createFramebuffer_surface x q) as [H1 H2];
    destruct (Layer._createFramebuffer x q) as [[f|] p1] end; simpl in *.
  - destruct (Layer.nameOr name _); surf.
  - surf.
Qed.

Lemma removeLayer_surface (r : value) (w : LayerSystem.World) :
  h_canvas (LayerSystem.host (LayerSystem.removeLayer r w)) = h_canvas (LayerSystem.host w)
  /\ geometry (LayerSystem.host (LayerSystem.removeLayer r w))
       = geometry (LayerSystem.host w).
Proof.
  unfold LayerSystem.removeLayer.
  destruct (LayerSystem._getLayerById r (LayerSystem.sys w)) as [l|];
    [|split; reflexivity].
  set (w1 := if bool_decide _ then LayerSystem.end_ w else w).
  assert (H1 : h_canvas (LayerSystem.host w1) = h_canvas (LayerSystem.host w)
               /\ geometry (LayerSystem.host w1) = geometry (LayerSystem.host w)).
  { subst w1. destruct (bool_decide _); [apply end_surface|split; reflexivity]. }
  clearbody w1. destruct H1 as [<- <-]. cbv zeta. simpl.
  match goal with |- context [layers_get ?k ?ls] => destruct (layers_get k ls) end;
    unfold Layer.dispose;
    match goal with |- context [Layer.framebuffer ?x] => destruct (Layer.framebuffer x) end;
    split; reflexivity.
Qed.

Lemma disposeAll_surface (ls : list Layer.t) (p : Host) :
  h_canvas (snd (LayerSystem.disposeAll ls p)) = h_canvas p
  /\ geometry (snd (LayerSystem.disposeAll ls p)) = geometry p.
Proof.
  revert p. induction ls as [|l rest IH]; intros p; simpl; [split; reflexivity|].
  assert (H : h_canvas (snd (Layer.dispose l p)) = h_canvas p
              /\ geometry (snd (Layer.dispose l p)) = geometry p)
    by (unfold Layer.dispose; destruct (Layer.framebuffer l); split; reflexivity).
  destruct (Layer.dispose l p) as [l' p1]. simpl in H.
  destruct (IH p1) as [I1 I2].
  destruct (LayerSystem.disposeAll rest p1) as [rest' p2]. simpl in *.
  destruct H. surf.
Qed.

Lemma dispose_surface (w : LayerSystem.World) :
  h_canvas (LayerSystem.host (LayerSystem.dispose w)) = h_canvas (LayerSystem.host w)
  /\ geometry (LayerSystem.host (LayerSystem.dispose w)) = geometry (LayerSystem.host w).
Proof.
  unfold LayerSystem.dispose.
  set (w1 := match LayerSystem.activeLayerId (LayerSystem.sys w) with
             | Some _ => LayerSystem.end_ w
             | None => w
             end).
  assert (H1 : h_canvas (LayerSystem.host w1) = h_canvas (LayerSystem.host w)
               /\ geometry (LayerSystem.host w1) = geometry (LayerSystem.host w)).
  { subst w1. destruct (LayerSystem.activeLayerId _); [apply end_surface|split; reflexivity]. }
  clearbody w1. destruct H1 as [<- <-].
  cbn [LayerSystem.onSys LayerSystem.sys LayerSystem.host LayerSystem.layers
       LayerSystem.with_ui LayerSystem.with_layers LayerSystem.compositor].
  destruct (disposeAll_surface (LayerSystem.layers (LayerSystem.sys w1))
              (LayerSystem.host w1)) as [D1 D2].
  destruct (LayerSystem.disposeAll _ _) as [ls' p3]. cbn [snd] in D1, D2.
  unfold Compositor.dispose.
  cbn [LayerSystem.compositor LayerSystem.with_layers LayerSystem.host].
  rewrite <- D1, <- D2.
  destruct (Compositor.bufferA _), (Compositor.bufferB _); split; reflexivity.
Qed.


(** X22.  Only [render] draws on the main surface: every other call of the
    API, and every host event other than the sketch's own drawing,
    leaves what is on it, and the size and density of the surface
    change only by the host's resize. *)
Theorem only_render_draws (op : Op) (w : LayerSystem.World) :
  drawsOnSurface op = false ->
  h_canvas (LayerSystem.host (step op w)) = h_canvas (LayerSystem.host w)
  /\ (match op with
      | HostResize _ _ _ => True
      | _ => geometry (LayerSystem.host (step op w)) = geometry (LayerSystem.host w)
      end).
Proof.
  intros Hop. destruct op; try discriminate Hop; cbn [step];
    try (split; reflexivity).
  - destruct (createLayer_surface name options w) as (A & B & _). surf.
  - apply removeLayer_surface.
  - apply begin_surface.
  - apply end_surface.
  - apply delegate_surface.
  - apply delegate_surface.
  - apply delegate_surface.
  - apply delegate_surface.
  - apply delegate_surface.
  - apply delegate_surface.
  - apply delegate_surface.
  - apply delegate_surface.
  - apply dispose_surface.
Qed.



Lemma setBuffer_unbound (s : Compositor.Slot) (f : Framebuffer) (c c1 : Compositor.t) :
  unboundBuffers c ->
  Compositor.bufferA c1 = Compositor.bufferA c ->
  Compositor.bufferB c1 = Compositor.bufferB c ->
  unboundBuffers (Compositor.setBuffer s (Some (fb_end f)) c1).
Proof.
  intros Hc HA HB s' f'. destruct s, s'; simpl; rewrite ?HA, ?HB;
    try (intros [= <-]; reflexivity).
  - apply (Hc Compositor.SlotB).
  - apply (Hc Compositor.SlotA).
Qed.

Lemma renderLoop_unbound (sorted : list Layer.t) (cur nxt : Compositor.Slot)
    (c : Compositor.t) (p : Host) :
  unboundBuffers c ->
  unboundBuffers (snd (fst (Compositor.renderLoop sorted cur nxt c p))).
Proof.
  revert cur nxt c p. induction sorted as [|layer rest IH]; intros cur nxt c p Hc;
    simpl; [exact Hc|].
  destruct (negb (Layer.visible layer) || Qle_bool (Layer.opacity layer) 0);
    [apply IH, Hc|].
  destruct (Compositor.getBuffer nxt c) as [nb|]; [|exact Hc].
  destruct (Compositor.getBuffer cur c) as [cb|]; [|exact Hc].
  destruct (renderLayer_resources layer cb c p) as (HA & HB & _).
  destruct (Compositor._renderLayer layer cb c p) as [[drawn c1] p1]. simpl in *.
  apply IH. apply setBuffer_unbound with (c := c); assumption.
Qed.

Lemma ensureBuffers_unbound (c : Compositor.t) (p : Host) :
  unboundBuffers c ->
  unboundBuffers (snd (fst (Compositor._ensureBuffers c p))).
Proof.
  intros Hc. unfold Compositor._ensureBuffers.
  match goal with |- context [if ?b then _ else _] => destruct b end; [|exact Hc].
  destruct (Compositor.bufferA c) eqn:EA, (Compositor.bufferB c) eqn:EB;
    try exact Hc.
  all: match goal with
       | |- context [createFramebuffer ?o ?q] =>
           pose proof (createFramebuffer_fresh o q) as Hfa;
           destruct (createFramebuffer o q) as [[a|e] p2]; simpl in *; [|exact Hc]
       end.
  all: match goal with
       | |- context [createFramebuffer ?o ?q] =>
           pose proof (createFramebuffer_fresh o q) as Hfb;
           destruct (createFramebuffer o q) as [[b|e] p3]; simpl in *
       end.
  all: intros s fx; destruct s; simpl; rewrite ?EA, ?EB;
    try (intros [= <-]; first [rewrite (Hfa _ eq_refl)|rewrite (Hfb _ eq_refl)];
         reflexivity);
    try discriminate;
    try (intros Hf; apply (Hc Compositor.SlotB); simpl; rewrite EB; exact Hf).
Qed.

Lemma Compositor_render_unbound (layers : list Layer.t)
    (cb : option (Canvas -> Canvas)) (c : Compositor.t) (p : Host) :
  unboundBuffers c ->
  unboundBuffers (snd (fst (Compositor.render layers cb c p))).
Proof.
  intros Hc. unfold Compositor.render.
  pose proof (ensureBuffers_unbound c p Hc) as H0.
  destruct (Compositor._ensureBuffers c p) as [[[[]|e] c0] p0]; simpl in H0;
    [|exact H0].
  destruct (Compositor.getBuffer Compositor.SlotA c0) as [a|]; [|exact H0].
  match goal with
  | |- context [Compositor.renderLoop ?s ?x ?y ?c1 p0] =>
      assert (H1 : unboundBuffers c1)
        by (apply (setBuffer_unbound Compositor.SlotA _ c0 c0 H0); reflexivity);
      pose proof (renderLoop_unbound s x y c1 p0 H1) as H2;
      destruct (Compositor.renderLoop s x y c1 p0) as [[[final|e] c2] p2]
  end; simpl in H2; [|exact H2].
  destruct (Compositor.getBuffer final c2); exact H2.
Qed.

Lemma step_unbound (op : Op) (w : LayerSystem.World) :
  unboundBuffers (LayerSystem.compositor (LayerSystem.sys w)) ->
  unboundBuffers (LayerSystem.compositor (LayerSystem.sys (step op w))).
Proof.
  intros Hc.
  assert (Hsame : forall w',
             LayerSystem.compositor (LayerSystem.sys w')
               = LayerSystem.compositor (LayerSystem.sys w) ->
             unboundBuffers (LayerSystem.compositor (LayerSystem.sys w')))
    by (intros w' ->; exact Hc).
  destruct op; cbn [step]; try (apply Hsame; reflexivity).
  - apply Hsame. apply createLayer_surface.
  - apply Hsame. unfold LayerSystem.removeLayer.
    destruct (LayerSystem._getLayerById r (LayerSystem.sys w)) as [l|]; [|reflexivity].
    cbv zeta. simpl.
    destruct (bool_decide _);
      [rewrite <- (proj1 (proj2 (proj2 (proj2 (end_frame w)))))|];
      destruct (Layer.name l); reflexivity.
  - apply Hsame, begin_balance.
  - apply Hsame, end_balance.
  - apply Hsame, (passthrough_balance PShow).
  - apply Hsame, (passthrough_balance PHide).
  - apply Hsame, (passthrough_balance (PSetOpacity opacity)).
  - apply Hsame, (passthrough_balance (PSetBlendMode blendMode)).
  - apply Hsame, (passthrough_balance (PSetLayerIndex zIndex)).
  - apply Hsame, (passthrough_balance (PMoveLayer delta)).
  - apply Hsame, (passthrough_balance (PSetMask maskSource)).
  - apply Hsame, (passthrough_balance PClearMask).
  - unfold LayerSystem.render.
    set (w1 := if LayerSystem.autoResize (LayerSystem.sys w)
               then LayerSystem._checkResize w else w).
    assert (H1 : LayerSystem.compositor (LayerSystem.sys w1)
                 = LayerSystem.compositor (LayerSystem.sys w)).
    { subst w1. destruct (LayerSystem.autoResize _); [apply checkResize_surface|reflexivity]. }
    clearbody w1. rewrite <- H1 in Hc.
    pose proof (Compositor_render_unbound (LayerSystem.getLayers (LayerSystem.sys w1))
                  clearCallback _ (LayerSystem.host w1) Hc) as HR.
    destruct (Compositor.render _ clearCallback _ _) as [[[[]|e] c] p]; simpl in *;
      [destruct (LayerSystem.ui (LayerSystem.sys w1))|]; exact HR.
  - apply Hsame. unfold LayerSystem.updateUI. simpl.
    destruct (LayerSystem.ui (LayerSystem.sys w)); reflexivity.
  - destruct (dispose_live w) as (_ & _ & _ & Hs & _).
    destruct (slots_none _ Hs) as [HA HB].
    intros s f. destruct s; simpl; rewrite ?HA, ?HB; discriminate.
  - apply Hsame, userDraw_balance.
Qed.

(** X25.  In every reachable state no ping-pong buffer of the compositor is
    left between [begin()] and [end()]: every pass ends the buffer it
    began, on every path, so drawing commands of the sketch never land
    in the compositor's buffers. *)
Theorem compositor_buffers_unbound (w : LayerSystem.World) :
  reachable w ->
  unboundBuffers (LayerSystem.compositor (LayerSystem.sys w)).
Proof.
  induction 1 as [p s Hs|op w _ IH]; [|apply step_unbound, IH].
  unfold LayerSystem.constructor in Hs. destruct (negb (h_webgl p)); [discriminate|].
  injection Hs as <-. intros s f. destruct s; discriminate.
Qed.

End Frame.

Lemma only_render_draws_witness :
  h_canvas (LayerSystem.host (step (OpCreateLayer "c" Layer.noOptions) twoLayers))
    = h_canvas (LayerSystem.host twoLayers)
  /\ geometry (LayerSystem.host (step (OpCreateLayer "c" Layer.noOptions) twoLayers))
       = geometry (LayerSystem.host twoLayers).
Proof.
  exact (only_render_draws (OpCreateLayer "c" Layer.noOptions) twoLayers eq_refl).
Defined.


Lemma compositor_buffers_unbound_witness :
  reachable (run session demoWorld)
  /\ unboundBuffers (LayerSystem.compositor (LayerSystem.sys (run session demoWorld))).
Proof.
  assert (H : reachable (run session demoWorld))
    by (apply reachable_run, reachable_demoWorld).
  split; [exact H|]. exact (compositor_buffers_unbound _ H).
Defined.

(* ------------------------------------------------------------------ *)
(** * Symmetries of the blend functions                                *)
(* ------------------------------------------------------------------ *)

Section BlendAlgebra.
Variable sqrt : Q -> Q.
Local Open Scope Q_scope.

Ltac qsplit :=
  repeat match goal with
    | |- context [Qlt_bool ?x ?y] =>
        let E := fresh "E" in
        destruct (Qlt_bool x y) eqn:E;
        [apply Qlt_bool_true in E | apply Qlt_bool_false in E]
    end.

Ltac channels :=
  unfold vec3_eq; cbn;
  unfold Frag.blendScreenF, Frag.blendOverlay_0F, Frag.blendOverlay_1F,
    Frag.blendDarkenF, Frag.blendLightenF, glsl_min, glsl_max, glsl_abs;
  repeat split; qsplit; lra.

(** X26.  At full opacity the opcodes MULTIPLY, SCREEN, ADD, SUBTRACT,
    DARKEN, LIGHTEN, DIFFERENCE and EXCLUSION do not distinguish base
    from layer; HARD_LIGHT is OVERLAY with the two exchanged; NORMAL,
    DARKEN and LIGHTEN of a colour with itself give that colour; and at
    opacity 0 every opcode returns the base. *)
Theorem blend_symmetries (base blend : vec3) :
  (forall mode, In mode [1; 2; 3; 4; 10; 11; 12; 13]%Z ->
     vec3_eq (Frag.applyBlendMode sqrt mode base blend 1)
             (Frag.applyBlendMode sqrt mode blend base 1))
  /\ vec3_eq (Frag.applyBlendMode sqrt 7 base blend 1)
             (Frag.applyBlendMode sqrt 5 blend base 1)
  /\ (forall mode, In mode [0; 10; 11]%Z ->
        vec3_eq (Frag.applyBlendMode sqrt mode base base 1) base)
  /\ (forall mode, vec3_eq (Frag.applyBlendMode sqrt mode base blend 0) base).
Proof.
  destruct base as [r g b], blend as [r' g' b'].
  split; [|split; [|split]].
  - intros mode Hm. simpl in Hm.
    repeat (destruct Hm as [<-|Hm]); try contradiction; channels.
  - channels.
  - intros mode Hm. simpl in Hm.
    repeat (destruct Hm as [<-|Hm]); try contradiction; channels.
  - intros mode. rewrite applyBlendMode_withOpacity.
    unfold Frag.withOpacity, vec3_eq, vadd, vscale, vec3_map2, vec3_map. simpl.
    repeat split; ring.
Qed.

End BlendAlgebra.

(* ------------------------------------------------------------------ *)
(** * The draw bounds of a thumbnail                                   *)
(* ------------------------------------------------------------------ *)

Section ThumbnailCache.
Local Open Scope Q_scope.

Lemma trimWindow_spec (maxWindow : Q) (w : list Bounds.t) :
  1 <= maxWindow ->
  (exists dropped, w = (dropped ++ trimWindow maxWindow w)%list)
  /\ inject_Z (Z.of_nat (length (trimWindow maxWindow w))) <= maxWindow
  /\ (w <> [] -> trimWindow maxWindow w <> []).
Proof.
  intros Hm. induction w as [|a rest IH].
  - simpl. split; [exists []; reflexivity|]. split; [|congruence].
    change (inject_Z (Z.of_nat 0)) with 0. lra.
  - cbn [trimWindow].
    destruct (Qlt_bool maxWindow (inject_Z (Z.of_nat (length (a :: rest))))) eqn:E.
    + apply Qlt_bool_true in E. destruct IH as ((d & Hd) & Hlen & Hne).
      split; [exists (a :: d); simpl; f_equal; exact Hd|].
      split; [exact Hlen|]. intros _. apply Hne. intros ->.
      change (inject_Z (Z.of_nat (length [a]))) with 1 in E. lra.
    + apply Qlt_bool_false in E.
      split; [exists []; reflexivity|]. split; [exact E|congruence].
Qed.

Lemma suffix_keeps_last (dropped l w0 : list Bounds.t) (b : Bounds.t) :
  (w0 ++ [b])%list = (dropped ++ l)%list -> l <> [] ->
  exists l0, l = (l0 ++ [b])%list.
Proof.
  intros Heq Hne. destruct (exists_last Hne) as (l' & x & ->).
  rewrite app_assoc in Heq. apply app_inj_tail in Heq. destruct Heq as [_ <-].
  exists l'. reflexivity.
Qed.

Lemma fullBounds_within (sourceSize : CanvasSize) :
  0 <= cs_width sourceSize -> 0 <= cs_height sourceSize ->
  Bounds.within (cs_width sourceSize) (cs_height sourceSize)
    (_createFullBounds sourceSize).
Proof.
  intros HW HH. unfold Bounds.within, Bounds.right, Bounds.bottom, _createFullBounds.
  simpl. repeat split; lra.
Qed.

Lemma padBounds_within (b : Bounds.t) (padding maxWidth maxHeight : Q) :
  0 <= maxWidth -> 0 <= maxHeight ->
  exists d, padBounds (Some b) padding maxWidth maxHeight = Some d
            /\ Bounds.within maxWidth maxHeight d.
Proof. intros HW HH. unfold padBounds. apply clampBounds_within; assumption. Qed.

Lemma chooseDrawBounds_within (candidate current : option Bounds.t)
    (sourceSize : CanvasSize) :
  0 <= cs_width sourceSize -> 0 <= cs_height sourceSize ->
  (forall d, candidate = Some d ->
     Bounds.within (cs_width sourceSize) (cs_height sourceSize) d) ->
  (forall d, current = Some d ->
     Bounds.within (cs_width sourceSize) (cs_height sourceSize) d) ->
  exists d, chooseDrawBounds candidate current sourceSize = Some d
            /\ Bounds.within (cs_width sourceSize) (cs_height sourceSize) d.
Proof.
  intros HW HH Hc Hd. unfold chooseDrawBounds.
  destruct candidate as [b|]; [destruct (nonEmpty b)|]; try destruct current as [d|];
    eexists; (split; [reflexivity|]);
    first [apply Hc; reflexivity|apply Hd; reflexivity|apply fullBounds_within; assumption].
Qed.

(** X27.  [_applyBoundsToCache] always leaves draw bounds, and keeps them
    inside the source: if the source size is not negative and the draw
    bounds of the entry, if any, are inside the source, then afterwards
    the entry has draw bounds and they are inside the source.  In
    smoothing mode the entry has a window afterwards; a non-null
    [bounds] is its newest element and the window is then no longer
    than [max(1, thumbnailAnimationWindow)]; an empty window resets the
    draw bounds to the full source. *)
Theorem applyBoundsToCache_drawBounds (options : ThumbnailOptions)
    (cacheEntry : CacheEntry) (bounds : option Bounds.t) (sourceSize : CanvasSize) :
  0 <= cs_width sourceSize -> 0 <= cs_height sourceSize ->
  (forall d, drawBounds cacheEntry = Some d ->
     Bounds.within (cs_width sourceSize) (cs_height sourceSize) d) ->
  let entry' := _applyBoundsToCache options cacheEntry bounds sourceSize in
  (exists d, drawBounds entry' = Some d
             /\ Bounds.within (cs_width sourceSize) (cs_height sourceSize) d)
  /\ (thumbnailAutoUpdate options = true ->
      exists l,
        window entry' = Some l
        /\ (forall b, bounds = Some b ->
              (exists l0, l = (l0 ++ [b])%list)
              /\ inject_Z (Z.of_nat (length l))
                   <= Qmax 1 (thumbnailAnimationWindow options))
        /\ (l = [] -> drawBounds entry' = Some (_createFullBounds sourceSize))).
Proof.
  intros HW HH Hold. cbv zeta. unfold _applyBoundsToCache.
  destruct (thumbnailAutoUpdate options); cbn [negb].
  - (* smoothing *)
    set (window0 := match window cacheEntry with Some w => w | None => [] end).
    set (maxWindow := Qmax 1 (thumbnailAnimationWindow options)).
    assert (Hmax : 1 <= maxWindow) by apply Q.le_max_l.
    match goal with
    | |- context [let '(_, _) := ?e in _] => destruct e as [window1 emptyFrames1] eqn:Hw
    end.
    assert (Hdraw : exists d,
               chooseDrawBounds
                 (match mergeBounds (map Some window1) with
                  | Some m => padBounds (Some m) (thumbnailPadding options)
                                (cs_width sourceSize) (cs_height sourceSize)
                  | None => None
                  end) (drawBounds cacheEntry) sourceSize = Some d
               /\ Bounds.within (cs_width sourceSize) (cs_height sourceSize) d).
    { apply chooseDrawBounds_within; try assumption.
      intros d. destruct (mergeBounds (map Some window1)) as [m|]; [|discriminate].
      destruct (padBounds_within m (thumbnailPadding options) _ _ HW HH) as (d' & -> & Hin).
      intros [= <-]. exact Hin. }
    cbn [drawBounds window]. split.
    + destruct window1; [|exact Hdraw].
      eexists. split; [reflexivity|apply fullBounds_within; assumption].
    + intros _. exists window1. split; [reflexivity|]. split.
      * intros b ->. injection Hw as <- _.
        destruct (trimWindow_spec maxWindow (window0 ++ [b]) Hmax)
          as ((dropped & Hd) & Hlen & Hne).
        split; [|exact Hlen].
        apply (suffix_keeps_last dropped _ window0 b Hd).
        apply Hne. destruct window0; discriminate.
      * intros ->. reflexivity.
  - (* direct *)
    split; [|discriminate].
    destruct bounds as [b|]; [destruct (nonEmpty b)|]; cbn [drawBounds].
    + apply padBounds_within; assumption.
    + apply chooseDrawBounds_within; try assumption. discriminate.
    + apply chooseDrawBounds_within; try assumption. discriminate.
Qed.

End ThumbnailCache.

Lemma applyBoundsToCache_drawBounds_witness :
  let options := mkThumbnailOptions true 4 2 6 in
  let entry := mkCacheEntry None (Some [Bounds.mk 0 0 10 10; Bounds.mk 5 5 10 10]) None in
  let entry' :=
    _applyBoundsToCache options entry (Some (Bounds.mk 20 20 30 30))
      (mkCanvasSize 100 100) in
  (exists d, drawBounds entry' = Some d /\ Bounds.within 100 100 d)
  /\ window entry' = Some [Bounds.mk 5 5 10 10; Bounds.mk 20 20 30 30].
Proof.
  cbv zeta.
  pose proof (applyBoundsToCache_drawBounds (mkThumbnailOptions true 4 2 6)
                (mkCacheEntry None (Some [Bounds.mk 0 0 10 10; Bounds.mk 5 5 10 10]) None)
                (Some (Bounds.mk 20 20 30 30)) (mkCanvasSize 100 100)) as H.
  cbv zeta in H. simpl cs_width in H. simpl cs_height in H.
  destruct H as [H _].
  - unfold Qle; simpl; lia.
  - unfold Qle; simpl; lia.
  - intros d Hd. discriminate Hd.
  - split; [exact H|reflexivity].
Defined.

(* ------------------------------------------------------------------ *)
(** * Moving the selected layer                                        *)
(* ------------------------------------------------------------------ *)

Section MoveSelected.

Lemma nth_error_setNth {A : Type} (i : nat) (x : A) (l : list A) (p : nat) :
  (i < length l)%nat ->
  nth_error (setNth i x l) p = if Nat.eqb p i then Some x else nth_error l p.
Proof.
  revert i p. induction l as [|h t IH]; intros i p Hi; simpl in Hi; [lia|].
  destruct i as [|i], p as [|p]; simpl; try reflexivity.
  apply IH. lia.
Qed.

Lemma length_setNth {A : Type} (i : nat) (x : A) (l : list A) :
  length (setNth i x l) = length l.
Proof.
  revert i. induction l as [|h t IH]; intros i; [destruct i; reflexivity|].
  destruct i; simpl; [reflexivity|]. rewrite IH. reflexivity.
Qed.

Lemma transpose_involutive (i j p : nat) : transpose i j (transpose i j p) = p.
Proof.
  unfold transpose.
  destruct (Nat.eqb_spec p j), (Nat.eqb_spec p i);
    repeat match goal with
      | |- context [Nat.eqb ?a ?b] => destruct (Nat.eqb_spec a b)
      end; lia.
Qed.

Lemma transpose_lt (i j p n : nat) :
  (i < n)%nat -> (j < n)%nat -> (p < n)%nat -> (transpose i j p < n)%nat.
Proof.
  intros Hi Hj Hp. unfold transpose.
  destruct (Nat.eqb p j), (Nat.eqb p i); assumption.
Qed.

(** The array after the swap, read through the transposition. *)
Lemma nth_error_swapAt {A : Type} (i j : nat) (l : list A) (p : nat) :
  (i < length l)%nat -> (j < length l)%nat ->
  nth_error (swapAt i j l) p = nth_error l (transpose i j p).
Proof.
  intros Hi Hj. unfold swapAt, transpose.
  destruct (nth_error l i) as [x|] eqn:Ex;
    [|apply nth_error_None in Ex; lia].
  destruct (nth_error l j) as [y|] eqn:Ey;
    [|apply nth_error_None in Ey; lia].
  rewrite nth_error_setNth by (rewrite length_setNth; exact Hj).
  destruct (Nat.eqb_spec p j) as [->|Hpj]; [symmetry; exact Ex|].
  rewrite nth_error_setNth by exact Hi.
  destruct (Nat.eqb_spec p i) as [->|Hpi]; [symmetry; exact Ey|reflexivity].
Qed.

Lemma length_swapAt {A : Type} (i j : nat) (l : list A) :
  length (swapAt i j l) = length l.
Proof.
  unfold swapAt. destruct (nth_error l i), (nth_error l j); try reflexivity.
  rewrite !length_setNth. reflexivity.
Qed.

Lemma map_setNth {A B : Type} (f : A -> B) (i : nat) (x : A) (l : list A) :
  map f (setNth i x l) = setNth i (f x) (map f l).
Proof.
  revert i. induction l as [|h t IH]; intros i; [destruct i; reflexivity|].
  destruct i; simpl; [reflexivity|]. rewrite IH. reflexivity.
Qed.

Lemma map_swapAt {A B : Type} (f : A -> B) (i j : nat) (l : list A) :
  map f (swapAt i j l) = swapAt i j (map f l).
Proof.
  unfold swapAt. rewrite !nth_error_map.
  destruct (nth_error l i), (nth_error l j); simpl; try reflexivity.
  rewrite !map_setNth. reflexivity.
Qed.

Lemma swapAt_Permutation (i j : nat) (l : list Z) :
  (i < length l)%nat -> (j < length l)%nat ->
  List.NoDup l -> Permutation (swapAt i j l) l.
Proof.
  intros Hi Hj Hnd.
  apply Permutation.NoDup_Permutation; [|exact Hnd|].
  - apply NoDup_nth_error. intros p q Hp Heq.
    rewrite length_swapAt in Hp.
    rewrite !nth_error_swapAt in Heq by assumption.
    rewrite NoDup_nth_error in Hnd.
    apply Hnd in Heq; [|apply transpose_lt; assumption].
    rewrite <- (transpose_involutive i j p), Heq. apply transpose_involutive.
  - intros k. split; intros Hin; apply In_nth_error in Hin; destruct Hin as [p Hp].
    + rewrite nth_error_swapAt in Hp by assumption.
      eapply nth_error_In, Hp.
    + apply nth_error_In with (n := transpose i j p).
      rewrite nth_error_swapAt, transpose_involutive by assumption. exact Hp.
Qed.

Lemma findIndex_nth (k : Z) (ls : list Layer.t) (i : nat) :
  List.NoDup (map Layer.id ls) ->
  nth_error (map Layer.id ls) i = Some k ->
  findIndex k ls = Some i.
Proof.
  revert i. induction ls as [|l rest IH]; intros i Hnd Hnth; [destruct i; discriminate|].
  simpl in Hnd. inversion Hnd as [|? ? Hnotin Hnd']; subst.
  destruct i as [|i]; simpl in *.
  - injection Hnth as <-. rewrite Z.eqb_refl. reflexivity.
  - destruct (Z.eqb_spec (Layer.id l) k) as [E|E].
    + exfalso. apply Hnotin. rewrite E. eapply nth_error_In, Hnth.
    + rewrite (IH i Hnd' Hnth). reflexivity.
Qed.

End MoveSelected.

(** X28.  Moving the selected layer in the panel exchanges it with its
    neighbour in the stack order and renumbers the stack: in a
    reachable state where the selected layer is at position [i] of
    [getLayers()] and position [i - direction] exists, afterwards
    [getLayers()] lists the same layers with the two exchanged, and
    the layer at every position [p] has zIndex [p], whatever zIndex it
    had before. *)
Theorem moveSelectedLayer_swaps (selected direction : Z) (i : nat)
    (w : LayerSystem.World) :
  reachable w ->
  let ids := map Layer.id (LayerSystem.getLayers (LayerSystem.sys w)) in
  nth_error ids i = Some selected ->
  0 <= Z.of_nat i - direction < Z.of_nat (length ids) ->
  let w' := _moveSelectedLayer (Some selected) direction w in
  map Layer.id (LayerSystem.getLayers (LayerSystem.sys w'))
    = swapAt i (Z.to_nat (Z.of_nat i - direction)) ids
  /\ forall p l, nth_error (LayerSystem.getLayers (LayerSystem.sys w')) p = Some l ->
       Layer.zIndex l = Z.of_nat p.
Proof.
  intros Hreach ids Hsel Hrange w'.
  destruct (reachable_wellFormed w Hreach) as [Hnd _].
  set (layers := LayerSystem.getLayers (LayerSystem.sys w)) in *.
  assert (Hperm : Permutation ids (map Layer.id (LayerSystem.layers (LayerSystem.sys w)))).
  { apply Permutation_map. apply sortByZIndex_Permutation. }
  assert (Hndids : List.NoDup ids).
  { eapply Permutation_NoDup; [symmetry; exact Hperm|exact Hnd]. }
  assert (Hlen : length ids = length layers) by apply length_map.
  set (j := Z.to_nat (Z.of_nat i - direction)).
  assert (Hi : (i < length ids)%nat)
    by (apply nth_error_Some; rewrite Hsel; discriminate).
  assert (Hj : (j < length ids)%nat) by (subst j; lia).
  assert (Hw' : w' = LayerSystem.reorderLayers (swapAt i j ids) w).
  { subst w'. unfold _moveSelectedLayer. fold layers.
    rewrite (findIndex_nth selected layers i Hndids Hsel). cbv zeta.
    destruct (Z.ltb_spec (Z.of_nat i - direction) 0); [lia|].
    destruct (Z.leb_spec (Z.of_nat (length layers)) (Z.of_nat i - direction)); [lia|].
    simpl. fold j. rewrite map_swapAt. reflexivity. }
  assert (Hperm' : Permutation (swapAt i j ids)
                     (map Layer.id (LayerSystem.layers (LayerSystem.sys w)))).
  { rewrite swapAt_Permutation by assumption. exact Hperm. }
  destruct (reorderLayers_order (swapAt i j ids) w Hreach Hperm') as (Hids & Hz & Hmap).
  cbv zeta in Hids, Hz, Hmap. rewrite <- Hw' in Hids, Hz, Hmap.
  split; [exact Hids|].
  intros p l Hp.
  assert (Hk : nth_error (swapAt i j ids) p = Some (Layer.id l)).
  { rewrite <- Hids. rewrite nth_error_map, Hp. reflexivity. }
  specialize (Hz p (Layer.id l) Hk).
  assert (Hin : In l (LayerSystem.layers (LayerSystem.sys w'))).
  { apply (Permutation_in l (sortByZIndex_Permutation _)).
    eapply nth_error_In, Hp. }
  assert (Hnd' : List.NoDup (map Layer.id (LayerSystem.layers (LayerSystem.sys w'))))
    by (rewrite Hmap; exact Hnd).
  unfold LayerSystem.getLayer in Hz. simpl in Hz.
  rewrite (layers_get_NoDup_In _ l Hnd' Hin) in Hz. simpl in Hz. congruence.
Qed.

Lemma moveSelectedLayer_swaps_witness :
  reachable twoLayers
  /\ map Layer.id
       (LayerSystem.getLayers
          (LayerSystem.sys (_moveSelectedLayer (Some 0) (-1) twoLayers)))
     = [1; 0].
Proof.
  assert (H : reachable twoLayers) by (apply reachable_run, reachable_demoWorld).
  split; [exact H|].
  refine (proj1 (moveSelectedLayer_swaps 0 (-1) 0 twoLayers H eq_refl _)).
  simpl. lia.
Defined.

(* ------------------------------------------------------------------ *)
(** * The ping-pong buffers are allocated once per size                *)
(* ------------------------------------------------------------------ *)

(** X29.  When [_ensureBuffers] returns, the buffers it leaves fit the
    surface: calling it again, with the surface unchanged, allocates
    and removes nothing and returns the same state.  Buffers are
    therefore allocated when the size or density changes and not on
    every frame. *)
Theorem ensureBuffers_settles (c c0 : Compositor.t) (p p0 : Host) :
  Compositor._ensureBuffers c p = (Ok tt, c0, p0) ->
  Compositor._ensureBuffers c0 p0 = (Ok tt, c0, p0)
  /\ exists a, Compositor.bufferA c0 = Some a
               /\ fb_width a = h_width p0 /\ fb_height a = h_height p0.
Proof.
  unfold Compositor._ensureBuffers at 1.
  match goal with |- context [if ?b then _ else _] => destruct b eqn:Hneed end.
  - (* the buffers are replaced *)
    set (o := mkFramebufferOptions _ _ _ _ _).
    destruct (match Compositor.bufferA c, Compositor.bufferB c with
              | None, _ => Ok p
              | Some _, Some _ => Ok (removeFramebuffer (removeFramebuffer p))
              | Some _, None => Throw (TypeError "this.bufferB is null")
              end) as [p1|e] eqn:Hrem; [|discriminate].
    assert (Hg1 : geometry p1 = geometry p).
    { destruct (Compositor.bufferA c), (Compositor.bufferB c);
        try discriminate; injection Hrem as <-; reflexivity. }
    pose proof (createFramebuffer_fresh o p1) as Ha.
    destruct (createFramebuffer_surface o p1) as [_ Hg2].
    destruct (createFramebuffer o p1) as [[a|e] p2]; [|discriminate].
    pose proof (createFramebuffer_fresh o p2) as Hb.
    destruct (createFramebuffer_surface o p2) as [_ Hg3].
    destruct (createFramebuffer o p2) as [[b|e] p3]; [|discriminate].
    simpl in Ha, Hb, Hg2, Hg3. intros [= <- <-].
    assert (Hg : geometry p3 = geometry p) by congruence.
    unfold geometry in Hg. injection Hg as Hw Hh Hd.
    rewrite (Ha a eq_refl).
    split; [|eexists; split; [reflexivity|]; simpl; split; congruence].
    unfold Compositor._ensureBuffers. simpl.
    rewrite Hw, Hh, Hd, !Z.eqb_refl, Qeq_bool_refl. reflexivity.
  - (* they fit already *)
    intros [= <- <-].
    unfold Compositor._ensureBuffers. rewrite Hneed.
    split; [reflexivity|].
    destruct (Compositor.bufferA c) as [a|]; [|discriminate].
    exists a. split; [reflexivity|].
    apply orb_false_iff in Hneed. destruct Hneed as [Hneed _].
    apply orb_false_iff in Hneed. destruct Hneed as [Hw Hh].
    apply negb_false_iff in Hw, Hh. split; apply Z.eqb_eq; assumption.
Qed.

Lemma ensureBuffers_settles_witness :
  Compositor._ensureBuffers
    (snd (fst (Compositor._ensureBuffers Compositor.constructor demoHost)))
    (snd (Compositor._ensureBuffers Compositor.constructor demoHost))
  = (Ok tt,
     snd (fst (Compositor._ensureBuffers Compositor.constructor demoHost)),
     snd (Compositor._ensureBuffers Compositor.constructor demoHost)).
Proof.
  exact (proj1 (ensureBuffers_settles Compositor.constructor
                  (snd (fst (Compositor._ensureBuffers Compositor.constructor demoHost)))
                  demoHost
                  (snd (Compositor._ensureBuffers Compositor.constructor demoHost))
                  eq_refl)).
Defined.
